(** * edb: an EVM debugger -- shallow embedding of the interpreter core

    The development follows the Go packages of the repository:
    - [uint256]  : the 256-bit words of github.com/holiman/uint256, by value;
    - [Stack]    : stack.go, a slice used as a LIFO (top at the tail);
    - [Memory]   : memory.go, the byte vector of a call;
    - [Hooks]    : hook.go, the ordered chain of PreRun/PostRun observers;
    - [Asm]      : asm.go, the disassembler;
    - the opcode implementations of opcode.go and the lazy resolver of
      eth_client.go, written in a small state monad over [Context];
    - [Run]      : the interpreter loop of context.go.

    Go panics (index out of range, slice bounds, nil dereference) are an
    explicit outcome of the model, never a silent default. *)

From Stdlib Require Import ZArith Lia.
From Stdlib.Strings Require Import Byte.
From stdpp Require Import base option list gmap strings.

Local Open Scope Z_scope.

(* ===================================================================== *)
(** * Part I: the model                                                    *)
(* ===================================================================== *)

(** ** Machine integers *)

(** Go's [uint64] and [int64] views of an integer, wrap-around written out. *)
Definition u64 (z : Z) : Z := z mod 2 ^ 64.
Definition i64 (z : Z) : Z :=
  let r := z mod 2 ^ 64 in if r <? 2 ^ 63 then r else r - 2 ^ 64.

(** ** Bytes *)

Definition byte_to_Z (b : byte) : Z := Z.of_N (Byte.to_N b).
Definition byte_of_Z (z : Z) : byte :=
  match Byte.of_N (Z.to_N (z mod 256)) with Some b => b | None => x00 end.

(** Big-endian value of a byte string. *)
Definition be_to_Z (bs : list byte) : Z :=
  fold_left (fun acc b => acc * 256 + byte_to_Z b) bs 0.

(** The [n] low-order bytes of [z], most significant first. *)
Fixpoint be_of_Z (n : nat) (z : Z) : list byte :=
  match n with
  | O => []
  | S k => be_of_Z k (z / 256) ++ [byte_of_Z z]
  end.

(** [common.RightPadBytes(slice, l)]: pads with zeroes on the right up to
    [l] bytes; a slice already that long is returned as it is. *)
Definition RightPadBytes (slice : list byte) (l : Z) : list byte :=
  if l <=? Z.of_nat (length slice) then slice
  else slice ++ replicate (Z.to_nat l - length slice) x00.

(** ** uint256.Int, by value *)

Module uint256.

Definition modulus : Z := 2 ^ 256.
Definition wrap (z : Z) : Z := z mod modulus.
Definition AllOne : Z := modulus - 1.
Definition signed (x : Z) : Z := if x <? 2 ^ 255 then x else x - modulus.

Definition Add (x y : Z) : Z := wrap (x + y).
Definition Sub (x y : Z) : Z := wrap (x - y).
Definition Mul (x y : Z) : Z := wrap (x * y).
Definition Div (x y : Z) : Z := if y =? 0 then 0 else x / y.
Definition Mod (x y : Z) : Z := if y =? 0 then 0 else x mod y.
Definition SDiv (x y : Z) : Z :=
  if y =? 0 then 0 else wrap (Z.quot (signed x) (signed y)).
Definition SMod (x y : Z) : Z :=
  if y =? 0 then 0 else wrap (Z.rem (signed x) (signed y)).
Definition Exp (base exponent : Z) : Z := wrap (base ^ exponent).
Definition AddMod (x y m : Z) : Z := if m =? 0 then 0 else (x + y) mod m.
Definition MulMod (x y m : Z) : Z := if m =? 0 then 0 else (x * y) mod m.

(** [z.ExtendSign(x, byteNum)]: [x] sign-extended from [(byteNum+1)*8] bits. *)
Definition ExtendSign (x byteNum : Z) : Z :=
  if 31 <? byteNum then x
  else
    let bit := byteNum * 8 + 7 in
    let mask := 2 ^ bit - 1 in
    if Z.testbit x bit then Z.lor x (AllOne - mask) else Z.land x mask.

Definition Not (x : Z) : Z := AllOne - x.
Definition And (x y : Z) : Z := Z.land x y.
Definition Or (x y : Z) : Z := Z.lor x y.
Definition Xor (x y : Z) : Z := Z.lxor x y.

Definition Lt (x y : Z) : bool := x <? y.
Definition Gt (x y : Z) : bool := y <? x.
Definition Slt (x y : Z) : bool := signed x <? signed y.
Definition Sgt (x y : Z) : bool := signed y <? signed x.
Definition Eq (x y : Z) : bool := x =? y.
Definition IsZero (x : Z) : bool := x =? 0.

(** [z.Byte(n)]: the [n]-th byte of [z] counted from the most significant. *)
Definition Byte (z n : Z) : Z :=
  if n <? 32 then Z.land (Z.shiftr z (8 * (31 - n))) 255 else 0.

(** Shifts by a Go [uint] amount. *)
Definition Lsh (x n : Z) : Z := wrap (Z.shiftl x n).
Definition Rsh (x n : Z) : Z := Z.shiftr x n.
Definition SRsh (x n : Z) : Z := wrap (Z.shiftr (signed x) n).

(** [z.Sign()]: -1, 0 or 1 of [z] read as a two's complement number. *)
Definition Sign (x : Z) : Z :=
  if x =? 0 then 0 else if x <? 2 ^ 255 then 1 else -1.

Definition Uint64 (x : Z) : Z := x mod 2 ^ 64.
Definition Uint64WithOverflow (x : Z) : Z * bool := (x mod 2 ^ 64, 2 ^ 64 <=? x).
Definition LtUint64 (x n : Z) : bool := x <? n.
Definition GtUint64 (x n : Z) : bool := n <? x.

(** [z.SetBytes(buf)]: big-endian; of a longer buffer the last 32 bytes. *)
Definition SetBytes (buf : list byte) : Z := wrap (be_to_Z buf).
(** [uint256.FromBig(b)] of a non-nil [big.Int]. *)
Definition FromBig (b : Z) : Z := wrap b.
Definition Bytes20 (x : Z) : Z := x mod 2 ^ 160.
(** [new(uint256.Int).SetBytes(addr.Bytes())] of a 20-byte address. *)
Definition of_Address (a : Z) : Z := a mod 2 ^ 160.
Definition Bytes32 (x : Z) : list byte := be_of_Z 32 x.

(** The values a [uint256.Int] can hold. *)
Definition valid (x : Z) : Prop := 0 <= x < modulus.

End uint256.

(** ** stack.go *)

Module Stack.
Section Stack.
Context {T : Type}.

(** [Data []T]; [Push] appends, so the top of the stack is the last item. *)

Definition Len (st : list T) : Z := Z.of_nat (length st).

(** [st.Data[i]] for a Go [int] index; [None] is the index panic. *)
Definition at_ (st : list T) (i : Z) : option T :=
  if (0 <=? i) && (i <? Len st) then st !! Z.to_nat i else None.

Definition Push (d : T) (st : list T) : list T := st ++ [d].
Definition PushN (ds : list T) (st : list T) : list T := st ++ ds.

Definition Pop (st : list T) : option (T * list T) :=
  match at_ st (Len st - 1) with
  | Some ret => Some (ret, take (Z.to_nat (Len st - 1)) st)
  | None => None
  end.

Definition Swap (n : Z) (st : list T) : option (list T) :=
  match at_ st (Len st - 1), at_ st (Len st - n) with
  | Some top, Some nth =>
      Some (<[Z.to_nat (Len st - 1) := nth]>
              (<[Z.to_nat (Len st - n) := top]> st))
  | _, _ => None
  end.

Definition Dup (n : Z) (st : list T) : option (list T) :=
  match at_ st (Len st - n) with
  | Some d => Some (Push d st)
  | None => None
  end.

Definition PeekI (n : Z) (st : list T) : option T := at_ st (Len st - 1 - n).
Definition Peek (st : list T) : option T := PeekI 0 st.

(** Writing through the pointer that [PeekI] returns. *)
Definition PokeI (n : Z) (d : T) (st : list T) : option (list T) :=
  match PeekI n st with
  | Some _ => Some (<[Z.to_nat (Len st - 1 - n) := d]> st)
  | None => None
  end.
Definition Poke (d : T) (st : list T) : option (list T) := PokeI 0 d st.

Definition Clear (st : list T) : list T := [].

End Stack.
Abbreviation t T := (list T).
End Stack.

(** ** memory.go *)

Module Memory.

(** [store []byte].  A slice expression may reach up to the capacity of the
    backing array; capacities are not modelled, so a slice bound past the
    length is counted as the bounds panic. *)
Abbreviation t := (list byte).

Definition Len (m : t) : Z := Z.of_nat (length m).

(** [Resize]: zero-extends to [size] bytes, never shrinks. *)
Definition Resize (size : Z) (m : t) : t :=
  if Len m <? size then m ++ replicate (Z.to_nat (size - Len m)) x00 else m.

(** [copy(store[lo:hi], value)]: [None] is the slice-bounds panic; the number
    of bytes copied is the shorter of the window and [value]. *)
Definition copy_into (m : t) (lo hi : Z) (value : list byte) : option t :=
  if (0 <=? lo) && (lo <=? hi) && (hi <=? Len m) then
    let n := Nat.min (Z.to_nat (hi - lo)) (length value) in
    Some (take (Z.to_nat lo) m ++ take n value ++ drop (Z.to_nat lo + n) m)
  else None.

(** [Set(offset, size uint64, value)]; [offset + size] wraps in [uint64]. *)
Definition Set_ (offset size : Z) (value : list byte) (m : t) : option t :=
  if 0 <? size then
    let m1 := if Len m <? u64 (offset + size)
              then Resize (u64 (offset + size)) m else m in
    copy_into m1 offset (u64 (offset + size)) value
  else Some m.

(** [Set32(offset, val)]: zeroes the 32-byte window, then [WriteToSlice]
    fills it with the big-endian bytes of [val]. *)
Definition Set32 (offset : Z) (val : Z) (m : t) : option t :=
  let m1 := if Len m <? u64 (offset + 32)
            then Resize (u64 (offset + 32)) m else m in
  match copy_into m1 offset (u64 (offset + 32)) (replicate 32 x00) with
  | Some m2 => copy_into m2 offset (offset + 32) (uint256.Bytes32 val)
  | None => None
  end.

(** [store[offset : offset+size]] on Go [int] bounds. *)
Definition slice (m : t) (lo hi : Z) : option (list byte) :=
  if (0 <=? lo) && (lo <=? hi) && (hi <=? Len m)
  then Some (take (Z.to_nat (hi - lo)) (drop (Z.to_nat lo) m))
  else None.

(** [GetPtr(offset, size int64)]: [Some []] stands for the nil slice. *)
Definition GetPtr (offset size : Z) (m : t) : option (list byte) :=
  if size =? 0 then Some []
  else if offset <? Len m then slice m offset (i64 (offset + size))
  else Some [].

Definition Data (m : t) : list byte := m.

End Memory.

(** ** Errors *)

(** Go [error] values; [None : option error] is the nil error. *)
Inductive error : Type :=
| ErrInvalidJump                       (* vm.ErrInvalidJump *)
| ErrReturnDataOutOfBounds             (* vm.ErrReturnDataOutOfBounds *)
| ErrBreakpoint                        (* hooks.ErrBreakpoint *)
| errors_New (msg : string)            (* errors.New, fmt.Errorf *)
| errors_Wrap (e : error) (msg : string)
| ErrRemote (code : Z).                (* a failure reported by the RPC node *)

(** ** hook.go *)

Module Hooks.
Section Hooks.
(** [call] and [line] are what the callbacks are shown; [HS] is the private
    state of the attached hook objects, which the callbacks may update.  The
    hooks of the repository (breakpoints and tracers) read the call and the
    line and write only their own fields. *)
Context {call line HS : Type}.

Record hook : Type := {
  PreRun : call -> line -> HS -> HS * option error;
  PostRun : call -> line -> HS -> HS * option error;
}.

Definition EmptyHook : hook :=
  {| PreRun := fun _ _ s => (s, None); PostRun := fun _ _ s => (s, None) |}.

(** [arr []hook] *)
#[local] Abbreviation t := (list hook).

(** The loop shared by [PreRunAll] and [PostRunAll]:
    [for _, h := range hks.arr { if e := h.cb(call, line); e != nil { err = e } }]
    started with [err] as it stands. *)
Fixpoint range_arr (cb : hook -> call -> line -> HS -> HS * option error)
    (arr : list hook) (c : call) (l : line) (err : option error) (s : HS)
    : HS * option error :=
  match arr with
  | [] => (s, err)
  | h :: rest =>
      let '(s', e) := cb h c l s in
      range_arr cb rest c l (match e with Some _ => e | None => err end) s'
  end.

Definition PreRunAll (hks : t) (c : call) (l : line) (s : HS) : HS * option error :=
  range_arr PreRun hks c l None s.

Definition PostRunAll (hks : t) (c : call) (l : line) (s : HS) : HS * option error :=
  range_arr PostRun hks c l None s.

Definition Attach (h : hook) (hks : t) : t := hks ++ [h].

(** [hks.arr = append(hks.arr[0:i], hks.arr[i+1:]...)] under the guard. *)
Definition Detach (i : Z) (hks : t) : t :=
  if (0 <=? i) && (i <? Z.of_nat (length hks))
  then take (Z.to_nat i) hks ++ drop (Z.to_nat (i + 1)) hks
  else hks.

Definition List (hks : t) : list hook := hks.

(** The chain behaviour in the words of the specification, to compare the
    loops above with: every hook of the chain has its callback [cb] called
    once, in attach order, each on the state its predecessors left, whatever
    they returned ... *)
Fixpoint call_each (cb : hook -> call -> line -> HS -> HS * option error)
    (arr : list hook) (c : call) (l : line) (s : HS) : list (HS * option error) :=
  match arr with
  | [] => []
  | h :: rest => cb h c l s :: call_each cb rest c l (cb h c l s).1
  end.
(** ... and the phase returns the last non-nil error of those calls (nil if
    there is none), leaving the state the last call left. *)
Definition last_error (rs : list (HS * option error)) : option error :=
  last (omap snd rs).
Definition last_state (s : HS) (rs : list (HS * option error)) : HS :=
  default s (fst <$> last rs).

End Hooks.
Arguments hook : clear implicits.
Abbreviation t call line HS := (list (hook call line HS)).
End Hooks.

(** ** Opcodes (github.com/ethereum/go-ethereum/core/vm) *)

Module vm.
Definition STOP := 0x00.
Definition ADD := 0x01.
Definition MUL := 0x02.
Definition SUB := 0x03.
Definition DIV := 0x04.
Definition SDIV := 0x05.
Definition MOD := 0x06.
Definition SMOD := 0x07.
Definition ADDMOD := 0x08.
Definition MULMOD := 0x09.
Definition EXP := 0x0a.
Definition SIGNEXTEND := 0x0b.
Definition LT := 0x10.
Definition GT := 0x11.
Definition SLT := 0x12.
Definition SGT := 0x13.
Definition EQ := 0x14.
Definition ISZERO := 0x15.
Definition AND := 0x16.
Definition OR := 0x17.
Definition XOR := 0x18.
Definition NOT := 0x19.
Definition BYTE := 0x1a.
Definition SHL := 0x1b.
Definition SHR := 0x1c.
Definition SAR := 0x1d.
Definition SHA3 := 0x20.
Definition ADDRESS := 0x30.
Definition BALANCE := 0x31.
Definition ORIGIN := 0x32.
Definition CALLER := 0x33.
Definition CALLVALUE := 0x34.
Definition CALLDATALOAD := 0x35.
Definition CALLDATASIZE := 0x36.
Definition CALLDATACOPY := 0x37.
Definition CODESIZE := 0x38.
Definition CODECOPY := 0x39.
Definition GASPRICE := 0x3a.
Definition EXTCODESIZE := 0x3b.
Definition EXTCODECOPY := 0x3c.
Definition RETURNDATASIZE := 0x3d.
Definition RETURNDATACOPY := 0x3e.
Definition EXTCODEHASH := 0x3f.
Definition BLOCKHASH := 0x40.
Definition COINBASE := 0x41.
Definition TIMESTAMP := 0x42.
Definition NUMBER := 0x43.
Definition DIFFICULTY := 0x44.
Definition GASLIMIT := 0x45.
Definition CHAINID := 0x46.
Definition SELFBALANCE := 0x47.
Definition BASEFEE := 0x48.
Definition POP := 0x50.
Definition MLOAD := 0x51.
Definition MSTORE := 0x52.
Definition MSTORE8 := 0x53.
Definition SLOAD := 0x54.
Definition SSTORE := 0x55.
Definition JUMP := 0x56.
Definition JUMPI := 0x57.
Definition PC := 0x58.
Definition MSIZE := 0x59.
Definition GAS := 0x5a.
Definition JUMPDEST := 0x5b.
(** [PUSH1 .. PUSH32], [DUP1 .. DUP16], [SWAP1 .. SWAP16], [LOG0 .. LOG4] *)
Definition PUSH (n : Z) := 0x5f + n.
Definition DUP (n : Z) := 0x7f + n.
Definition SWAP (n : Z) := 0x8f + n.
Definition LOG (n : Z) := 0xa0 + n.
Definition CREATE := 0xf0.
Definition CALL := 0xf1.
Definition CALLCODE := 0xf2.
Definition RETURN := 0xf3.
Definition DELEGATECALL := 0xf4.
Definition CREATE2 := 0xf5.
Definition STATICCALL := 0xfa.
Definition REVERT := 0xfd.
Definition SELFDESTRUCT := 0xff.
End vm.

(** ** The operation table (opcode.go) *)

(** The [Exec] column holds Go function values.  They are named here and
    given their bodies by [Exec_of] below, once [Context] is defined (a
    [Line] of the disassembly points at its [Operation], and the
    disassembly is part of the [Context] the function runs on). *)
Module fn.
Inductive t : Type :=
| opStop | opAdd | opMul | opSub | opDiv | opSdiv | opMod | opSmod
| opAddmod | opMulmod | opExp | opSignExtend
| opLt | opGt | opSlt | opSgt | opEq | opIszero
| opAnd | opOr | opXor | opNot | opByte | opSHL | opSHR | opSAR
| opSha3 | opAddress | opBalance | opOrigin | opCaller | opCallValue
| opCallDataLoad | opCallDataSize | opCallDataCopy | opCodeSize | opCodeCopy
| opGasprice | opExtCodeSize | opExtCodeCopy | opReturnDataSize
| opReturnDataCopy | opExtCodeHash | opBlockhash | opCoinbase | opTimestamp
| opNumber | opDifficulty | opGasLimit | opChainID | opSelfBalance | opBaseFee
| opPop | opMload | opMstore | opMstore8 | opSload | opSstore
| opJump | opJumpi | opPc | opMsize | opGas | opJumpdest
| makePush (n : Z) | makeDup (size : Z) | makeSwap (size : Z) | makeLog (size : Z)
| opCreate | opCall | opCallCode | opReturn | opDelegateCall | opCreate2
| opStaticCall | opRevert | opAssert | opSuicide.
End fn.

(** [GasCost] is left out: the interpreter loop never consults it. *)
Record Operation : Type := make_op_ {
  OpCode : Z;
  OpSize : Z;        (* size of required data, eg: opSize for push3 == 3 *)
  Exec : fn.t;
  NStackIn : Z;      (* count of args that popup from stack *)
  NStackOut : Z;     (* count of new items pushed to stack *)
}.

Definition make_op (opCode opSize nStackIn nStackOut : Z) (exec : fn.t) : Operation :=
  {| OpCode := opCode; OpSize := opSize; NStackIn := nStackIn;
     NStackOut := nStackOut; Exec := exec |}.

Definition nums (lo hi : Z) : list Z :=
  (fun k => lo + Z.of_nat k) <$> seq 0 (Z.to_nat (hi - lo + 1)).

(** The rows of the map literal of [init], in source order; the 32 PUSH, 16
    DUP, 16 SWAP and 5 LOG rows are generated from their index. *)
Definition OpTable_rows : list Operation :=
  [ make_op vm.STOP 0 0 0 fn.opStop;
    make_op vm.ADD 0 2 1 fn.opAdd;
    make_op vm.MUL 0 2 1 fn.opMul;
    make_op vm.SUB 0 2 1 fn.opSub;
    make_op vm.DIV 0 2 1 fn.opDiv;
    make_op vm.SDIV 0 2 1 fn.opSdiv;
    make_op vm.MOD 0 2 1 fn.opMod;
    make_op vm.SMOD 0 2 1 fn.opSmod;
    make_op vm.ADDMOD 0 2 1 fn.opAddmod;
    make_op vm.MULMOD 0 2 1 fn.opMulmod;
    make_op vm.EXP 0 2 1 fn.opExp;
    make_op vm.SIGNEXTEND 0 2 1 fn.opSignExtend;
    make_op vm.LT 0 2 1 fn.opLt;
    make_op vm.GT 0 2 1 fn.opGt;
    make_op vm.SLT 0 2 1 fn.opSlt;
    make_op vm.SGT 0 2 1 fn.opSgt;
    make_op vm.EQ 0 2 1 fn.opEq;
    make_op vm.ISZERO 0 1 1 fn.opIszero;
    make_op vm.AND 0 2 1 fn.opAnd;
    make_op vm.OR 0 2 1 fn.opOr;
    make_op vm.XOR 0 2 1 fn.opXor;
    make_op vm.NOT 0 1 1 fn.opNot;
    make_op vm.BYTE 0 2 1 fn.opByte;
    make_op vm.SHL 0 2 1 fn.opSHL;
    make_op vm.SHR 0 2 1 fn.opSHR;
    make_op vm.SAR 0 2 1 fn.opSAR;
    make_op vm.SHA3 0 2 1 fn.opSha3;
    make_op vm.ADDRESS 0 0 1 fn.opAddress;
    make_op vm.BALANCE 0 1 1 fn.opBalance;
    make_op vm.ORIGIN 0 0 1 fn.opOrigin;
    make_op vm.CALLER 0 0 1 fn.opCaller;
    make_op vm.CALLVALUE 0 0 1 fn.opCallValue;
    make_op vm.CALLDATALOAD 0 0 1 fn.opCallDataLoad;
    make_op vm.CALLDATASIZE 0 0 1 fn.opCallDataSize;
    make_op vm.CALLDATACOPY 0 3 0 fn.opCallDataCopy;
    make_op vm.CODESIZE 0 0 1 fn.opCodeSize;
    make_op vm.CODECOPY 0 3 0 fn.opCodeCopy;
    make_op vm.GASPRICE 0 0 1 fn.opGasprice;
    make_op vm.EXTCODESIZE 0 0 1 fn.opExtCodeSize;
    make_op vm.EXTCODECOPY 0 4 0 fn.opExtCodeCopy;
    make_op vm.RETURNDATASIZE 0 0 1 fn.opReturnDataSize;
    make_op vm.RETURNDATACOPY 0 3 0 fn.opReturnDataCopy;
    make_op vm.EXTCODEHASH 0 1 1 fn.opExtCodeHash;
    make_op vm.BLOCKHASH 0 1 1 fn.opBlockhash;
    make_op vm.COINBASE 0 0 1 fn.opCoinbase;
    make_op vm.TIMESTAMP 0 0 1 fn.opTimestamp;
    make_op vm.NUMBER 0 0 1 fn.opNumber;
    make_op vm.DIFFICULTY 0 0 1 fn.opDifficulty;
    make_op vm.GASLIMIT 0 0 1 fn.opGasLimit;
    make_op vm.CHAINID 0 0 1 fn.opChainID;
    make_op vm.SELFBALANCE 0 0 1 fn.opSelfBalance;
    make_op vm.BASEFEE 0 0 1 fn.opBaseFee;
    make_op vm.POP 0 1 0 fn.opPop;
    make_op vm.MLOAD 0 1 1 fn.opMload;
    make_op vm.MSTORE 0 2 0 fn.opMstore;
    make_op vm.MSTORE8 0 2 0 fn.opMstore8;
    make_op vm.SLOAD 0 1 1 fn.opSload;
    make_op vm.SSTORE 0 2 0 fn.opSstore;
    make_op vm.JUMP 0 1 0 fn.opJump;
    make_op vm.JUMPI 0 2 0 fn.opJumpi;
    make_op vm.PC 0 0 1 fn.opPc;
    make_op vm.MSIZE 0 0 1 fn.opMsize;
    make_op vm.GAS 0 0 1 fn.opGas;
    make_op vm.JUMPDEST 0 0 0 fn.opJumpdest ]
  ++ ((fun n => make_op (vm.PUSH n) n 0 1 (fn.makePush n)) <$> nums 1 32)
  ++ ((fun n => make_op (vm.DUP n) 0 0 1 (fn.makeDup n)) <$> nums 1 16)
  ++ ((fun n => make_op (vm.SWAP n) 0 0 0 (fn.makeSwap n)) <$> nums 1 16)
  ++ ((fun n => make_op (vm.LOG n) 0 (2 + n) 0 (fn.makeLog n)) <$> nums 0 4)
  ++
  [ make_op vm.CREATE 0 0 0 fn.opCreate;
    make_op vm.CALL 0 7 0 fn.opCall;
    make_op vm.CALLCODE 0 0 0 fn.opCallCode;
    make_op vm.RETURN 0 2 0 fn.opReturn;
    make_op vm.DELEGATECALL 0 6 0 fn.opDelegateCall;
    make_op vm.CREATE2 0 0 0 fn.opCreate2;
    make_op vm.STATICCALL 0 6 0 fn.opStaticCall;
    make_op vm.REVERT 0 2 0 fn.opRevert;
    make_op 0xfe 0 1 0 fn.opAssert;
    make_op vm.SELFDESTRUCT 0 1 0 fn.opSuicide ].

(** [OpTable[code]]: the lookup of the Go map ([None] when [ok] is false). *)
Definition OpTable (code : Z) : option Operation :=
  find (fun op => OpCode op =? code) OpTable_rows.

(** ** asm.go *)

Module Line.
Record t : Type := {
  Pc : Z;
  LineNum : Z;
  Op : Operation;
  Data : list byte;   (* additional bytes for OpCode, eg: 4 bytes for PUSH4 *)
}.
End Line.
Abbreviation Line := Line.t.

Module Asm.

Record t : Type := {
  sequence : list Line;     (* for finding *Line by lineNum *)
  mapPc : gmap Z Line;      (* for finding *Line by pc *)
}.

Definition Reset : t := {| sequence := []; mapPc := ∅ |}.
Definition NewAsm : t := Reset.
Definition LineCount (a : t) : Z := Z.of_nat (length (sequence a)).

Definition LineAtPc (pc : Z) (a : t) : error + Line :=
  match mapPc a !! pc with
  | Some line => inr line
  | None => inl (errors_New "invalid pc")
  end.

Definition AtRow (row : Z) (a : t) : option Line :=
  if 0 <=? row then sequence a !! Z.to_nat row else None.

(** The two warnings that [Disasm] prints with [color.Yellow]. *)
Inductive warning : Type :=
| InvalidOpcode (opCode pc codeLen : Z)
| NotEnoughData (opCode pc codeLen opSize : Z).

(** What a call of [Disasm] ends with. *)
Inductive outcome : Type :=
| Returned (e : option error) (a : t) (w : list warning)
| Panicked          (* run-time panic: slice bounds out of range *)
| OutOfFuel.        (* the model's loop bound was too small *)

(** The [for pc < codeLen] loop; every round moves [pc] forward, so
    [length code] rounds are enough. *)
Fixpoint Disasm_loop (fuel : nat) (code : list byte) (pc : Z) (a : t) : outcome :=
  let codeLen := u64 (Z.of_nat (length code)) in
  if pc <? codeLen then
    match fuel with
    | O => OutOfFuel
    | S fuel' =>
        match code !! Z.to_nat pc with
        | None => Panicked
        | Some opCode =>
            match OpTable (byte_to_Z opCode) with
            | None => Returned None a [InvalidOpcode (byte_to_Z opCode) pc codeLen]
            | Some op =>
                if codeLen <? u64 (pc + 1 + OpSize op) then
                  Returned None a [NotEnoughData (OpCode op) pc codeLen (OpSize op)]
                else
                  let line := {| Line.Pc := pc;
                                 Line.LineNum := u64 (Z.of_nat (length (sequence a)));
                                 Line.Op := op;
                                 Line.Data := take (Z.to_nat (OpSize op))
                                              (drop (Z.to_nat (pc + 1)) code) |} in
                  Disasm_loop fuel' code (u64 (pc + 1 + OpSize op))
                    {| sequence := sequence a ++ [line];
                       mapPc := <[pc := line]> (mapPc a) |}
            end
        end
    end
  else Returned None a [].

(** [binary.BigEndian.Uint16] of the last two bytes. *)
Definition meta_len (code : list byte) : Z :=
  be_to_Z (drop (length code - 2) code).

(** [code[0 : len(code)-int(meta_len)-2]]; [None] is the bounds panic. *)
Definition strip_metadata (code : list byte) : option (list byte) :=
  if 2 <? Z.of_nat (length code) then
    let high := Z.of_nat (length code) - meta_len code - 2 in
    if 0 <=? high then Some (take (Z.to_nat high) code) else None
  else Some code.

Definition Disasm (code : list byte) : outcome :=
  match strip_metadata code with
  | None => Panicked
  | Some code' => Disasm_loop (length code') code' 0 Reset
  end.

End Asm.

(** ** context.go: the data of a transaction replay *)

(** [common.Address] and [common.Hash], by their big-endian value. *)
Definition Address := Z.
Definition Hash := Z.
Definition ZeroAddress : Address := 0.

(** The archive node behind [*ethclient.Client]: the answers do not change
    during a replay, so each RPC method is a function of its arguments. *)
Record EthClient : Type := {
  BlockByNumber : Z -> error + Hash;           (* the hash of that block *)
  StorageAt : Address -> Hash -> Z -> error + list byte;
  CodeAt : Address -> Z -> error + list byte;
  BalanceAt : Address -> Z -> error + Z;
}.

Module Msg.
Record t : Type := {
  Data : list byte;
  Gas : Z;            (* gasleft() *)
  Sender : Address;
  Value : Z;          (* *big.Int, not nil *)
}.
End Msg.

Module Tx.
Record t : Type := { Hash_ : Hash; Origin : Address; GasPrice : Z }.
End Tx.

Module Block.
Record t : Type := {
  Number : Z; Timestamp : Z; Difficulty : Z; Coinbase : Address;
  GasLimit : Z; BaseFee : Z;
}.
End Block.

Module Chain.
Record t : Type := { Id : Z; NodeUrl : string }.
End Chain.

Module Code.
Record t : Type := {
  Binary : list byte;
  Asm_ : option Asm.t;     (* nil until disassembled *)
}.

(** What [Code.Disasm] and [Code.Set] end with: they hand on the error of
    [Asm.Disasm]; [None] is its panic (the scan never uses up its rounds). *)
Definition Disasm (code : list byte) (c : t) : option (option error * t) :=
  match Asm_ c with
  | Some _ => Some (None, c)        (* already done disasm *)
  | None =>
      match Asm.Disasm code with
      | Asm.Returned (Some e) _ _ => Some (Some e, c)
      | Asm.Returned None asm _ => Some (None, {| Binary := Binary c; Asm_ := Some asm |})
      | _ => None
      end
  end.

Definition Set_ (code : list byte) (c : t) : option (option error * t) :=
  match Disasm code c with
  | Some (None, c') => Some (None, {| Binary := code; Asm_ := Asm_ c' |})
  | r => r
  end.
End Code.

Module Contract.
Record t : Type := {
  Code_ : Code.t;
  Balance : option Z;         (* *big.Int, nil when not yet known *)
  Storage : gmap Z Z;         (* map[common.Hash]*uint256.Int *)
}.
Definition set_Code (x : Code.t) (k : t) : t :=
  {| Code_ := x; Balance := Balance k; Storage := Storage k |}.
Definition set_Balance (x : option Z) (k : t) : t :=
  {| Code_ := Code_ k; Balance := x; Storage := Storage k |}.
Definition set_Storage (x : gmap Z Z) (k : t) : t :=
  {| Code_ := Code_ k; Balance := Balance k; Storage := x |}.
End Contract.

Definition NewContract : Contract.t :=
  {| Contract.Code_ := {| Code.Binary := []; Code.Asm_ := None |};
     Contract.Balance := None; Contract.Storage := ∅ |}.

Module Call.
Record t : Type := {
  Msg_ : Msg.t;
  This : Address;                 (* address(this) *)
  CodePtr : option Address;       (* only used for delegatecall *)
  Memory_ : Memory.t;
  Stack_ : Stack.t Z;
  Pc : Z;                         (* program counter *)
  OuterReturnOffset : Z;
  OuterReturnSize : Z;
  InnerReturnVal : list byte;     (* returned value from inner CALL/DELEGATECALL *)
}.
Definition set_Memory (x : Memory.t) (k : t) : t :=
  {| Msg_ := Msg_ k; This := This k; CodePtr := CodePtr k; Memory_ := x;
     Stack_ := Stack_ k; Pc := Pc k; OuterReturnOffset := OuterReturnOffset k;
     OuterReturnSize := OuterReturnSize k; InnerReturnVal := InnerReturnVal k |}.
Definition set_Stack (x : Stack.t Z) (k : t) : t :=
  {| Msg_ := Msg_ k; This := This k; CodePtr := CodePtr k; Memory_ := Memory_ k;
     Stack_ := x; Pc := Pc k; OuterReturnOffset := OuterReturnOffset k;
     OuterReturnSize := OuterReturnSize k; InnerReturnVal := InnerReturnVal k |}.
Definition set_Pc (x : Z) (k : t) : t :=
  {| Msg_ := Msg_ k; This := This k; CodePtr := CodePtr k; Memory_ := Memory_ k;
     Stack_ := Stack_ k; Pc := x; OuterReturnOffset := OuterReturnOffset k;
     OuterReturnSize := OuterReturnSize k; InnerReturnVal := InnerReturnVal k |}.
Definition set_InnerReturnVal (x : list byte) (k : t) : t :=
  {| Msg_ := Msg_ k; This := This k; CodePtr := CodePtr k; Memory_ := Memory_ k;
     Stack_ := Stack_ k; Pc := Pc k; OuterReturnOffset := OuterReturnOffset k;
     OuterReturnSize := OuterReturnSize k; InnerReturnVal := x |}.

(** when in delegatecall, [This] references to the caller and [CodePtr]
    points to the real code *)
Definition CodeAddress (c : t) : Address :=
  match CodePtr c with Some a => a | None => This c end.
End Call.

(** [Context].  [CallStack] is a [Stack[*Call]]: the [Call] objects live in
    [calls] and the stack holds their indices, so a frame popped by RETURN or
    STOP is still there for whoever kept the pointer (the hooks of the
    running step do).  The [Hooks] field is kept by the driver state of [Run]
    below. *)
Module Context.
Record t : Type := {
  IsDone : bool;
  ethClient : option EthClient;
  Chain_ : Chain.t;
  Tx_ : Tx.t;
  Block_ : Block.t;
  Contracts : gmap Z Contract.t;      (* map[common.Address]*Contract *)
  calls : list Call.t;                (* the Call objects, by pointer *)
  CallStack : Stack.t nat;            (* Stack[*Call] *)
  BlockHashes : gmap Z Hash;          (* map[blockNum]blockHash *)
}.
Definition set_IsDone (x : bool) (c : t) : t :=
  {| IsDone := x; ethClient := ethClient c; Chain_ := Chain_ c; Tx_ := Tx_ c;
     Block_ := Block_ c; Contracts := Contracts c; calls := calls c;
     CallStack := CallStack c; BlockHashes := BlockHashes c |}.
Definition set_Contracts (x : gmap Z Contract.t) (c : t) : t :=
  {| IsDone := IsDone c; ethClient := ethClient c; Chain_ := Chain_ c; Tx_ := Tx_ c;
     Block_ := Block_ c; Contracts := x; calls := calls c;
     CallStack := CallStack c; BlockHashes := BlockHashes c |}.
Definition set_calls (x : list Call.t) (c : t) : t :=
  {| IsDone := IsDone c; ethClient := ethClient c; Chain_ := Chain_ c; Tx_ := Tx_ c;
     Block_ := Block_ c; Contracts := Contracts c; calls := x;
     CallStack := CallStack c; BlockHashes := BlockHashes c |}.
Definition set_CallStack (x : Stack.t nat) (c : t) : t :=
  {| IsDone := IsDone c; ethClient := ethClient c; Chain_ := Chain_ c; Tx_ := Tx_ c;
     Block_ := Block_ c; Contracts := Contracts c; calls := calls c;
     CallStack := x; BlockHashes := BlockHashes c |}.
Definition set_BlockHashes (x : gmap Z Hash) (c : t) : t :=
  {| IsDone := IsDone c; ethClient := ethClient c; Chain_ := Chain_ c; Tx_ := Tx_ c;
     Block_ := Block_ c; Contracts := Contracts c; calls := calls c;
     CallStack := CallStack c; BlockHashes := x |}.
End Context.

(** ** The monad of the opcode implementations *)

(** A Go function on [*Context] either returns a value and leaves the
    context as it mutated it, or panics. *)
Inductive result (A : Type) : Type :=
| Ok (a : A) (c : Context.t)
| Panic.
Arguments Ok {A} a c.
Arguments Panic {A}.

Definition M (A : Type) : Type := Context.t -> result A.

#[global] Instance M_ret : MRet M := fun A a c => Ok a c.
#[global] Instance M_bind : MBind M := fun A B k m c =>
  match m c with
  | Ok a c' => k a c'
  | Panic => Panic
  end.

Definition panic {A} : M A := fun _ => Panic.
Definition get : M Context.t := fun c => Ok c c.
Definition put (c : Context.t) : M unit := fun _ => Ok tt c.
Definition modify (f : Context.t -> Context.t) : M unit := fun c => Ok tt (f c).
(** A partial step: [None] is the panic. *)
Definition must {A} (o : option A) : M A :=
  match o with Some a => mret a | None => panic end.

(** [executionFunc]: a Go function from a pointer to [Context] to [error]. *)
Definition executionFunc : Type := M (option error).

(** *** Accessors of context.go *)

(** The pointer [*ctx.CallStack.Peek()] and the [Call] it points at. *)
Definition Call_ptr : M nat := c ← get; must (Stack.Peek (Context.CallStack c)).
Definition ctx_Call : M Call.t :=
  p ← Call_ptr; c ← get; must (Context.calls c !! p).
(** A write through that pointer. *)
Definition update_Call (f : Call.t -> Call.t) : M unit :=
  p ← Call_ptr; call ← ctx_Call;
  modify (fun c => Context.set_calls (<[p := f call]> (Context.calls c)) c).

Definition ctx_This : M Address := call ← ctx_Call; mret (Call.This call).
Definition ctx_Msg : M Msg.t := call ← ctx_Call; mret (Call.Msg_ call).
Definition ctx_Stack : M (Stack.t Z) := call ← ctx_Call; mret (Call.Stack_ call).
Definition ctx_Memory : M Memory.t := call ← ctx_Call; mret (Call.Memory_ call).
Definition ctx_Pc : M Z := call ← ctx_Call; mret (Call.Pc call).

(** [ctx.Contracts[addr]], dereferenced: a missing entry is the nil pointer. *)
Definition contract_at (addr : Address) : M Contract.t :=
  c ← get; must (Context.Contracts c !! addr).
Definition ctx_Code : M Code.t :=
  call ← ctx_Call; k ← contract_at (Call.CodeAddress call); mret (Contract.Code_ k).
Definition ctx_Contract : M Contract.t := this ← ctx_This; contract_at this.
Definition ctx_Line : M (error + Line) :=
  code ← ctx_Code; asm ← must (Code.Asm_ code); pc ← ctx_Pc;
  mret (Asm.LineAtPc pc asm).

(** *** The operand stack and the memory of the current call *)

Definition stack_Push (d : Z) : M unit :=
  update_Call (fun k => Call.set_Stack (Stack.Push d (Call.Stack_ k)) k).
Definition stack_Pop : M Z :=
  st ← ctx_Stack; '(ret, st') ← must (Stack.Pop st);
  update_Call (Call.set_Stack st');; mret ret.
Definition stack_Peek : M Z := st ← ctx_Stack; must (Stack.Peek st).
(** [*stack.Peek() = d]: the in-place result of [y.Add(&x, y)] and the like. *)
Definition stack_Poke (d : Z) : M unit :=
  st ← ctx_Stack; st' ← must (Stack.Poke d st); update_Call (Call.set_Stack st').
Definition stack_Dup (n : Z) : M unit :=
  st ← ctx_Stack; st' ← must (Stack.Dup n st); update_Call (Call.set_Stack st').
Definition stack_Swap (n : Z) : M unit :=
  st ← ctx_Stack; st' ← must (Stack.Swap n st); update_Call (Call.set_Stack st').

Definition memory_GetPtr (offset size : Z) : M (list byte) :=
  m ← ctx_Memory; must (Memory.GetPtr offset size m).
Definition memory_Set (offset size : Z) (value : list byte) : M unit :=
  m ← ctx_Memory; m' ← must (Memory.Set_ offset size value m);
  update_Call (Call.set_Memory m').
Definition memory_Set32 (offset val : Z) : M unit :=
  m ← ctx_Memory; m' ← must (Memory.Set32 offset val m);
  update_Call (Call.set_Memory m').

(** ** eth_client.go: the lazy resolver *)

Definition get_online_block_hash (client : option EthClient) (blockNum : Z)
    : error + Hash :=
  match client with
  | None => inl (errors_New "no block hash for")
  | Some cl => BlockByNumber cl blockNum
  end.

Definition get_online_storage (client : option EthClient) (address : Address)
    (slot blockNum : Z) : error + Z :=
  match client with
  | None => inl (errors_New "no storage for")
  | Some cl =>
      if (address =? ZeroAddress) || (blockNum =? 0)
      then inl (errors_New "invalid AddressThis or Block.Number")
      else match StorageAt cl address slot blockNum with
           | inl e => inl e
           | inr bs => inr (uint256.SetBytes bs)
           end
  end.

Definition get_online_code (client : option EthClient) (address : Address)
    (blockNum : Z) : error + list byte :=
  match client with
  | None => inl (errors_New "no code for")
  | Some cl =>
      if (address =? ZeroAddress) || (blockNum =? 0)
      then inl (errors_New "invalid AddressThis or Block.Number")
      else CodeAt cl address (i64 blockNum)
  end.

Definition get_online_balance (client : option EthClient) (address : Address)
    (blockNum : Z) : error + Z :=
  match client with
  | None => inl (errors_New "no balance for")
  | Some cl =>
      if (address =? ZeroAddress) || (blockNum =? 0)
      then inl (errors_New "invalid AddressThis or Block.Number")
      else BalanceAt cl address (i64 blockNum)
  end.

Definition store_contract (addr : Address) (k : Contract.t) : M unit :=
  modify (fun c => Context.set_Contracts (<[addr := k]> (Context.Contracts c)) c).

(** get [*Contract] at addr, create if not exists *)
Definition ensure_contract_at (addr : Address) : M Contract.t :=
  c ← get;
  match Context.Contracts c !! addr with
  | Some contract => mret contract
  | None => store_contract addr NewContract;; mret NewContract
  end.

Definition ensure_balance (address : Address) : M (error + Z) :=
  contract ← ensure_contract_at address;
  match Contract.Balance contract with
  | Some bal => mret (inr bal)
  | None =>
      c ← get;
      match get_online_balance (Context.ethClient c) address
              (u64 (Block.Number (Context.Block_ c) - 1)) with
      | inl e => mret (inl e)
      | inr bal =>
          store_contract address (Contract.set_Balance (Some bal) contract);;
          mret (inr bal)
      end
  end.

Definition ensure_code (address : Address) : M (error + list byte) :=
  contract ← ensure_contract_at address;
  if 0 <? Z.of_nat (length (Code.Binary (Contract.Code_ contract))) then
    mret (inr (Code.Binary (Contract.Code_ contract)))
  else
    c ← get;
    match get_online_code (Context.ethClient c) address
            (Block.Number (Context.Block_ c)) with
    | inl e => mret (inl e)
    | inr binary =>
        r ← must (Code.Set_ binary (Contract.Code_ contract));
        match r with
        | (Some e, code') =>
            store_contract address (Contract.set_Code code' contract);;
            mret (inl e)
        | (None, code') =>
            store_contract address (Contract.set_Code code' contract);;
            mret (inr binary)
        end
    end.

Definition ensure_storage (address : Address) (slot : Z) : M (error + Z) :=
  contract ← ensure_contract_at address;
  match Contract.Storage contract !! slot with
  | Some val => mret (inr val)
  | None =>
      c ← get;
      match get_online_storage (Context.ethClient c) address slot
              (u64 (Block.Number (Context.Block_ c) - 1)) with
      | inl e => mret (inl e)
      | inr val =>
          store_contract address
            (Contract.set_Storage (<[slot := val]> (Contract.Storage contract)) contract);;
          mret (inr val)
      end
  end.

Definition ensure_block_hash (blockNum : Z) : M (error + Hash) :=
  c ← get;
  match Context.BlockHashes c !! blockNum with
  | Some hash => mret (inr hash)
  | None =>
      match get_online_block_hash (Context.ethClient c) blockNum with
      | inl e => mret (inl e)
      | inr hash =>
          modify (fun c => Context.set_BlockHashes
                             (<[blockNum := hash]> (Context.BlockHashes c)) c);;
          mret (inr hash)
      end
  end.

(** ** opcode.go: the implementations *)

(** [getData]: [data[start:end]] right-padded to [size]; [None] is the panic
    of the slice expression when [start + size] wraps below [start]. *)
Definition getData (data : list byte) (start size : Z) : option (list byte) :=
  let length_ := u64 (Z.of_nat (length data)) in
  let start := if length_ <? start then length_ else start in
  let end_ := u64 (start + size) in
  let end_ := if length_ <? end_ then length_ else end_ in
  match Memory.slice data start end_ with
  | Some s => Some (RightPadBytes s (i64 size))
  | None => None
  end.

Definition bool_word (b : bool) : Z := if b then 1 else 0.

Section Opcodes.

(** [util.Sha3] (Keccak-256) and the table [vm.PrecompiledContractsBerlin]
    with the [Run] method of its entries come from other packages. *)
Variable Sha3 : list byte -> list byte.
Variable PrecompiledContractsBerlin : Address -> option (list byte -> error + list byte).

Definition opInvalid : executionFunc := mret (Some (errors_New "invalid op")).

Definition opAdd : executionFunc :=
  x ← stack_Pop; y ← stack_Peek; stack_Poke (uint256.Add x y);; mret None.
Definition opSub : executionFunc :=
  x ← stack_Pop; y ← stack_Peek; stack_Poke (uint256.Sub x y);; mret None.
Definition opMul : executionFunc :=
  x ← stack_Pop; y ← stack_Peek; stack_Poke (uint256.Mul x y);; mret None.
Definition opDiv : executionFunc :=
  x ← stack_Pop; y ← stack_Peek; stack_Poke (uint256.Div x y);; mret None.
Definition opSdiv : executionFunc :=
  x ← stack_Pop; y ← stack_Peek; stack_Poke (uint256.SDiv x y);; mret None.
Definition opMod : executionFunc :=
  x ← stack_Pop; y ← stack_Peek; stack_Poke (uint256.Mod x y);; mret None.
Definition opSmod : executionFunc :=
  x ← stack_Pop; y ← stack_Peek; stack_Poke (uint256.SMod x y);; mret None.
Definition opExp : executionFunc :=
  base ← stack_Pop; exponent ← stack_Peek;
  stack_Poke (uint256.Exp base exponent);; mret None.
Definition opSignExtend : executionFunc :=
  back ← stack_Pop; num ← stack_Peek;
  stack_Poke (uint256.ExtendSign num back);; mret None.
Definition opNot : executionFunc :=
  x ← stack_Peek; stack_Poke (uint256.Not x);; mret None.
Definition opLt : executionFunc :=
  x ← stack_Pop; y ← stack_Peek; stack_Poke (bool_word (uint256.Lt x y));; mret None.
Definition opGt : executionFunc :=
  x ← stack_Pop; y ← stack_Peek; stack_Poke (bool_word (uint256.Gt x y));; mret None.
Definition opSlt : executionFunc :=
  x ← stack_Pop; y ← stack_Peek; stack_Poke (bool_word (uint256.Slt x y));; mret None.
Definition opSgt : executionFunc :=
  x ← stack_Pop; y ← stack_Peek; stack_Poke (bool_word (uint256.Sgt x y));; mret None.
Definition opEq : executionFunc :=
  x ← stack_Pop; y ← stack_Peek; stack_Poke (bool_word (uint256.Eq x y));; mret None.
Definition opIszero : executionFunc :=
  x ← stack_Peek; stack_Poke (bool_word (uint256.IsZero x));; mret None.
Definition opAnd : executionFunc :=
  x ← stack_Pop; y ← stack_Peek; stack_Poke (uint256.And x y);; mret None.
Definition opOr : executionFunc :=
  x ← stack_Pop; y ← stack_Peek; stack_Poke (uint256.Or x y);; mret None.
Definition opXor : executionFunc :=
  x ← stack_Pop; y ← stack_Peek; stack_Poke (uint256.Xor x y);; mret None.
Definition opByte : executionFunc :=
  th ← stack_Pop; val ← stack_Peek; stack_Poke (uint256.Byte val th);; mret None.
Definition opAddmod : executionFunc :=
  x ← stack_Pop; y ← stack_Pop; z ← stack_Peek;
  (if uint256.IsZero z then stack_Poke 0 else stack_Poke (uint256.AddMod x y z));;
  mret None.
Definition opMulmod : executionFunc :=
  x ← stack_Pop; y ← stack_Pop; z ← stack_Peek;
  stack_Poke (uint256.MulMod x y z);; mret None.

Definition opSHL : executionFunc :=
  shift ← stack_Pop; value ← stack_Peek;
  (if uint256.LtUint64 shift 256
   then stack_Poke (uint256.Lsh value (uint256.Uint64 shift))
   else stack_Poke 0);;
  mret None.
Definition opSHR : executionFunc :=
  shift ← stack_Pop; value ← stack_Peek;
  (if uint256.LtUint64 shift 256
   then stack_Poke (uint256.Rsh value (uint256.Uint64 shift))
   else stack_Poke 0);;
  mret None.
Definition opSAR : executionFunc :=
  shift ← stack_Pop; value ← stack_Peek;
  if uint256.GtUint64 shift 256 then
    (if 0 <=? uint256.Sign value then stack_Poke 0
     else stack_Poke uint256.AllOne);;
    mret None
  else
    let n := uint256.Uint64 shift in
    stack_Poke (uint256.SRsh value n);; mret None.

Definition opSha3 : executionFunc :=
  offset ← stack_Pop; size ← stack_Peek;
  data ← memory_GetPtr (i64 (uint256.Uint64 offset)) (i64 (uint256.Uint64 size));
  stack_Poke (uint256.SetBytes (Sha3 data));; mret None.
Definition opAddress : executionFunc :=
  this ← ctx_This; stack_Push (uint256.of_Address this);; mret None.
Definition opBalance : executionFunc := mret (Some (errors_New "TODO opBalance")).
Definition opOrigin : executionFunc :=
  c ← get; stack_Push (uint256.of_Address (Tx.Origin (Context.Tx_ c)));; mret None.
Definition opCaller : executionFunc :=
  msg ← ctx_Msg; stack_Push (uint256.of_Address (Msg.Sender msg));; mret None.
Definition opCallValue : executionFunc :=
  msg ← ctx_Msg; stack_Push (uint256.FromBig (Msg.Value msg));; mret None.

Definition opCallDataLoad : executionFunc :=
  off ← stack_Peek;
  let '(offset, overflow) := uint256.Uint64WithOverflow off in
  (if negb overflow then
     msg ← ctx_Msg; data ← must (getData (Msg.Data msg) offset 32);
     stack_Poke (uint256.SetBytes data)
   else stack_Poke 0);;
  mret None.
Definition opCallDataSize : executionFunc :=
  msg ← ctx_Msg; stack_Push (u64 (Z.of_nat (length (Msg.Data msg))));; mret None.
Definition opCallDataCopy : executionFunc :=
  memOffset ← stack_Pop; dataOffset ← stack_Pop; length_ ← stack_Pop;
  let '(dataOffset64, overflow) := uint256.Uint64WithOverflow dataOffset in
  let dataOffset64 := if overflow then 0xffffffffffffffff else dataOffset64 in
  let memOffset64 := uint256.Uint64 memOffset in
  let length64 := uint256.Uint64 length_ in
  msg ← ctx_Msg; data ← must (getData (Msg.Data msg) dataOffset64 length64);
  memory_Set memOffset64 length64 data;; mret None.
Definition opReturnDataSize : executionFunc :=
  call ← ctx_Call;
  stack_Push (u64 (Z.of_nat (length (Call.InnerReturnVal call))));; mret None.
Definition opReturnDataCopy : executionFunc :=
  memOffset ← stack_Pop; dataOffset ← stack_Pop; length_ ← stack_Pop;
  let '(offset64, overflow) := uint256.Uint64WithOverflow dataOffset in
  if overflow then mret (Some ErrReturnDataOutOfBounds)
  else
    let end_ := uint256.Add dataOffset length_ in
    let '(end64, overflow) := uint256.Uint64WithOverflow end_ in
    call ← ctx_Call;
    if overflow || (u64 (Z.of_nat (length (Call.InnerReturnVal call))) <? end64)
    then mret (Some ErrReturnDataOutOfBounds)
    else
      data ← must (Memory.slice (Call.InnerReturnVal call) offset64 end64);
      memory_Set (uint256.Uint64 memOffset) (uint256.Uint64 length_) data;;
      mret None.

Definition opExtCodeSize : executionFunc :=
  slot ← stack_Peek;
  r ← ensure_code (uint256.Bytes20 slot);
  match r with
  | inl e => mret (Some e)
  | inr code => stack_Poke (u64 (Z.of_nat (length code)));; mret None
  end.
Definition opCodeSize : executionFunc :=
  addr ← ctx_This;
  r ← ensure_code addr;
  match r with
  | inl e => mret (Some e)
  | inr code => stack_Push (u64 (Z.of_nat (length code)));; mret None
  end.
Definition opCodeCopy : executionFunc :=
  memOffset ← stack_Pop; codeOffset ← stack_Pop; length_ ← stack_Pop;
  let '(uint64CodeOffset, overflow) := uint256.Uint64WithOverflow codeOffset in
  let uint64CodeOffset := if overflow then 0xffffffffffffffff else uint64CodeOffset in
  addr ← ctx_This;
  r ← ensure_code addr;
  match r with
  | inl e => mret (Some e)
  | inr code =>
      codeToCopy ← must (getData code uint64CodeOffset (uint256.Uint64 length_));
      memory_Set (uint256.Uint64 memOffset) (uint256.Uint64 length_) codeToCopy;;
      mret None
  end.
Definition opExtCodeCopy : executionFunc :=
  a ← stack_Pop; memOffset ← stack_Pop; codeOffset ← stack_Pop; length_ ← stack_Pop;
  let '(uint64CodeOffset, overflow) := uint256.Uint64WithOverflow codeOffset in
  let uint64CodeOffset := if overflow then 0xffffffffffffffff else uint64CodeOffset in
  r ← ensure_code (uint256.Bytes20 a);
  match r with
  | inl e => mret (Some e)
  | inr code =>
      codeToCopy ← must (getData code uint64CodeOffset (uint256.Uint64 length_));
      memory_Set (uint256.Uint64 memOffset) (uint256.Uint64 length_) codeToCopy;;
      mret None
  end.
Definition opExtCodeHash : executionFunc :=
  slot ← stack_Peek;
  r ← ensure_code (uint256.Bytes20 slot);
  match r with
  | inl e => mret (Some e)
  | inr code => stack_Poke (uint256.SetBytes (Sha3 code));; mret None
  end.
Definition opGasprice : executionFunc :=
  c ← get; stack_Push (Tx.GasPrice (Context.Tx_ c));; mret None.

Definition opBlockhash : executionFunc :=
  num ← stack_Peek;
  let '(num64, overflow) := uint256.Uint64WithOverflow num in
  if overflow then mret (Some (errors_New "block hash overflow: "))
  else
    c ← get;
    let upper := Block.Number (Context.Block_ c) in
    let lower := if upper <? 257 then 0 else upper - 256 in
    if (lower <=? num64) && (num64 <? upper) then
      r ← ensure_block_hash num64;
      match r with
      | inl e => mret (Some e)
      | inr hash => stack_Poke (uint256.wrap hash);; mret None
      end
    else stack_Poke 0;; mret None.

Definition opCoinbase : executionFunc :=
  c ← get; stack_Push (uint256.of_Address (Block.Coinbase (Context.Block_ c)));; mret None.
Definition opTimestamp : executionFunc :=
  c ← get;
  stack_Push (uint256.FromBig (i64 (Block.Timestamp (Context.Block_ c))));; mret None.
Definition opNumber : executionFunc :=
  c ← get;
  stack_Push (uint256.FromBig (i64 (Block.Number (Context.Block_ c))));; mret None.
Definition opDifficulty : executionFunc :=
  c ← get;
  stack_Push (uint256.FromBig (i64 (Block.Difficulty (Context.Block_ c))));; mret None.
Definition opGasLimit : executionFunc :=
  c ← get; stack_Push (Block.GasLimit (Context.Block_ c));; mret None.

Definition opPop : executionFunc := stack_Pop;; mret None.
Definition opMload : executionFunc :=
  v ← stack_Peek;
  let offset := i64 (uint256.Uint64 v) in
  data ← memory_GetPtr offset 32;
  stack_Poke (uint256.SetBytes data);; mret None.
Definition opMstore : executionFunc :=
  ptr ← stack_Pop; val ← stack_Pop;
  memory_Set32 (uint256.Uint64 ptr) val;; mret None.
Definition opMstore8 : executionFunc :=
  ptr ← stack_Pop; val ← stack_Pop;
  memory_Set (uint256.Uint64 ptr) 1 [byte_of_Z (uint256.Uint64 val)];; mret None.
Definition opSload : executionFunc :=
  slot ← stack_Peek;
  call ← ctx_Call;
  r ← ensure_storage (Call.This call) slot;
  match r with
  | inl e => mret (Some e)
  | inr val => stack_Poke val;; mret None
  end.
Definition opSstore : executionFunc :=
  slot ← stack_Pop; val ← stack_Pop;
  this ← ctx_This; contract ← ctx_Contract;
  store_contract this
    (Contract.set_Storage (<[slot := val]> (Contract.Storage contract)) contract);;
  mret None.

Definition opJump : executionFunc :=
  pos ← stack_Pop;
  code ← ctx_Code;
  let codeLen := u64 (Z.of_nat (length (Code.Binary code))) in
  if codeLen <=? uint256.Uint64 pos then mret (Some ErrInvalidJump)
  else update_Call (Call.set_Pc (uint256.Uint64 pos));; mret None.
Definition opJumpi : executionFunc :=
  pos ← stack_Pop; cond ← stack_Pop;
  if negb (uint256.IsZero cond) then
    code ← ctx_Code;
    let codeLen := u64 (Z.of_nat (length (Code.Binary code))) in
    if codeLen <=? uint256.Uint64 pos then mret (Some ErrInvalidJump)
    else update_Call (Call.set_Pc (uint256.Uint64 pos));; mret None
  else
    update_Call (fun k => Call.set_Pc (u64 (Call.Pc k + 1)) k);; mret None.
Definition opJumpdest : executionFunc := mret None.
Definition opPc : executionFunc := pc ← ctx_Pc; stack_Push pc;; mret None.
Definition opMsize : executionFunc :=
  m ← ctx_Memory; stack_Push (u64 (Memory.Len m));; mret None.
Definition opGas : executionFunc :=
  msg ← ctx_Msg; stack_Push (Msg.Gas msg);; mret None.
Definition opCreate : executionFunc := mret (Some (errors_New "TODO opCreate")).
Definition opCreate2 : executionFunc := mret (Some (errors_New "TODO opCreate2")).

(** [ctx.CallStack.Push(newCall)]: the new object gets the next pointer. *)
Definition callstack_Push (newCall : Call.t) : M unit :=
  modify (fun c =>
    Context.set_CallStack (Stack.Push (length (Context.calls c)) (Context.CallStack c))
      (Context.set_calls (Context.calls c ++ [newCall]) c)).
Definition callstack_Pop : M nat :=
  c ← get; '(p, st') ← must (Stack.Pop (Context.CallStack c));
  modify (Context.set_CallStack st');; mret p.

Definition do_opcall (gas addr value inOffset inSize retOffset retSize : Z)
    : executionFunc :=
  let toAddr := uint256.Bytes20 addr in
  input ← memory_GetPtr (i64 (uint256.Uint64 inOffset)) (i64 (uint256.Uint64 inSize));
  match PrecompiledContractsBerlin toAddr with
  | Some precompiled =>
      match precompiled input with
      | inl e => mret (Some (errors_Wrap e "Precompiled"))
      | inr output =>
          update_Call (Call.set_InnerReturnVal output);;
          memory_Set (uint256.Uint64 retOffset) (uint256.Uint64 retSize) output;;
          stack_Push 1;;
          mret None
      end
  | None =>
      r ← ensure_code toAddr;    (* fetch code + disasm for new Contract *)
      match r with
      | inl e => mret (Some e)
      | inr _ =>
          let bigVal := if negb (uint256.IsZero value) then value else 0 in
          currCall ← ctx_Call;
          (* add a newCall to CallStack *)
          let newCall :=
            {| Call.Msg_ := {| Msg.Data := input;
                               Msg.Sender := Call.This currCall;
                               Msg.Value := bigVal;
                               Msg.Gas := Msg.Gas (Call.Msg_ currCall) |};
               Call.This := toAddr;
               Call.CodePtr := None;
               Call.Memory_ := [];
               Call.Stack_ := [];
               Call.Pc := 0;
               Call.OuterReturnOffset := uint256.Uint64 retOffset;
               Call.OuterReturnSize := uint256.Uint64 retSize;
               Call.InnerReturnVal := [] |} in
          callstack_Push newCall;;
          mret None
      end
  end.

Definition opCall : executionFunc :=
  gas ← stack_Pop; addr ← stack_Pop; value ← stack_Pop; inOffset ← stack_Pop;
  inSize ← stack_Pop; retOffset ← stack_Pop; retSize ← stack_Pop;
  (* when input is empty, it's transfer *)
  if uint256.IsZero inSize then
    (* just assume it succeeded *)
    stack_Push 1;; mret None
  else do_opcall gas addr value inOffset inSize retOffset retSize.

Definition opCallCode : executionFunc := mret (Some (errors_New "TODO opCallCode")).

Definition opDelegateCall : executionFunc :=
  gas ← stack_Pop; addr ← stack_Pop; inOffset ← stack_Pop;
  inSize ← stack_Pop; retOffset ← stack_Pop; retSize ← stack_Pop;
  let toAddr := uint256.Bytes20 addr in
  r ← ensure_code toAddr;
  match r with
  | inl e => mret (Some e)
  | inr _ =>
      currCall ← ctx_Call;
      args ← memory_GetPtr (i64 (uint256.Uint64 inOffset)) (i64 (uint256.Uint64 inSize));
      let newCall :=
        {| Call.Msg_ := {| Msg.Data := args;
                           Msg.Sender := Msg.Sender (Call.Msg_ currCall);
                           Msg.Value := Msg.Value (Call.Msg_ currCall);
                           Msg.Gas := Msg.Gas (Call.Msg_ currCall) |};
           Call.This := Call.This currCall;
           Call.CodePtr := Some toAddr;
           Call.Memory_ := [];
           Call.Stack_ := [];
           Call.Pc := 0;
           Call.OuterReturnOffset := uint256.Uint64 retOffset;
           Call.OuterReturnSize := uint256.Uint64 retSize;
           Call.InnerReturnVal := [] |} in
      callstack_Push newCall;;
      mret None
  end.

Definition opStaticCall : executionFunc :=
  gas ← stack_Pop; addr ← stack_Pop; inOffset ← stack_Pop;
  inSize ← stack_Pop; retOffset ← stack_Pop; retSize ← stack_Pop;
  let value := 0 in
  do_opcall gas addr value inOffset inSize retOffset retSize.

Definition opReturn : executionFunc :=
  offset ← stack_Pop; size ← stack_Pop;
  output ← memory_GetPtr (i64 (uint256.Uint64 offset)) (i64 (uint256.Uint64 size));
  call ← ctx_Call;
  c ← get;
  if 1 <? Stack.Len (Context.CallStack c) then
    (* returning from inner call, not main call *)
    callstack_Pop;;
    (* after pop(), now it points to the outer call *)
    update_Call (Call.set_InnerReturnVal output);;
    memory_Set (Call.OuterReturnOffset call) (Call.OuterReturnSize call) output;;
    stack_Push 1;;      (* outerStack *)
    mret None
  else
    modify (Context.set_IsDone true);; mret None.

Definition opRevert : executionFunc :=
  offset ← stack_Pop; size ← stack_Pop;
  ret ← memory_GetPtr (i64 (uint256.Uint64 offset)) (i64 (uint256.Uint64 size));
  mret (Some (errors_New "Reverted")).

Definition opAssert : executionFunc :=
  mret (Some (errors_New "TODO: opcode Assert")).

Definition opStop : executionFunc :=
  c ← get;
  if 1 <? Stack.Len (Context.CallStack c) then
    callstack_Pop;; stack_Push 1;; mret None
  else
    modify (Context.set_IsDone true);; mret None.

Definition opSuicide : executionFunc :=
  beneficiary ← stack_Pop; mret (Some (errors_New "opSuicide -> ")).

Definition opChainID : executionFunc :=
  c ← get; stack_Push (Chain.Id (Context.Chain_ c));; mret None.
Definition opSelfBalance : executionFunc :=
  call ← ctx_Call;
  r ← ensure_balance (Call.This call);
  match r with
  | inl e => mret (Some e)
  | inr bal => stack_Push (uint256.FromBig bal);; mret None
  end.
Definition opBaseFee : executionFunc :=
  c ← get; stack_Push (Block.BaseFee (Context.Block_ c));; mret None.

Definition makePush (n : Z) : executionFunc :=
  code ← ctx_Code;
  let codeLen := u64 (Z.of_nat (length (Code.Binary code))) in
  pc ← ctx_Pc;
  if codeLen <? u64 (pc + 1 + n) then mret (Some (errors_New "opPushN not enough data"))
  else
    data ← must (Memory.slice (Code.Binary code) (u64 (pc + 1)) (u64 (pc + 1 + n)));
    stack_Push (uint256.SetBytes data);;
    update_Call (fun k => Call.set_Pc (u64 (Call.Pc k + n)) k);;
    mret None.

Definition makeDup (size : Z) : executionFunc := stack_Dup size;; mret None.

Definition makeSwap (size : Z) : executionFunc :=
  (* switch n + 1 otherwise n would be swapped with n *)
  let size := size + 1 in
  stack_Swap size;; mret None.

(** [for i := 0; i < size; i++ { ctx.Stack().Pop() }] *)
Fixpoint pop_times (n : nat) : M unit :=
  match n with
  | O => mret tt
  | S k => stack_Pop;; pop_times k
  end.
Definition makeLog (size : Z) : executionFunc :=
  stack_Pop;; stack_Pop;; pop_times (Z.to_nat size);; mret None.

(** The function value behind each name of the [Exec] column. *)
Definition Exec_of (f : fn.t) : executionFunc :=
  match f with
  | fn.opStop => opStop | fn.opAdd => opAdd | fn.opMul => opMul
  | fn.opSub => opSub | fn.opDiv => opDiv | fn.opSdiv => opSdiv
  | fn.opMod => opMod | fn.opSmod => opSmod | fn.opAddmod => opAddmod
  | fn.opMulmod => opMulmod | fn.opExp => opExp
  | fn.opSignExtend => opSignExtend | fn.opLt => opLt | fn.opGt => opGt
  | fn.opSlt => opSlt | fn.opSgt => opSgt | fn.opEq => opEq
  | fn.opIszero => opIszero | fn.opAnd => opAnd | fn.opOr => opOr
  | fn.opXor => opXor | fn.opNot => opNot | fn.opByte => opByte
  | fn.opSHL => opSHL | fn.opSHR => opSHR | fn.opSAR => opSAR
  | fn.opSha3 => opSha3 | fn.opAddress => opAddress
  | fn.opBalance => opBalance | fn.opOrigin => opOrigin
  | fn.opCaller => opCaller | fn.opCallValue => opCallValue
  | fn.opCallDataLoad => opCallDataLoad | fn.opCallDataSize => opCallDataSize
  | fn.opCallDataCopy => opCallDataCopy | fn.opCodeSize => opCodeSize
  | fn.opCodeCopy => opCodeCopy | fn.opGasprice => opGasprice
  | fn.opExtCodeSize => opExtCodeSize | fn.opExtCodeCopy => opExtCodeCopy
  | fn.opReturnDataSize => opReturnDataSize
  | fn.opReturnDataCopy => opReturnDataCopy
  | fn.opExtCodeHash => opExtCodeHash | fn.opBlockhash => opBlockhash
  | fn.opCoinbase => opCoinbase | fn.opTimestamp => opTimestamp
  | fn.opNumber => opNumber | fn.opDifficulty => opDifficulty
  | fn.opGasLimit => opGasLimit | fn.opChainID => opChainID
  | fn.opSelfBalance => opSelfBalance | fn.opBaseFee => opBaseFee
  | fn.opPop => opPop | fn.opMload => opMload | fn.opMstore => opMstore
  | fn.opMstore8 => opMstore8 | fn.opSload => opSload | fn.opSstore => opSstore
  | fn.opJump => opJump | fn.opJumpi => opJumpi | fn.opPc => opPc
  | fn.opMsize => opMsize | fn.opGas => opGas | fn.opJumpdest => opJumpdest
  | fn.makePush n => makePush n | fn.makeDup size => makeDup size
  | fn.makeSwap size => makeSwap size | fn.makeLog size => makeLog size
  | fn.opCreate => opCreate | fn.opCall => opCall | fn.opCallCode => opCallCode
  | fn.opReturn => opReturn | fn.opDelegateCall => opDelegateCall
  | fn.opCreate2 => opCreate2 | fn.opStaticCall => opStaticCall
  | fn.opRevert => opRevert | fn.opAssert => opAssert | fn.opSuicide => opSuicide
  end.

(** ** context.go: the interpreter loop *)

Section Run.
(** The [Hooks] field of the context: the chain and the state of its hook
    objects.  A callback is handed the [*Call] pointer, which it reads
    through the context of the moment, and the [*Line]. *)
Context {HS : Type}.
Abbreviation hooks_t := (Hooks.t (Context.t * nat) Line HS).

(** What a call of [Run] ends with. *)
Inductive Run_outcome : Type :=
| Run_returned (e : option error) (c : Context.t) (s : HS)
| Run_panicked
| Run_out_of_fuel.      (* the model's bound on the number of rounds *)

(** [call.Pc += 1] through the pointer taken at the top of the round. *)
Definition bump_Pc (call : nat) (c : Context.t) : Context.t :=
  match Context.calls c !! call with
  | Some k =>
      Context.set_calls (<[call := Call.set_Pc (u64 (Call.Pc k + 1)) k]> (Context.calls c)) c
  | None => c
  end.

(** The loop [for steps != 0 && !ctx.IsDone] with its local [is_first_step]. *)
Fixpoint Run_loop (fuel : nat) (hooks : hooks_t) (is_first_step : bool)
    (steps : Z) (c : Context.t) (s : HS) : Run_outcome :=
  if negb (steps =? 0) && negb (Context.IsDone c) then
    match fuel with
    | O => Run_out_of_fuel
    | S fuel' =>
        match Call_ptr c, ctx_Line c with
        | Ok call _, Ok (inl e) _ => Run_returned (Some e) c s
        | Ok call _, Ok (inr line) _ =>
            let opcode := OpCode (Line.Op line) in
            match OpTable opcode with
            | None => Run_panicked
            | Some op =>
                (* 1. run hooks before executing current line *)
                let '(s1, e) := Hooks.PreRunAll hooks (c, call) line s in
                if bool_decide (e ≠ None) && negb is_first_step then Run_returned e c s1
                else
                  match Exec_of (Exec op) c with      (* execute the asm line *)
                  | Panic => Run_panicked
                  | Ok (Some e) c1 => Run_returned (Some e) c1 s1
                  | Ok None c1 =>
                      (* increase pc by 1; JUMPs handle pc themselves *)
                      let c2 := if negb (opcode =? vm.JUMP) && negb (opcode =? vm.JUMPI)
                                then bump_Pc call c1 else c1 in
                      (* 2. run hooks after executing current line *)
                      let '(s2, e) := Hooks.PostRunAll hooks (c2, call) line s1 in
                      match e with
                      | Some _ => Run_returned e c2 s2
                      | None => Run_loop fuel' hooks false (i64 (steps - 1)) c2 s2
                      end
                  end
            end
        | _, _ => Run_panicked
        end
    end
  else Run_returned None c s.

Definition Run (fuel : nat) (hooks : hooks_t) (steps : Z) (c : Context.t) (s : HS)
    : Run_outcome :=
  (* first step always executed, no matter breakpoint or not *)
  Run_loop fuel hooks true steps c s.

End Run.
End Opcodes.

(** ** Observations on a context *)

(** The [Call] that [ctx.Call()] returns, and what is read through it. *)
Definition cur_Call (c : Context.t) : option Call.t :=
  p ← Stack.Peek (Context.CallStack c); Context.calls c !! p.
Definition cur_Stack (c : Context.t) : option (Stack.t Z) := Call.Stack_ <$> cur_Call c.
Definition cur_Pc (c : Context.t) : option Z := Call.Pc <$> cur_Call c.
(** The depth of the operand stack of the [Call] object at pointer [p]. *)
Definition depth_at (p : nat) (c : Context.t) : option Z :=
  (fun k => Stack.Len (Call.Stack_ k)) <$> Context.calls c !! p.
(** [*p = k] *)
Definition with_Call (p : nat) (k : Call.t) (c : Context.t) : Context.t :=
  Context.set_calls (<[p := k]> (Context.calls c)) c.
(** [p] is the current call of [c], and it is [k]. *)
Definition at_frame (c : Context.t) (p : nat) (k : Call.t) : Prop :=
  Stack.Peek (Context.CallStack c) = Some p /\ Context.calls c !! p = Some k.
(** From [c] to [c'] the call stack is the same, the operand stack of the
    call at [p] is deeper by [d], and no other call object was written. *)
Definition frame_rel (d : Z) (p : nat) (c c' : Context.t) : Prop :=
  Context.CallStack c' = Context.CallStack c /\
  (forall k, Context.calls c !! p = Some k ->
     exists k', Context.calls c' !! p = Some k' /\
                Stack.Len (Call.Stack_ k') = Stack.Len (Call.Stack_ k) + d) /\
  (forall q : nat, q <> p -> Context.calls c' !! q = Context.calls c !! q).
(** Whenever [m] returns, it has moved the depth of the current call by [d]. *)
Definition shifts {A} (d : Z) (m : M A) : Prop :=
  forall c a c', m c = Ok a c' ->
  forall p, Stack.Peek (Context.CallStack c) = Some p -> frame_rel d p c c'.
(** The same for an [executionFunc] that returns the nil error. *)
Definition oshifts (d : Z) (m : executionFunc) : Prop :=
  forall c c', m c = Ok None c' ->
  forall p, Stack.Peek (Context.CallStack c) = Some p -> frame_rel d p c c'.

(** ** The stack arities of the table, measured on the functions *)

(** What the body of each function of the [Exec] column does to the depth of
    the operand stack of the current call when it returns nil (pushes minus
    pops), for the functions that leave the call stack alone.  [opCall],
    [opStaticCall], [opDelegateCall], [opReturn] and [opStop] push or pop a
    frame and are treated on their own. *)
Definition stack_effect (f : fn.t) : option Z :=
  match f with
  | fn.opCall | fn.opStaticCall | fn.opDelegateCall | fn.opReturn | fn.opStop => None
  | fn.opAdd | fn.opMul | fn.opSub | fn.opDiv | fn.opSdiv | fn.opMod | fn.opSmod
  | fn.opExp | fn.opSignExtend | fn.opLt | fn.opGt | fn.opSlt | fn.opSgt | fn.opEq
  | fn.opAnd | fn.opOr | fn.opXor | fn.opByte | fn.opSHL | fn.opSHR | fn.opSAR
  | fn.opSha3 | fn.opPop | fn.opJump | fn.opSuicide => Some (-1)
  | fn.opAddmod | fn.opMulmod | fn.opMstore | fn.opMstore8 | fn.opSstore
  | fn.opJumpi | fn.opRevert => Some (-2)
  | fn.opCallDataCopy | fn.opCodeCopy | fn.opReturnDataCopy => Some (-3)
  | fn.opExtCodeCopy => Some (-4)
  | fn.opIszero | fn.opNot | fn.opBalance | fn.opCallDataLoad | fn.opExtCodeSize
  | fn.opExtCodeHash | fn.opBlockhash | fn.opMload | fn.opSload | fn.opJumpdest
  | fn.opCreate | fn.opCreate2 | fn.opCallCode | fn.opAssert | fn.makeSwap _ => Some 0
  | fn.opAddress | fn.opOrigin | fn.opCaller | fn.opCallValue | fn.opCallDataSize
  | fn.opCodeSize | fn.opGasprice | fn.opReturnDataSize | fn.opCoinbase
  | fn.opTimestamp | fn.opNumber | fn.opDifficulty | fn.opGasLimit | fn.opChainID
  | fn.opSelfBalance | fn.opBaseFee | fn.opPc | fn.opMsize | fn.opGas
  | fn.makePush _ | fn.makeDup _ => Some 1
  | fn.makeLog size => Some (- (2 + Z.of_nat (Z.to_nat size)))
  end.

(** The rows whose recorded arity is not the one of their function: ADDMOD
    and MULMOD take three operands and CALLDATALOAD and EXTCODESIZE take
    one, where the table records two and none. *)
Definition arity_slip (code : Z) : bool :=
  (code =? vm.ADDMOD) || (code =? vm.MULMOD)
  || (code =? vm.CALLDATALOAD) || (code =? vm.EXTCODESIZE).

Section Answered.
Variable PrecompiledContractsBerlin : Address -> option (list byte -> error + list byte).

(** Whether the CALL or STATICCALL that is about to run on the operand stack
    [st] is answered without a new frame: a CALL with [inSize == 0] (a bare
    value transfer), or a target on the precompile list. *)
Definition answered_inline (code : Z) (st : Stack.t Z) : bool :=
  if code =? vm.CALL then
    match Stack.PeekI 1 st, Stack.PeekI 4 st with
    | Some addr, Some inSize =>
        uint256.IsZero inSize
        || bool_decide (is_Some (PrecompiledContractsBerlin (uint256.Bytes20 addr)))
    | _, _ => false
    end
  else if code =? vm.STATICCALL then
    match Stack.PeekI 1 st with
    | Some addr => bool_decide (is_Some (PrecompiledContractsBerlin (uint256.Bytes20 addr)))
    | None => false
    end
  else false.
End Answered.

(** The functions that return an error on every path: the stubs, REVERT and
    SELFDESTRUCT.  No run of theirs returns nil. *)
Definition always_fails (f : fn.t) : bool :=
  match f with
  | fn.opBalance | fn.opCreate | fn.opCreate2 | fn.opCallCode | fn.opRevert
  | fn.opAssert | fn.opSuicide => true
  | _ => false
  end.

(** The check of one row of the table against the body of its function. *)
Definition row_ok (op : Operation) : bool :=
  arity_slip (OpCode op) || always_fails (Exec op) ||
  match stack_effect (Exec op) with
  | Some d =>
      (d =? NStackOut op - NStackIn op)
      && negb (OpCode op =? vm.CALL) && negb (OpCode op =? vm.STATICCALL)
  | None =>
      match Exec op with
      | fn.opCall => (OpCode op =? vm.CALL) && (NStackOut op - NStackIn op =? -7)
      | fn.opStaticCall =>
          (OpCode op =? vm.STATICCALL) && (NStackOut op - NStackIn op =? -6)
      | fn.opDelegateCall =>
          (OpCode op =? vm.DELEGATECALL) && (NStackOut op - NStackIn op =? -6)
      | fn.opReturn => (OpCode op =? vm.RETURN) && (NStackOut op - NStackIn op =? -2)
      | fn.opStop => (OpCode op =? vm.STOP) && (NStackOut op - NStackIn op =? 0)
      | _ => false
      end
  end.

(** ** hooks/breakpoint.go *)

Module hooks.
Section hooks.
Context {HS : Type}.

(** [call.CodeAddress()] through the pointer a callback is handed. *)
Definition CodeAddress_of (call : Context.t * nat) : option Address :=
  Call.CodeAddress <$> Context.calls call.1 !! call.2.

(** [bp.Contract != nil && *bp.Contract != call.CodeAddress()] *)
Definition other_contract (Contract : option Address) (call : Context.t * nat) : bool :=
  match Contract, CodeAddress_of call with
  | Some a, Some b => negb (a =? b)
  | _, _ => false
  end.

(** break at Pc of target contract; [PostRun] is the one of [EmptyHook] *)
Definition BpPc (Contract : option Address) (Pc : Z)
    : Hooks.hook (Context.t * nat) Line HS :=
  {| Hooks.PreRun := fun call line s =>
       if other_contract Contract call then (s, None)
       else if negb (Line.Pc line =? Pc) then (s, None)
       else (s, Some (errors_Wrap ErrBreakpoint "@ Pc"));
     Hooks.PostRun := Hooks.PostRun Hooks.EmptyHook |}.

(** break at Op code of target contract *)
Definition BpOpCode (Contract : option Address) (OpCode_ : Z)
    : Hooks.hook (Context.t * nat) Line HS :=
  {| Hooks.PreRun := fun call line s =>
       if other_contract Contract call then (s, None)
       else if negb (OpCode (Line.Op line) =? OpCode_) then (s, None)
       else (s, Some (errors_Wrap ErrBreakpoint "@ OpCode"));
     Hooks.PostRun := Hooks.PostRun Hooks.EmptyHook |}.

End hooks.
End hooks.

(** ** Observations on a disassembly *)

(** The pc just behind a line: [pc + 1 + op.OpSize]. *)
Definition line_end (l : Line) : Z := Line.Pc l + 1 + OpSize (Line.Op l).

(** The pc at which row [i] of a listing has to start: 0 for the first row,
    the end of the row before for the others. *)
Definition row_start (rows : list Line) (i : nat) : Z :=
  match i with
  | O => 0
  | S j => from_option line_end 0 (rows !! j)
  end.

(** Row [i] of the listing [a] of [code] holds the line [l]. *)
Definition listed_at (code : list byte) (a : Asm.t) (i : nat) (l : Line) : Prop :=
  Line.LineNum l = Z.of_nat i /\
  Line.Pc l = row_start (Asm.sequence a) i /\
  Asm.LineAtPc (Line.Pc l) a = inr l /\
  (exists b, code !! Z.to_nat (Line.Pc l) = Some b /\
             OpTable (byte_to_Z b) = Some (Line.Op l)) /\
  Line.Data l = take (Z.to_nat (OpSize (Line.Op l)))
                     (drop (Z.to_nat (Line.Pc l + 1)) code) /\
  Z.of_nat (length (Line.Data l)) = OpSize (Line.Op l) /\
  0 <= Line.Pc l /\ line_end l <= Z.of_nat (length code).

(** ** The call stack as the interpreter expects it *)

(** [ctx.Call()] dereferences the top of [ctx.CallStack] without a check: the
    stack must not be empty, and its pointers must be distinct live [Call]
    objects. *)
Definition CallStack_ok (c : Context.t) : Prop :=
  Context.CallStack c <> [] /\
  NoDup (Context.CallStack c) /\
  forall p : nat, p ∈ Context.CallStack c -> is_Some (Context.calls c !! p).

(** Whatever [m] returns, it leaves the call stack in that shape. *)
Definition keeps {A} (m : M A) : Prop :=
  forall c a c', CallStack_ok c -> m c = Ok a c' -> CallStack_ok c'.

(** Whatever [m] returns, no call object has lost its place or changed its
    program counter. *)
Definition pcs_still {A} (m : M A) : Prop :=
  forall c a c', m c = Ok a c' ->
  forall (q : nat) k, Context.calls c !! q = Some k ->
    exists k', Context.calls c' !! q = Some k' /\ Call.Pc k' = Call.Pc k.

(** ** Sample inputs *)

Module Samples.

(** PUSH1 3; PUSH1 4; ADD; STOP *)
Definition push_add_stop : list byte := [x60; x03; x60; x04; x01; x00].

(** A hook that records its number in the shared hook state and fails. *)
Definition failing (n : nat) : Hooks.hook unit unit (list nat) :=
  {| Hooks.PreRun := fun _ _ log => (log ++ [n], Some (ErrRemote (Z.of_nat n)));
     Hooks.PostRun := fun _ _ log => (log ++ [n], Some (ErrRemote (Z.of_nat n))) |}.
(** A hook that records its number and returns nil. *)
Definition quiet (n : nat) : Hooks.hook unit unit (list nat) :=
  {| Hooks.PreRun := fun _ _ log => (log ++ [n], None);
     Hooks.PostRun := fun _ _ log => (log ++ [n], None) |}.
Definition chain : Hooks.t unit unit (list nat) :=
  [failing 1; failing 2; quiet 3].

(** Stand-ins for the two imported tables: no Keccak, and of the precompiles
    only the identity function at address 4. *)
Definition Sha3 (bs : list byte) : list byte := replicate 32 x00.
Definition precompiles (a : Address) : option (list byte -> error + list byte) :=
  if a =? 4 then Some (fun input => inr input) else None.

(** The address the sample code is deployed at. *)
Definition this : Address := 0xc0de.

(** A contract holding [code], disassembled as it stands. *)
Definition contract_of (code : list byte) : Contract.t :=
  {| Contract.Code_ :=
       {| Code.Binary := code;
          Code.Asm_ := match Asm.Disasm_loop (length code) code 0 Asm.Reset with
                       | Asm.Returned _ a _ => Some a
                       | _ => None
                       end |};
     Contract.Balance := None;
     Contract.Storage := ∅ |}.

(** The outer call of a replay, about to run at [pc] on the stack [st]. *)
Definition call_of (st : list Z) (pc : Z) : Call.t :=
  {| Call.Msg_ := {| Msg.Data := []; Msg.Gas := 0; Msg.Sender := 0xca11e4; Msg.Value := 0 |};
     Call.This := this; Call.CodePtr := None; Call.Memory_ := [];
     Call.Stack_ := st; Call.Pc := pc;
     Call.OuterReturnOffset := 0; Call.OuterReturnSize := 0;
     Call.InnerReturnVal := [] |}.

(** An offline context in block [number] with one call and one contract. *)
Definition context_of (code : list byte) (st : list Z) (pc number : Z) : Context.t :=
  {| Context.IsDone := false;
     Context.ethClient := None;
     Context.Chain_ := {| Chain.Id := 1; Chain.NodeUrl := EmptyString |};
     Context.Tx_ := {| Tx.Hash_ := 0; Tx.Origin := 0xca11e4; Tx.GasPrice := 0 |};
     Context.Block_ := {| Block.Number := number; Block.Timestamp := 0;
                          Block.Difficulty := 0; Block.Coinbase := 0;
                          Block.GasLimit := 0; Block.BaseFee := 0 |};
     Context.Contracts := {[ this := contract_of code ]};
     Context.calls := [call_of st pc];
     Context.CallStack := [0%nat];
     Context.BlockHashes := ∅ |}.

(** The same program followed by an empty metadata block (length 0), which
    [Disasm] strips. *)
Definition push_add_stop_meta : list byte := push_add_stop ++ [x00; x00].

(** The line of the disassembly at pc 0: PUSH1 3. *)
Definition line0 : Line :=
  {| Line.Pc := 0; Line.LineNum := 0;
     Line.Op := make_op (vm.PUSH 1) 1 0 1 (fn.makePush 1); Line.Data := [x03] |}.

(** The line at pc 2: PUSH1 4. *)
Definition line2 : Line :=
  {| Line.Pc := 2; Line.LineNum := 1;
     Line.Op := make_op (vm.PUSH 1) 1 0 1 (fn.makePush 1); Line.Data := [x04] |}.

(** The line at pc 4: ADD. *)
Definition line4 : Line :=
  {| Line.Pc := 4; Line.LineNum := 2;
     Line.Op := make_op vm.ADD 0 2 1 fn.opAdd; Line.Data := [] |}.

(** A contract whose code was loaded with [Code.Set]. *)
Definition loaded (bin : list byte) : Contract.t :=
  match Code.Set_ bin (Contract.Code_ NewContract) with
  | Some (None, code) => Contract.set_Code code NewContract
  | _ => NewContract
  end.
Definition context_loaded (bin : list byte) (st : list Z) (pc number : Z) : Context.t :=
  Context.set_Contracts {[ this := loaded bin ]} (context_of bin st pc number).

(** An archive node: every slot holds 42, the sample program (with an empty
    metadata block) is deployed at [this], no other address has code. *)
Definition node : EthClient :=
  {| BlockByNumber := fun n => inr n;
     StorageAt := fun _ _ _ => inr [x2a];
     CodeAt := fun a _ => inr (if a =? this then push_add_stop_meta else []);
     BalanceAt := fun _ _ => inr 1 |}.

(** A context connected to [node], with nothing fetched yet. *)
Definition context_online (number : Z) : Context.t :=
  {| Context.IsDone := false;
     Context.ethClient := Some node;
     Context.Chain_ := {| Chain.Id := 1; Chain.NodeUrl := EmptyString |};
     Context.Tx_ := {| Tx.Hash_ := 0; Tx.Origin := 0xca11e4; Tx.GasPrice := 0 |};
     Context.Block_ := {| Block.Number := number; Block.Timestamp := 0;
                          Block.Difficulty := 0; Block.Coinbase := 0;
                          Block.GasLimit := 0; Block.BaseFee := 0 |};
     Context.Contracts := ∅;
     Context.calls := [call_of [] 0];
     Context.CallStack := [0%nat];
     Context.BlockHashes := ∅ |}.

(** An inner call about to RETURN its two bytes of memory to a caller that
    asked for two bytes at offset 1. *)
Definition callee : Call.t :=
  {| Call.Msg_ := {| Msg.Data := []; Msg.Gas := 0; Msg.Sender := this; Msg.Value := 0 |};
     Call.This := this; Call.CodePtr := None; Call.Memory_ := [xaa; xbb];
     Call.Stack_ := [2; 0]; Call.Pc := 0;
     Call.OuterReturnOffset := 1; Call.OuterReturnSize := 2;
     Call.InnerReturnVal := [] |}.
Definition returning : Context.t :=
  Context.set_CallStack [0%nat; 1%nat]
    (Context.set_calls [call_of [7] 0; callee] (context_of push_add_stop [] 0 100)).

(** A breakpoint at pc 0, in any contract. *)
Definition bp0 : Hooks.t (Context.t * nat) Line unit := [hooks.BpPc None 0].
(** A breakpoint at pc 2. *)
Definition bp2 : Hooks.t (Context.t * nat) Line unit := [hooks.BpPc None 2].

(** CALL with one byte of input to the identity precompile, and to the
    sample contract itself: gas, addr, value, inOffset, inSize, retOffset,
    retSize from the top down. *)
Definition precompile_stack : list Z := [0; 0; 1; 0; 0; 4; 0].
Definition descend_stack : list Z := [0; 0; 1; 0; 0; this; 0].

(** CALL as a bare value transfer: gas 0, to 0xbeef, value 5, no input. *)
Definition transfer_stack : list Z := [0; 0; 0; 0; 5; 0xbeef; 0].

End Samples.

(* ===================================================================== *)
(** * Part II: properties                                                  *)
(* ===================================================================== *)

(** ** Memory *)

Lemma Memory_Len_app (m1 m2 : Memory.t) :
  Memory.Len (m1 ++ m2) = Memory.Len m1 + Memory.Len m2.
Proof. unfold Memory.Len. rewrite length_app. lia. Qed.

Lemma Resize_Len (size : Z) (m : Memory.t) :
  Memory.Len (Memory.Resize size m) = Z.max (Memory.Len m) size.
Proof.
  unfold Memory.Resize. destruct (Z.ltb_spec (Memory.Len m) size) as [Hlt|Hge].
  - rewrite Memory_Len_app. unfold Memory.Len at 2. rewrite length_replicate. lia.
  - lia.
Qed.

Lemma copy_into_Len (m m' : Memory.t) (lo hi : Z) (value : list byte) :
  Memory.copy_into m lo hi value = Some m' -> Memory.Len m' = Memory.Len m.
Proof.
  unfold Memory.copy_into, Memory.Len.
  destruct (_ && _) eqn:Hb; [|discriminate]. intros [= <-].
  apply andb_prop in Hb as [Hb Hhi]. apply andb_prop in Hb as [Hlo Hle].
  apply Z.leb_le in Hlo, Hle, Hhi.
  rewrite !length_app, length_take, length_take, length_drop. lia.
Qed.

(** C9.  [Memory.Set] with [size == 0] is a no-op whatever the offset and the
    value are: it does not panic, and the memory it leaves is the memory it
    was given (same length, same bytes). *)
Theorem Set_size_zero_is_noop (offset : Z) (value : list byte) (m : Memory.t) :
  Memory.Set_ offset 0 value m = Some m.
Proof. reflexivity. Qed.

(** C7, as the code has it.  The store grows to exactly the end of the
    window that is written -- [offset + size] for [Set] with [size > 0],
    [offset + 32] for [Set32], the requested size for [Resize] -- and never
    shrinks; nothing rounds the new length up to a multiple of 32. *)
Theorem Memory_grows_to_exact_end :
  (forall size m, Memory.Len (Memory.Resize size m) = Z.max (Memory.Len m) size) /\
  (forall offset size value m m',
      0 < size -> Memory.Set_ offset size value m = Some m' ->
      Memory.Len m' = Z.max (Memory.Len m) (u64 (offset + size))) /\
  (forall offset val m m',
      Memory.Set32 offset val m = Some m' ->
      Memory.Len m' = Z.max (Memory.Len m) (u64 (offset + 32))).
Proof.
  split; [exact Resize_Len|split].
  - intros offset size value m m' Hsize. unfold Memory.Set_.
    destruct (Z.ltb_spec 0 size); [|lia]. intros Hc.
    apply copy_into_Len in Hc. rewrite Hc.
    destruct (Z.ltb_spec (Memory.Len m) (u64 (offset + size))).
    + rewrite Resize_Len. lia.
    + lia.
  - intros offset val m m'. unfold Memory.Set32.
    destruct (Memory.copy_into _ _ _ (replicate _ _)) as [m2|] eqn:H1; [|discriminate].
    intros H2. apply copy_into_Len in H1, H2. rewrite H2, H1.
    destruct (Z.ltb_spec (Memory.Len m) (u64 (offset + 32))).
    + rewrite Resize_Len. lia.
    + lia.
Qed.

(** MSTORE8 at offset 0 of an empty memory leaves a memory of one byte. *)
Lemma Memory_grows_to_exact_end_witness :
  Memory.Len (Memory.Resize 5 []) = Z.max (Memory.Len []) 5 /\
  Memory.Len [xff] = Z.max (Memory.Len []) (u64 (0 + 1)) /\
  Memory.Len (replicate 32 x00) = Z.max (Memory.Len []) (u64 (0 + 32)).
Proof.
  destruct Memory_grows_to_exact_end as (HR & HS & HS32).
  split; [apply HR|split].
  - apply (HS 0 1 [xff] [] [xff]); [lia|reflexivity].
  - apply (HS32 0 0 [] (replicate 32 x00)). reflexivity.
Defined.

(** C7 as stated fails: a one-byte [Set] on the empty memory extends the
    store to length 1, which is not a multiple of 32. *)
Lemma Memory_growth_not_aligned :
  Memory.Set_ 0 1 [xff] [] = Some [xff] /\ Memory.Len [xff] mod 32 <> 0.
Proof. split; [reflexivity|discriminate]. Qed.

(** ** The hook chain *)

Section HooksFacts.
Context {call line HS : Type}.
Implicit Types (hks : Hooks.t call line HS) (h : Hooks.hook call line HS).
Implicit Types (cb : Hooks.hook call line HS -> call -> line -> HS -> HS * option error).

Lemma call_each_length cb hks c l s :
  length (Hooks.call_each cb hks c l s) = length hks.
Proof. revert s. induction hks as [|h hks IH]; intros s; simpl; [|rewrite IH]; done. Qed.

Lemma last_state_cons (s : HS) (r : HS * option error) rs :
  Hooks.last_state s (r :: rs) = Hooks.last_state r.1 rs.
Proof. unfold Hooks.last_state. rewrite last_cons. by destruct (last rs). Qed.

Lemma call_each_app cb hks1 hks2 c l s :
  Hooks.call_each cb (hks1 ++ hks2) c l s =
  Hooks.call_each cb hks1 c l s ++
  Hooks.call_each cb hks2 c l (Hooks.last_state s (Hooks.call_each cb hks1 c l s)).
Proof.
  revert s. induction hks1 as [|h hks1 IH]; intros s; [done|].
  simpl. rewrite IH. by rewrite last_state_cons.
Qed.

(** The [i]-th call is the [i]-th hook's, on the state left by the calls of
    the hooks attached before it. *)
Lemma call_each_lookup cb hks c l s (i : nat) h :
  hks !! i = Some h ->
  Hooks.call_each cb hks c l s !! i =
  Some (cb h c l (Hooks.last_state s (Hooks.call_each cb (take i hks) c l s))).
Proof.
  intros Hi. rewrite <- (take_drop i hks) at 1. rewrite call_each_app.
  rewrite lookup_app_r; rewrite call_each_length, length_take_le;
    try (apply lookup_lt_Some in Hi; lia).
  rewrite Nat.sub_diag. rewrite (drop_S _ _ _ Hi). done.
Qed.

Lemma range_arr_spec cb hks c l err s :
  Hooks.range_arr cb hks c l err s =
  (Hooks.last_state s (Hooks.call_each cb hks c l s),
   match Hooks.last_error (Hooks.call_each cb hks c l s) with
   | Some e => Some e
   | None => err
   end).
Proof.
  revert err s. induction hks as [|h hks IH]; intros err s; [done|].
  simpl. destruct (cb h c l s) as [s' e] eqn:E. rewrite IH.
  rewrite last_state_cons. simpl. f_equal.
  unfold Hooks.last_error. simpl. destruct e as [e|]; simpl; [|by destruct (last _)].
  rewrite last_cons. by destruct (last _).
Qed.

(** C3.  In both phases every attached hook has its callback called, once
    and in attach order, each on the state left by the hooks before it and
    whatever errors those returned; the phase returns the last non-nil error
    that a hook produced, and nil when none did. *)
Theorem hook_phase_calls_all_returns_last_error hks c l s :
  (length (Hooks.call_each Hooks.PreRun hks c l s) = length hks /\
   (forall (i : nat) h, hks !! i = Some h ->
      Hooks.call_each Hooks.PreRun hks c l s !! i =
      Some (Hooks.PreRun h c l
              (Hooks.last_state s (Hooks.call_each Hooks.PreRun (take i hks) c l s)))) /\
   Hooks.PreRunAll hks c l s =
   (Hooks.last_state s (Hooks.call_each Hooks.PreRun hks c l s),
    Hooks.last_error (Hooks.call_each Hooks.PreRun hks c l s))) /\
  (length (Hooks.call_each Hooks.PostRun hks c l s) = length hks /\
   (forall (i : nat) h, hks !! i = Some h ->
      Hooks.call_each Hooks.PostRun hks c l s !! i =
      Some (Hooks.PostRun h c l
              (Hooks.last_state s (Hooks.call_each Hooks.PostRun (take i hks) c l s)))) /\
   Hooks.PostRunAll hks c l s =
   (Hooks.last_state s (Hooks.call_each Hooks.PostRun hks c l s),
    Hooks.last_error (Hooks.call_each Hooks.PostRun hks c l s))).
Proof.
  unfold Hooks.PreRunAll, Hooks.PostRunAll. rewrite !range_arr_spec.
  repeat split; try apply call_each_length; try (intros; by apply call_each_lookup).
  - by destruct (Hooks.last_error _).
  - by destruct (Hooks.last_error _).
Qed.

(** An error of an earlier hook is overwritten by a later one, and lost
    when only the earlier hook fails ... it is still the last non-nil one. *)
Lemma range_arr_snoc cb hks h c l s :
  Hooks.range_arr cb (hks ++ [h]) c l None s =
  let '(s1, e1) := Hooks.range_arr cb hks c l None s in
  let '(s2, e2) := cb h c l s1 in
  (s2, match e2 with Some _ => e2 | None => e1 end).
Proof.
  assert (G : forall err s0, Hooks.range_arr cb (hks ++ [h]) c l err s0 =
    let '(s1, e1) := Hooks.range_arr cb hks c l err s0 in
    let '(s2, e2) := cb h c l s1 in
    (s2, match e2 with Some _ => e2 | None => e1 end)).
  { induction hks as [|h0 hks IH]; intros err s0; simpl.
    - by destruct (cb h c l s0) as [s2 [e2|]].
    - destruct (cb h0 c l s0) as [s' e]. apply IH. }
  apply G.
Qed.

(** C10.  [Detach i] with [i] out of range returns the chain as it is; with
    [i] in range the result is one hook shorter, the hooks before position
    [i] stay where they were and each later hook moves one position down, so
    exactly the [i]-th hook is gone and the others keep their order. *)
Theorem Detach_removes_exactly_the_ith hks (i : Z) :
  (i < 0 \/ Z.of_nat (length hks) <= i -> Hooks.Detach i hks = hks) /\
  (0 <= i < Z.of_nat (length hks) ->
     S (length (Hooks.Detach i hks)) = length hks /\
     (forall j : nat, (j < Z.to_nat i)%nat -> Hooks.Detach i hks !! j = hks !! j) /\
     (forall j : nat, (Z.to_nat i <= j)%nat -> Hooks.Detach i hks !! j = hks !! S j)).
Proof.
  unfold Hooks.Detach. split.
  - intros Hout.
    destruct (Z.leb_spec 0 i), (Z.ltb_spec i (Z.of_nat (length hks))); simpl; try done; lia.
  - intros [Hlo Hhi].
    destruct (Z.leb_spec 0 i), (Z.ltb_spec i (Z.of_nat (length hks))); simpl; try lia.
    repeat split.
    + rewrite length_app, length_take, length_drop. lia.
    + intros j Hj. rewrite lookup_app_l by (rewrite length_take; lia).
      by rewrite lookup_take_lt.
    + intros j Hj. rewrite lookup_app_r by (rewrite length_take; lia).
      rewrite length_take, lookup_drop. f_equal. lia.
Qed.

End HooksFacts.

(** Of the chain [failing 1; failing 2; quiet 3] all three hooks run, in
    that order, and the error returned is the one of the second hook. *)
Lemma hook_phase_calls_all_returns_last_error_witness :
  Hooks.call_each Hooks.PreRun Samples.chain tt tt [] !! 2%nat =
    Some ([1; 2; 3]%nat, None) /\
  Hooks.PreRunAll Samples.chain tt tt [] = ([1; 2; 3]%nat, Some (ErrRemote 2)) /\
  Hooks.PostRunAll Samples.chain tt tt [] = ([1; 2; 3]%nat, Some (ErrRemote 2)).
Proof.
  destruct (hook_phase_calls_all_returns_last_error Samples.chain tt tt [])
    as [(_ & Hi & Hpre) (_ & _ & Hpost)].
  split; [|split].
  - apply (Hi 2%nat (Samples.quiet 3)). reflexivity.
  - exact Hpre.
  - exact Hpost.
Defined.

(** Detaching position 1 of that chain leaves [failing 1; quiet 3]; position
    3 is out of range and leaves the chain alone. *)
Lemma Detach_removes_exactly_the_ith_witness :
  Hooks.Detach 3 Samples.chain = Samples.chain /\
  S (length (Hooks.Detach 1 Samples.chain)) = length Samples.chain /\
  Hooks.Detach 1 Samples.chain !! 0%nat = Samples.chain !! 0%nat /\
  Hooks.Detach 1 Samples.chain !! 1%nat = Samples.chain !! 2%nat.
Proof.
  destruct (Detach_removes_exactly_the_ith Samples.chain 3) as [Hout _].
  destruct (Detach_removes_exactly_the_ith Samples.chain 1) as [_ Hin].
  split; [apply Hout; right; simpl; lia|].
  destruct Hin as (Hlen & Hbefore & Hafter); [simpl; lia|].
  split; [exact Hlen|split].
  - apply Hbefore. simpl. lia.
  - apply Hafter. simpl. lia.
Defined.

(** ** The disassembler *)

(** C5 fails on the code: [Disasm] reads the last two bytes of any code
    longer than two bytes as the length of a metadata block and slices
    [code[0 : len(code)-meta_len-2]] without checking that the block fits.
    For PUSH1 3; PUSH1 4; ADD; STOP the last two bytes [01 00] give 256, the
    upper bound is [6 - 256 - 2 < 0], and the slice expression panics. *)
Theorem Disasm_panics_on_short_code :
  Asm.meta_len Samples.push_add_stop = 256 /\
  Asm.Disasm Samples.push_add_stop = Asm.Panicked.
Proof. split; reflexivity. Qed.

Lemma u64_small (z : Z) : 0 <= z < 2 ^ 64 -> u64 z = z.
Proof. intros H. unfold u64. by apply Z.mod_small. Qed.

Lemma OpTable_In (code : Z) (op : Operation) :
  OpTable code = Some op -> In op OpTable_rows /\ OpCode op = code.
Proof.
  unfold OpTable. intros H. apply find_some in H as [Hin Heq].
  split; [done|]. by apply Z.eqb_eq.
Qed.

Lemma OpTable_OpSize (code : Z) (op : Operation) :
  OpTable code = Some op -> 0 <= OpSize op <= 32.
Proof.
  intros H. apply OpTable_In in H as [Hin _].
  assert (Hall : List.Forall (fun op => 0 <= OpSize op <= 32) OpTable_rows).
  { vm_compute. repeat (constructor; [split; discriminate|]). constructor. }
  rewrite List.Forall_forall in Hall. by apply Hall.
Qed.

(** The loop itself never panics and never runs out of its [length code]
    rounds (code lengths are Go [int]s): the panic of [Disasm] is the one of
    the metadata slice. *)
Lemma Disasm_loop_returns (fuel : nat) (code : list byte) (pc : Z) (a : Asm.t) :
  Z.of_nat (length code) < 2 ^ 63 -> 0 <= pc ->
  Z.of_nat (length code) - pc <= Z.of_nat fuel ->
  exists a' w, Asm.Disasm_loop fuel code pc a = Asm.Returned None a' w.
Proof.
  intros Hlen. revert pc a. induction fuel as [|fuel IH]; intros pc a Hpc Hfuel.
  - simpl. rewrite u64_small by lia.
    destruct (Z.ltb_spec pc (Z.of_nat (length code))); [lia|eauto].
  - cbn [Asm.Disasm_loop]. rewrite u64_small by lia.
    destruct (Z.ltb_spec pc (Z.of_nat (length code))) as [Hlt|]; [|eauto].
    destruct (code !! Z.to_nat pc) as [opCode|] eqn:Hat.
    2:{ apply lookup_ge_None in Hat. lia. }
    destruct (OpTable (byte_to_Z opCode)) as [op|] eqn:Hop; [|eauto].
    pose proof (OpTable_OpSize _ _ Hop) as Hsize.
    rewrite u64_small by lia.
    destruct (Z.ltb_spec (Z.of_nat (length code)) (pc + 1 + OpSize op)); [eauto|].
    apply IH; lia.
Qed.

Lemma strip_metadata_length (code code' : list byte) :
  Asm.strip_metadata code = Some code' -> (length code' <= length code)%nat.
Proof.
  unfold Asm.strip_metadata. destruct (_ <? _); [|by intros [= <-]].
  destruct (_ <=? _); [|done]. intros [= <-]. rewrite length_take. lia.
Qed.

(** When the metadata block fits (or the code has at most two bytes),
    [Disasm] returns nil, with the lines scanned up to the first warning. *)
Lemma Disasm_returns_when_metadata_fits (code : list byte) :
  Z.of_nat (length code) < 2 ^ 63 ->
  (Z.of_nat (length code) <= 2 \/ Asm.meta_len code + 2 <= Z.of_nat (length code)) ->
  exists a w, Asm.Disasm code = Asm.Returned None a w.
Proof.
  intros Hlen Hfit. unfold Asm.Disasm.
  destruct (Asm.strip_metadata code) as [code'|] eqn:Hs.
  - apply strip_metadata_length in Hs. apply Disasm_loop_returns; lia.
  - unfold Asm.strip_metadata in Hs.
    destruct (Z.ltb_spec 2 (Z.of_nat (length code))); [|done].
    destruct (Z.leb_spec 0 (Z.of_nat (length code) - Asm.meta_len code - 2)); [done|lia].
Qed.

(** ** The operand stack *)

Section StackFacts.
Context {T : Type}.
Implicit Types (st : list T) (v d : T).

Lemma Stack_Len_snoc st v : Stack.Len (st ++ [v]) = Stack.Len st + 1.
Proof. unfold Stack.Len. rewrite length_app. simpl. lia. Qed.

Lemma Stack_at_top st v : Stack.at_ (st ++ [v]) (Stack.Len st) = Some v.
Proof.
  unfold Stack.at_. rewrite Stack_Len_snoc.
  destruct (Z.leb_spec 0 (Stack.Len st)), (Z.ltb_spec (Stack.Len st) (Stack.Len st + 1));
    simpl; try (unfold Stack.Len in *; lia).
  unfold Stack.Len. rewrite Nat2Z.id. by rewrite lookup_app_r, Nat.sub_diag.
Qed.

Lemma Stack_Pop_snoc st v : Stack.Pop (st ++ [v]) = Some (v, st).
Proof.
  unfold Stack.Pop. rewrite Stack_Len_snoc.
  replace (Stack.Len st + 1 - 1) with (Stack.Len st) by lia.
  rewrite Stack_at_top. unfold Stack.Len. rewrite Nat2Z.id.
  by rewrite take_app_length.
Qed.

Lemma Stack_Peek_snoc st v : Stack.Peek (st ++ [v]) = Some v.
Proof.
  unfold Stack.Peek, Stack.PeekI. rewrite Stack_Len_snoc.
  replace (Stack.Len st + 1 - 1 - 0) with (Stack.Len st) by lia.
  apply Stack_at_top.
Qed.

Lemma Stack_Poke_snoc st v d : Stack.Poke d (st ++ [v]) = Some (st ++ [d]).
Proof.
  unfold Stack.Poke, Stack.PokeI. fold (Stack.Peek (st ++ [v])).
  rewrite Stack_Peek_snoc, Stack_Len_snoc.
  replace (Stack.Len st + 1 - 1 - 0) with (Stack.Len st) by lia.
  unfold Stack.Len. rewrite Nat2Z.id.
  by rewrite insert_app_r_alt, Nat.sub_diag.
Qed.

(** A stack on which [Pop] does not panic has a top. *)
Lemma Stack_at_Some st (i : Z) v : Stack.at_ st i = Some v -> 0 <= i < Stack.Len st.
Proof.
  unfold Stack.at_. destruct (Z.leb_spec 0 i), (Z.ltb_spec i (Stack.Len st)); simpl; done || lia.
Qed.

Lemma Stack_Pop_Len st v st' :
  Stack.Pop st = Some (v, st') -> Stack.Len st' = Stack.Len st - 1.
Proof.
  unfold Stack.Pop. destruct (Stack.at_ _ _) eqn:E; [|done]. intros [= _ <-].
  apply Stack_at_Some in E. unfold Stack.Len in *. rewrite length_take. lia.
Qed.

Lemma Stack_Poke_Len st d st' : Stack.Poke d st = Some st' -> Stack.Len st' = Stack.Len st.
Proof.
  unfold Stack.Poke, Stack.PokeI. destruct (Stack.PeekI _ _); [|done]. intros [= <-].
  unfold Stack.Len. by rewrite length_insert.
Qed.

Lemma Stack_Dup_Len st (n : Z) st' : Stack.Dup n st = Some st' -> Stack.Len st' = Stack.Len st + 1.
Proof.
  unfold Stack.Dup. destruct (Stack.at_ _ _); [|done]. intros [= <-].
  apply Stack_Len_snoc.
Qed.

Lemma Stack_Swap_Len st (n : Z) st' : Stack.Swap n st = Some st' -> Stack.Len st' = Stack.Len st.
Proof.
  unfold Stack.Swap. destruct (Stack.at_ _ _); [|done]. destruct (Stack.at_ _ _); [|done].
  intros [= <-]. unfold Stack.Len. by rewrite !length_insert.
Qed.

Lemma Stack_Pop_inv st v st' : Stack.Pop st = Some (v, st') -> st = st' ++ [v].
Proof.
  unfold Stack.Pop. destruct (Stack.at_ _ _) as [r|] eqn:E; [|done]. intros [= -> <-].
  pose proof (Stack_at_Some _ _ _ E) as Hi. unfold Stack.at_ in E.
  destruct (_ && _); [|done]. unfold Stack.Len in *.
  rewrite <- (take_drop (Z.to_nat (Z.of_nat (length st) - 1)) st) at 1. f_equal.
  rewrite (drop_S _ _ _ E). rewrite drop_ge; [done|lia].
Qed.

Lemma Stack_PeekI_app st (l : list T) (n : nat) :
  (n < length l)%nat ->
  Stack.PeekI (Z.of_nat n) (st ++ l) = l !! (length l - 1 - n)%nat.
Proof.
  intros Hn. unfold Stack.PeekI, Stack.at_, Stack.Len. rewrite length_app.
  destruct (Z.leb_spec 0 (Z.of_nat (length st + length l) - 1 - Z.of_nat n)); [|lia].
  destruct (Z.ltb_spec (Z.of_nat (length st + length l) - 1 - Z.of_nat n)
              (Z.of_nat (length st + length l))); [|lia].
  simpl. rewrite lookup_app_r by lia. f_equal. lia.
Qed.

End StackFacts.

(** ** Running the accessors *)

Ltac munfold :=
  unfold must, panic, get, put, modify in *;
  unfold mbind, M_bind, mret, M_ret in *.

Lemma Call_ptr_run c p : Stack.Peek (Context.CallStack c) = Some p -> Call_ptr c = Ok p c.
Proof. intros H. unfold Call_ptr. munfold. by rewrite H. Qed.

Lemma ctx_Call_run c p k : at_frame c p k -> ctx_Call c = Ok k c.
Proof.
  intros [Hp Hk]. unfold ctx_Call. munfold. rewrite (Call_ptr_run _ _ Hp). by rewrite Hk.
Qed.

Lemma update_Call_run f c p k :
  at_frame c p k -> update_Call f c = Ok tt (with_Call p (f k) c).
Proof.
  intros Hf. unfold update_Call. munfold. destruct Hf as [Hp Hk].
  rewrite (Call_ptr_run _ _ Hp). by rewrite (ctx_Call_run c p k).
Qed.

Lemma at_frame_with_Call c p k k' : at_frame c p k -> at_frame (with_Call p k' c) p k'.
Proof.
  intros [Hp Hk]. split; [done|]. simpl.
  apply list_lookup_insert_eq. by eapply lookup_lt_Some.
Qed.

Lemma with_Call_twice p k1 k2 c : with_Call p k2 (with_Call p k1 c) = with_Call p k2 c.
Proof. unfold with_Call, Context.set_calls. simpl. by rewrite list_insert_insert_eq. Qed.

Lemma cur_Call_at_frame c p k : at_frame c p k -> cur_Call c = Some k.
Proof. intros [Hp Hk]. unfold cur_Call. rewrite Hp. done. Qed.

Lemma ctx_Stack_run c p k : at_frame c p k -> ctx_Stack c = Ok (Call.Stack_ k) c.
Proof. intros H. unfold ctx_Stack. munfold. by rewrite (ctx_Call_run c p k). Qed.

Lemma stack_Pop_run c p k st v :
  at_frame c p k -> Call.Stack_ k = st ++ [v] ->
  stack_Pop c = Ok v (with_Call p (Call.set_Stack st k) c).
Proof.
  intros Hf Hst. unfold stack_Pop. munfold. rewrite (ctx_Stack_run c p k Hf), Hst.
  rewrite Stack_Pop_snoc. simpl. by rewrite (update_Call_run _ c p k Hf).
Qed.

Lemma stack_Peek_run c p k st v :
  at_frame c p k -> Call.Stack_ k = st ++ [v] -> stack_Peek c = Ok v c.
Proof.
  intros Hf Hst. unfold stack_Peek. munfold. rewrite (ctx_Stack_run c p k Hf), Hst.
  by rewrite Stack_Peek_snoc.
Qed.

Lemma stack_Poke_run c p k st v d :
  at_frame c p k -> Call.Stack_ k = st ++ [v] ->
  stack_Poke d c = Ok tt (with_Call p (Call.set_Stack (st ++ [d]) k) c).
Proof.
  intros Hf Hst. unfold stack_Poke. munfold. rewrite (ctx_Stack_run c p k Hf), Hst.
  rewrite Stack_Poke_snoc. simpl. by rewrite (update_Call_run _ c p k Hf).
Qed.

Lemma stack_Push_run c p k d :
  at_frame c p k ->
  stack_Push d c = Ok tt (with_Call p (Call.set_Stack (Call.Stack_ k ++ [d]) k) c).
Proof. intros Hf. unfold stack_Push. by rewrite (update_Call_run _ c p k Hf). Qed.

(** ** Depth bookkeeping *)

Lemma frame_rel_refl p c : frame_rel 0 p c c.
Proof. split; [done|split; [|done]]. intros k Hk. exists k. split; [done|lia]. Qed.

Lemma frame_rel_trans d1 d2 p c c1 c2 :
  frame_rel d1 p c c1 -> frame_rel d2 p c1 c2 -> frame_rel (d1 + d2) p c c2.
Proof.
  intros (Hs1 & Hd1 & Ho1) (Hs2 & Hd2 & Ho2). split; [congruence|split].
  - intros k Hk. destruct (Hd1 k Hk) as (k1 & Hk1 & Hl1).
    destruct (Hd2 k1 Hk1) as (k2 & Hk2 & Hl2). exists k2. split; [done|lia].
  - intros q Hq. rewrite Ho2, Ho1; done.
Qed.

Lemma frame_rel_eq d d' p c c' : d = d' -> frame_rel d' p c c' -> frame_rel d p c c'.
Proof. by intros ->. Qed.

(** A step that leaves the call objects and the call stack alone. *)
Lemma frame_rel_same_calls p c c' :
  Context.CallStack c' = Context.CallStack c -> Context.calls c' = Context.calls c ->
  frame_rel 0 p c c'.
Proof.
  intros Hs Hc. split; [done|]. rewrite Hc. split; [|done].
  intros k Hk. exists k. split; [done|lia].
Qed.

Lemma frame_rel_with_Call d p c k k' :
  Context.calls c !! p = Some k ->
  Stack.Len (Call.Stack_ k') = Stack.Len (Call.Stack_ k) + d ->
  frame_rel d p c (with_Call p k' c).
Proof.
  intros Hk Hlen. split; [done|split].
  - intros k0 Hk0. exists k'. simpl. split; [|congruence].
    apply list_lookup_insert_eq. by eapply lookup_lt_Some.
  - intros q Hq. simpl. by apply list_lookup_insert_ne.
Qed.

Lemma shifts_ret {A} (a : A) : shifts 0 (mret a).
Proof. intros c a' c' [= _ <-] p _. apply frame_rel_refl. Qed.

Lemma shifts_bind {A B} d1 d2 (m : M A) (k : A -> M B) :
  shifts d1 m -> (forall a, shifts d2 (k a)) -> shifts (d1 + d2) (m ≫= k).
Proof.
  intros Hm Hk c b c' Hrun p Hp. unfold mbind, M_bind in Hrun.
  destruct (m c) as [a c1|] eqn:E; [|done].
  pose proof (Hm _ _ _ E p Hp) as H1.
  eapply frame_rel_trans; [exact H1|].
  eapply Hk; [exact Hrun|]. destruct H1 as [-> _]. done.
Qed.

Lemma shifts_eq {A} d d' (m : M A) : d = d' -> shifts d' m -> shifts d m.
Proof. by intros ->. Qed.

Lemma oshifts_bind {A} d d1 (m : M A) (k : A -> executionFunc) :
  shifts d1 m -> (forall a, oshifts (d - d1) (k a)) -> oshifts d (m ≫= k).
Proof.
  intros Hm Hk c c' Hrun p Hp. unfold mbind, M_bind in Hrun.
  destruct (m c) as [a c1|] eqn:E; [|done].
  pose proof (Hm _ _ _ E p Hp) as H1.
  eapply frame_rel_eq; [|eapply frame_rel_trans; [exact H1|]].
  2:{ eapply Hk; [exact Hrun|]. destruct H1 as [-> _]. done. }
  lia.
Qed.

Lemma oshifts_ret_None d : d = 0 -> oshifts d (mret None).
Proof. intros -> c c' [= <-] p _. apply frame_rel_refl. Qed.

Lemma oshifts_ret_Some d e : oshifts d (mret (Some e)).
Proof. intros c c' H. discriminate H. Qed.

Lemma oshifts_of_shifts d (m : executionFunc) : shifts d m -> oshifts d m.
Proof. intros H c c' Hrun. by eapply H. Qed.

Lemma shifts_panic {A} d : shifts d (@panic A).
Proof. intros c a c' H. discriminate H. Qed.

Lemma shifts_must {A} (o : option A) : shifts 0 (must o).
Proof. destruct o; [apply shifts_ret|apply shifts_panic]. Qed.

Lemma shifts_get : shifts 0 get.
Proof. intros c a c' [= _ <-] p _. apply frame_rel_refl. Qed.

(** [modify f] for an [f] that writes neither call objects nor call stack. *)
Lemma shifts_modify f :
  (forall c, Context.CallStack (f c) = Context.CallStack c /\
             Context.calls (f c) = Context.calls c) ->
  shifts 0 (modify f).
Proof.
  intros Hf c a c' [= _ <-] p _. destruct (Hf c). by apply frame_rel_same_calls.
Qed.

Lemma shifts_Call_ptr : shifts 0 Call_ptr.
Proof.
  unfold Call_ptr. apply (shifts_bind 0 0); [apply shifts_get|]. intros; apply shifts_must.
Qed.

Lemma shifts_ctx_Call : shifts 0 ctx_Call.
Proof.
  unfold ctx_Call. apply (shifts_bind 0 0); [apply shifts_Call_ptr|]. intros.
  apply (shifts_bind 0 0); [apply shifts_get|]. intros; apply shifts_must.
Qed.

(** Inverting a successful read of the current call. *)
Lemma ctx_Call_inv c k c' p :
  ctx_Call c = Ok k c' -> Stack.Peek (Context.CallStack c) = Some p ->
  c' = c /\ at_frame c p k.
Proof.
  intros H Hp. unfold ctx_Call in H. munfold. rewrite (Call_ptr_run _ _ Hp) in H.
  destruct (Context.calls c !! p) eqn:E; [|done]. by injection H as -> ->.
Qed.

Lemma shifts_update_Call d f :
  (forall k, Stack.Len (Call.Stack_ (f k)) = Stack.Len (Call.Stack_ k) + d) ->
  shifts d (update_Call f).
Proof.
  intros Hf c a c' H p Hp. unfold update_Call in H. munfold.
  rewrite (Call_ptr_run _ _ Hp) in H.
  destruct (ctx_Call c) as [k c1|] eqn:E; [|done].
  apply (ctx_Call_inv _ _ _ p) in E as [-> [_ Hk]]; [|done].
  injection H as H. subst c'. by apply (frame_rel_with_Call d p c k (f k)).
Qed.

(** Writing a stack that depends on the one just read. *)
Lemma shifts_stack_step {A} d (f : list Z -> option (A * list Z)) :
  (forall st a st', f st = Some (a, st') -> Stack.Len st' = Stack.Len st + d) ->
  shifts d (st ← ctx_Stack; '(a, st') ← must (f st);
            update_Call (Call.set_Stack st');; mret a).
Proof.
  intros Hf c a c' H p Hp. unfold ctx_Stack in H. munfold.
  destruct (ctx_Call c) as [k c1|] eqn:E; [|done].
  apply (ctx_Call_inv _ _ _ p) in E as [-> Hk]; [|done].
  destruct (f (Call.Stack_ k)) as [[a0 st']|] eqn:Ef; [|done].
  simpl in H. rewrite (update_Call_run _ c p k Hk) in H. injection H as Ha Hc.
  subst a c'.
  apply (frame_rel_with_Call d p c k); [apply Hk|]. simpl. by eapply Hf.
Qed.

Lemma shifts_bind' {A B} d d1 d2 (m : M A) (k : A -> M B) :
  shifts d1 m -> (forall a, shifts d2 (k a)) -> d = d1 + d2 -> shifts d (m ≫= k).
Proof. intros Hm Hk ->. by apply shifts_bind. Qed.

Lemma shifts_stack_write d (f : list Z -> option (list Z)) :
  (forall st st', f st = Some st' -> Stack.Len st' = Stack.Len st + d) ->
  shifts d (st ← ctx_Stack; st' ← must (f st); update_Call (Call.set_Stack st')).
Proof.
  intros Hf c a c' H p Hp. unfold ctx_Stack in H. munfold.
  destruct (ctx_Call c) as [k c1|] eqn:E; [|done].
  apply (ctx_Call_inv _ _ _ p) in E as [-> Hk]; [|done].
  destruct (f (Call.Stack_ k)) as [st'|] eqn:Ef; [|done].
  simpl in H. rewrite (update_Call_run _ c p k Hk) in H. injection H as Ha Hc.
  subst c'.
  apply (frame_rel_with_Call d p c k); [apply Hk|]. simpl. by eapply Hf.
Qed.

Lemma shifts_update_Call_0 f :
  (forall k, Call.Stack_ (f k) = Call.Stack_ k) -> shifts 0 (update_Call f).
Proof. intros Hf. apply shifts_update_Call. intros k. rewrite Hf. lia. Qed.

Lemma shifts_stack_Pop : shifts (-1) stack_Pop.
Proof.
  apply (shifts_stack_step (-1) Stack.Pop). intros st a st' H.
  apply Stack_Pop_Len in H. lia.
Qed.

Lemma shifts_stack_Push d : shifts 1 (stack_Push d).
Proof. apply shifts_update_Call. intros k. simpl. apply Stack_Len_snoc. Qed.

Lemma shifts_stack_Poke d : shifts 0 (stack_Poke d).
Proof.
  apply (shifts_stack_write 0 (Stack.Poke d)). intros st st' H.
  apply Stack_Poke_Len in H. lia.
Qed.

Lemma shifts_stack_Dup n : shifts 1 (stack_Dup n).
Proof. apply (shifts_stack_write 1 (Stack.Dup n)). intros st st'. apply Stack_Dup_Len. Qed.

Lemma shifts_stack_Swap n : shifts 0 (stack_Swap n).
Proof.
  apply (shifts_stack_write 0 (Stack.Swap n)). intros st st' H.
  apply Stack_Swap_Len in H. lia.
Qed.

Lemma shifts_store_contract addr k : shifts 0 (store_contract addr k).
Proof. apply shifts_modify. done. Qed.

Create HintDb shifts discriminated.
#[local] Hint Resolve shifts_get shifts_must shifts_Call_ptr shifts_ctx_Call
  shifts_stack_Pop shifts_stack_Push shifts_stack_Poke shifts_stack_Dup
  shifts_stack_Swap shifts_store_contract : shifts.

(** One step of the depth calculation along the binds of a function body. *)
Ltac shift_step :=
  lazymatch goal with
  | |- forall _, _ => intros
  | |- _ = _ => first [reflexivity | lia]
  | |- shifts _ (mbind _ _) => eapply shifts_bind'
  | |- oshifts _ (mbind _ _) => eapply oshifts_bind
  | |- oshifts _ (mret None) => apply oshifts_ret_None
  | |- oshifts _ (mret (Some _)) => apply oshifts_ret_Some
  | |- shifts _ (mret _) => apply shifts_ret
  | |- shifts _ (update_Call _) => apply shifts_update_Call_0
  | |- shifts _ (modify _) => apply shifts_modify; intros; split; reflexivity
  | |- shifts _ (match ?x with _ => _ end) => destruct x
  | |- oshifts _ (match ?x with _ => _ end) => destruct x
  | |- shifts _ _ => solve [eauto with shifts]
  end.
Ltac shift := repeat shift_step.

Lemma shifts_ctx_This : shifts 0 ctx_This.
Proof. unfold ctx_This. shift. Qed.
Lemma shifts_ctx_Msg : shifts 0 ctx_Msg.
Proof. unfold ctx_Msg. shift. Qed.
Lemma shifts_ctx_Stack : shifts 0 ctx_Stack.
Proof. unfold ctx_Stack. shift. Qed.
Lemma shifts_ctx_Memory : shifts 0 ctx_Memory.
Proof. unfold ctx_Memory. shift. Qed.
Lemma shifts_ctx_Pc : shifts 0 ctx_Pc.
Proof. unfold ctx_Pc. shift. Qed.
Lemma shifts_contract_at addr : shifts 0 (contract_at addr).
Proof. unfold contract_at. shift. Qed.
#[local] Hint Resolve shifts_ctx_This shifts_ctx_Msg shifts_ctx_Stack
  shifts_ctx_Memory shifts_ctx_Pc shifts_contract_at : shifts.

Lemma shifts_ctx_Code : shifts 0 ctx_Code.
Proof. unfold ctx_Code. shift. Qed.
Lemma shifts_ctx_Contract : shifts 0 ctx_Contract.
Proof. unfold ctx_Contract. shift. Qed.
Lemma shifts_stack_Peek : shifts 0 stack_Peek.
Proof. unfold stack_Peek. shift. Qed.
Lemma shifts_memory_GetPtr offset size : shifts 0 (memory_GetPtr offset size).
Proof. unfold memory_GetPtr. shift. Qed.
Lemma shifts_memory_Set offset size value : shifts 0 (memory_Set offset size value).
Proof. unfold memory_Set. shift. Qed.
Lemma shifts_memory_Set32 offset val : shifts 0 (memory_Set32 offset val).
Proof. unfold memory_Set32. shift. Qed.
Lemma shifts_ensure_contract_at addr : shifts 0 (ensure_contract_at addr).
Proof. unfold ensure_contract_at. shift. Qed.
#[local] Hint Resolve shifts_ctx_Code shifts_ctx_Contract shifts_stack_Peek
  shifts_memory_GetPtr shifts_memory_Set shifts_memory_Set32
  shifts_ensure_contract_at : shifts.

Lemma shifts_ensure_balance address : shifts 0 (ensure_balance address).
Proof. unfold ensure_balance. shift. Qed.
Lemma shifts_ensure_code address : shifts 0 (ensure_code address).
Proof. unfold ensure_code. shift. Qed.
Lemma shifts_ensure_storage address slot : shifts 0 (ensure_storage address slot).
Proof. unfold ensure_storage. shift. Qed.
Lemma shifts_ensure_block_hash blockNum : shifts 0 (ensure_block_hash blockNum).
Proof. unfold ensure_block_hash. shift. Qed.
Lemma shifts_pop_times (n : nat) : shifts (- Z.of_nat n) (pop_times n).
Proof.
  induction n as [|n IH].
  - apply shifts_ret.
  - cbn [pop_times]. eapply shifts_bind'; [apply shifts_stack_Pop|intros; apply IH|lia].
Qed.
#[local] Hint Resolve shifts_ensure_balance shifts_ensure_code shifts_ensure_storage
  shifts_ensure_block_hash shifts_pop_times : shifts.

(** ** Stack arities *)

Ltac head_of t := lazymatch t with ?f _ => head_of f | _ => t end.

Section Arity.
Variable Sha3 : list byte -> list byte.
Variable PrecompiledContractsBerlin : Address -> option (list byte -> error + list byte).
#[local] Abbreviation Exec_of := (Exec_of Sha3 PrecompiledContractsBerlin).

(** Every function that leaves the call stack alone moves the depth of the
    current operand stack by its [stack_effect] when it returns nil. *)
Lemma oshifts_Exec_of (f : fn.t) (d : Z) :
  stack_effect f = Some d -> oshifts d (Exec_of f).
Proof.
  destruct f; simpl; intros [= <-];
    match goal with |- oshifts _ ?m => let h := head_of m in unfold h end;
    try unfold uint256.Uint64WithOverflow;
    try solve [shift].
Qed.

Lemma bind_inv {A B} (m : M A) (k : A -> M B) c b c' :
  (m ≫= k) c = Ok b c' -> exists a c1, m c = Ok a c1 /\ k a c1 = Ok b c'.
Proof. unfold mbind, M_bind. destruct (m c) as [a c1|]; [eauto|done]. Qed.

Lemma frame_rel_at_frame d p c c1 k :
  at_frame c p k -> frame_rel d p c c1 ->
  exists k1, at_frame c1 p k1 /\
             Stack.Len (Call.Stack_ k1) = Stack.Len (Call.Stack_ k) + d.
Proof.
  intros [Hp Hk] (Hs & Hd & _). destruct (Hd k Hk) as (k1 & Hk1 & Hl).
  exists k1. split; [|done]. split; [congruence|done].
Qed.

Lemma depth_at_frame c p k : at_frame c p k -> depth_at p c = Some (Stack.Len (Call.Stack_ k)).
Proof. intros [_ Hk]. unfold depth_at. by rewrite Hk. Qed.

Lemma stack_Pop_inv c p k v c' :
  at_frame c p k -> stack_Pop c = Ok v c' ->
  exists st, Call.Stack_ k = st ++ [v] /\ c' = with_Call p (Call.set_Stack st k) c.
Proof.
  intros Hf H. unfold stack_Pop in H. munfold. rewrite (ctx_Stack_run c p k Hf) in H.
  destruct (Stack.Pop (Call.Stack_ k)) as [[v' st']|] eqn:E; [|done]. simpl in H.
  rewrite (update_Call_run _ c p k Hf) in H. injection H as Hv Hc. subst v' c'.
  exists st'. split; [by apply Stack_Pop_inv|done].
Qed.

(** The frame that [callstack_Pop] uncovers is not the one it removes. *)
Lemma callstack_Pop_inv c p q c1 :
  NoDup (Context.CallStack c) -> Stack.Peek (Context.CallStack c) = Some p ->
  callstack_Pop c = Ok q c1 ->
  Context.calls c1 = Context.calls c /\
  (forall p', Stack.Peek (Context.CallStack c1) = Some p' -> p' <> p) /\
  (1 < Stack.Len (Context.CallStack c) -> is_Some (Stack.Peek (Context.CallStack c1))).
Proof.
  intros Hnd Hp H. unfold callstack_Pop in H. munfold.
  destruct (Stack.Pop (Context.CallStack c)) as [[q' st']|] eqn:E; [|done].
  simpl in H. injection H as Hq Hc. subst q' c1. simpl.
  apply Stack_Pop_inv in E. rewrite E in Hp, Hnd |- *.
  rewrite Stack_Peek_snoc in Hp. injection Hp as ->.
  split; [done|split].
  - intros p' Hp' ->. apply NoDup_app in Hnd as (_ & Hnotin & _).
    destruct st' as [|x st'] using rev_ind; [done|].
    rewrite Stack_Peek_snoc in Hp'. injection Hp' as ->.
    apply (Hnotin p); set_solver.
  - rewrite Stack_Len_snoc. intros Hlen.
    destruct st' as [|x st'] using rev_ind; [unfold Stack.Len in Hlen; simpl in Hlen; lia|].
    rewrite Stack_Peek_snoc. eauto.
Qed.

Lemma callstack_Push_inv c newCall c1 p k :
  at_frame c p k -> callstack_Push newCall c = Ok tt c1 ->
  Context.calls c1 !! p = Some k /\
  cur_Call c1 = Some newCall.
Proof.
  intros [Hp Hk] [= <-]. simpl. split.
  - by apply lookup_app_l_Some.
  - unfold cur_Call. simpl. unfold Stack.Push. rewrite Stack_Peek_snoc. simpl.
    by rewrite lookup_app_r, Nat.sub_diag.
Qed.

(** One bind of a run on the current frame [p]. *)
Lemma step_frame {A B} d (m : M A) (k : A -> M B) c p kc b c' :
  shifts d m -> at_frame c p kc -> (m ≫= k) c = Ok b c' ->
  exists a c1 k1,
    at_frame c1 p k1 /\
    Stack.Len (Call.Stack_ k1) = Stack.Len (Call.Stack_ kc) + d /\
    Context.CallStack c1 = Context.CallStack c /\
    m c = Ok a c1 /\ k a c1 = Ok b c'.
Proof.
  intros Hm Hf H. apply bind_inv in H as (a & c1 & E & H).
  pose proof (Hm _ _ _ E p (proj1 Hf)) as R.
  destruct (frame_rel_at_frame _ _ _ _ _ Hf R) as (k1 & Hf1 & Hl).
  exists a, c1, k1. repeat split; try done; try apply Hf1. apply R.
Qed.

Lemma opReturn_depth c c' p k :
  NoDup (Context.CallStack c) -> at_frame c p k -> opReturn c = Ok None c' ->
  depth_at p c' = Some (Stack.Len (Call.Stack_ k) - 2).
Proof.
  intros Hnd Hf H. unfold opReturn in H.
  destruct (step_frame _ _ _ _ _ _ _ _ shifts_stack_Pop Hf H)
    as (offset & c1 & k1 & Hf1 & Hl1 & Hs1 & _ & H1).
  destruct (step_frame _ _ _ _ _ _ _ _ shifts_stack_Pop Hf1 H1)
    as (size & c2 & k2 & Hf2 & Hl2 & Hs2 & _ & H2).
  destruct (step_frame _ _ _ _ _ _ _ _ (shifts_memory_GetPtr _ _) Hf2 H2)
    as (output & c3 & k3 & Hf3 & Hl3 & Hs3 & _ & H3).
  destruct (step_frame _ _ _ _ _ _ _ _ shifts_ctx_Call Hf3 H3)
    as (call & c4 & k4 & Hf4 & Hl4 & Hs4 & _ & H4).
  apply bind_inv in H4 as (c5 & c5' & [= <- <-] & H5).
  assert (Hnd4 : NoDup (Context.CallStack c4)) by congruence.
  destruct (1 <? Stack.Len (Context.CallStack c4)) eqn:Hlen.
  - apply bind_inv in H5 as (q & c6 & E6 & H6).
    destruct (callstack_Pop_inv _ _ _ _ Hnd4 (proj1 Hf4) E6) as (Hcalls & Hne & Hsome).
    destruct Hsome as [p' Hp']; [by apply Z.ltb_lt|].
    assert (Hrest : oshifts 1
      (update_Call (Call.set_InnerReturnVal output);;
       memory_Set (Call.OuterReturnOffset call) (Call.OuterReturnSize call) output;;
       stack_Push 1;; mret None)) by shift.
    destruct (Hrest _ _ H6 p' Hp') as (_ & _ & Hother).
    unfold depth_at. rewrite (Hother p) by (intros ->; by eapply Hne).
    rewrite Hcalls, (proj2 Hf4). simpl. f_equal. lia.
  - apply bind_inv in H5 as ([] & c6 & [= <-] & [= <-]).
    unfold depth_at. simpl. rewrite (proj2 Hf4). simpl. f_equal. lia.
Qed.

Lemma opStop_depth c c' p k :
  NoDup (Context.CallStack c) -> at_frame c p k -> opStop c = Ok None c' ->
  depth_at p c' = Some (Stack.Len (Call.Stack_ k)).
Proof.
  intros Hnd Hf H. unfold opStop in H.
  apply bind_inv in H as (c5 & c5' & [= <- <-] & H5).
  destruct (1 <? Stack.Len (Context.CallStack c)) eqn:Hlen.
  - apply bind_inv in H5 as (q & c6 & E6 & H6).
    destruct (callstack_Pop_inv _ _ _ _ Hnd (proj1 Hf) E6) as (Hcalls & Hne & Hsome).
    destruct Hsome as [p' Hp']; [by apply Z.ltb_lt|].
    assert (Hrest : oshifts 1 (stack_Push 1;; mret None)) by shift.
    destruct (Hrest _ _ H6 p' Hp') as (_ & _ & Hother).
    unfold depth_at. rewrite (Hother p) by (intros ->; by eapply Hne).
    by rewrite Hcalls, (proj2 Hf).
  - apply bind_inv in H5 as ([] & c6 & [= <-] & [= <-]).
    unfold depth_at. simpl. by rewrite (proj2 Hf).
Qed.

Lemma do_opcall_depth gas addr value inOffset inSize retOffset retSize c c' p k :
  at_frame c p k ->
  do_opcall PrecompiledContractsBerlin gas addr value inOffset inSize retOffset retSize c
    = Ok None c' ->
  depth_at p c' =
    Some (Stack.Len (Call.Stack_ k) +
          (if bool_decide (is_Some (PrecompiledContractsBerlin (uint256.Bytes20 addr)))
           then 1 else 0)) /\
  (PrecompiledContractsBerlin (uint256.Bytes20 addr) = None ->
   cur_Stack c' = Some [] /\
   Stack.Len (Context.CallStack c') = Stack.Len (Context.CallStack c) + 1).
Proof.
  intros Hf H. unfold do_opcall in H.
  destruct (step_frame _ _ _ _ _ _ _ _ (shifts_memory_GetPtr _ _) Hf H)
    as (input & c1 & k1 & Hf1 & Hl1 & Hs1 & _ & H1).
  destruct (PrecompiledContractsBerlin (uint256.Bytes20 addr)) as [precompiled|] eqn:Hpre.
  - rewrite bool_decide_eq_true_2 by eauto. split; [|done].
    destruct (precompiled input) as [e|output]; [done|].
    assert (Hrest : oshifts 1
      (update_Call (Call.set_InnerReturnVal output);;
       memory_Set (uint256.Uint64 retOffset) (uint256.Uint64 retSize) output;;
       stack_Push 1;; mret None)) by shift.
    pose proof (Hrest _ _ H1 p (proj1 Hf1)) as R.
    destruct (frame_rel_at_frame _ _ _ _ _ Hf1 R) as (k2 & Hf2 & Hl2).
    rewrite (depth_at_frame _ _ _ Hf2). f_equal. lia.
  - rewrite bool_decide_eq_false_2 by (intros [? ?]; done).
    destruct (step_frame _ _ _ _ _ _ _ _ (shifts_ensure_code _) Hf1 H1)
      as (r & c2 & k2 & Hf2 & Hl2 & Hs2 & _ & H2).
    destruct r as [e|binary]; [done|].
    destruct (step_frame _ _ _ _ _ _ _ _ shifts_ctx_Call Hf2 H2)
      as (currCall & c3 & k3 & Hf3 & Hl3 & Hs3 & _ & H3).
    apply bind_inv in H3 as ([] & c4 & E4 & [= <-]).
    destruct (callstack_Push_inv _ _ _ _ _ Hf3 E4) as (Hk & Hcur).
    split.
    + unfold depth_at. rewrite Hk. simpl. f_equal. lia.
    + intros _. unfold cur_Stack. rewrite Hcur. split; [done|].
      injection E4 as <-. simpl. unfold Stack.Push. rewrite Stack_Len_snoc. congruence.
Qed.

Lemma opDelegateCall_depth c c' p k :
  at_frame c p k -> opDelegateCall c = Ok None c' ->
  depth_at p c' = Some (Stack.Len (Call.Stack_ k) - 6).
Proof.
  intros Hf H. unfold opDelegateCall in H.
  destruct (step_frame _ _ _ _ _ _ _ _ shifts_stack_Pop Hf H)
    as (gas & c1 & k1 & Hf1 & Hl1 & _ & _ & H1).
  destruct (step_frame _ _ _ _ _ _ _ _ shifts_stack_Pop Hf1 H1)
    as (addr & c2 & k2 & Hf2 & Hl2 & _ & _ & H2).
  destruct (step_frame _ _ _ _ _ _ _ _ shifts_stack_Pop Hf2 H2)
    as (inOffset & c3 & k3 & Hf3 & Hl3 & _ & _ & H3).
  destruct (step_frame _ _ _ _ _ _ _ _ shifts_stack_Pop Hf3 H3)
    as (inSize & c4 & k4 & Hf4 & Hl4 & _ & _ & H4).
  destruct (step_frame _ _ _ _ _ _ _ _ shifts_stack_Pop Hf4 H4)
    as (retOffset & c5 & k5 & Hf5 & Hl5 & _ & _ & H5).
  destruct (step_frame _ _ _ _ _ _ _ _ shifts_stack_Pop Hf5 H5)
    as (retSize & c6 & k6 & Hf6 & Hl6 & _ & _ & H6).
  destruct (step_frame _ _ _ _ _ _ _ _ (shifts_ensure_code _) Hf6 H6)
    as (r & c7 & k7 & Hf7 & Hl7 & _ & _ & H7).
  destruct r as [e|binary]; [done|].
  destruct (step_frame _ _ _ _ _ _ _ _ shifts_ctx_Call Hf7 H7)
    as (currCall & c8 & k8 & Hf8 & Hl8 & _ & _ & H8).
  destruct (step_frame _ _ _ _ _ _ _ _ (shifts_memory_GetPtr _ _) Hf8 H8)
    as (args & c9 & k9 & Hf9 & Hl9 & _ & _ & H9).
  apply bind_inv in H9 as ([] & c10 & E10 & [= <-]).
  destruct (callstack_Push_inv _ _ _ _ _ Hf9 E10) as (Hk & _).
  unfold depth_at. rewrite Hk. simpl. f_equal. lia.
Qed.

(** Inverting one [stack.Pop()] of a run on the current frame. *)
Lemma pop_step {B} (k : Z -> M B) c p kc b c' :
  at_frame c p kc -> (stack_Pop ≫= k) c = Ok b c' ->
  exists v st,
    Call.Stack_ kc = st ++ [v] /\
    at_frame (with_Call p (Call.set_Stack st kc) c) p (Call.set_Stack st kc) /\
    k v (with_Call p (Call.set_Stack st kc) c) = Ok b c'.
Proof.
  intros Hf H. apply bind_inv in H as (v & c1 & E & H).
  destruct (stack_Pop_inv _ _ _ _ _ Hf E) as (st & Hst & ->).
  exists v, st. split; [done|]. split; [by eapply at_frame_with_Call|done].
Qed.

Lemma opCall_depth c c' p k :
  at_frame c p k -> opCall PrecompiledContractsBerlin c = Ok None c' ->
  depth_at p c' =
    Some (Stack.Len (Call.Stack_ k) - 7 +
          (if answered_inline PrecompiledContractsBerlin vm.CALL (Call.Stack_ k)
           then 1 else 0)).
Proof.
  intros Hf H. unfold opCall in H.
  destruct (pop_step _ _ _ _ _ _ Hf H) as (gas & st1 & Hst1 & Hf1 & H1).
  destruct (pop_step _ _ _ _ _ _ Hf1 H1) as (addr & st2 & Hst2 & Hf2 & H2).
  destruct (pop_step _ _ _ _ _ _ Hf2 H2) as (value & st3 & Hst3 & Hf3 & H3).
  destruct (pop_step _ _ _ _ _ _ Hf3 H3) as (inOffset & st4 & Hst4 & Hf4 & H4).
  destruct (pop_step _ _ _ _ _ _ Hf4 H4) as (inSize & st5 & Hst5 & Hf5 & H5).
  destruct (pop_step _ _ _ _ _ _ Hf5 H5) as (retOffset & st6 & Hst6 & Hf6 & H6).
  destruct (pop_step _ _ _ _ _ _ Hf6 H6) as (retSize & st7 & Hst7 & Hf7 & H7).
  simpl in Hst2, Hst3, Hst4, Hst5, Hst6, Hst7. subst st1 st2 st3 st4 st5 st6.
  assert (Hst : Call.Stack_ k =
    st7 ++ [retSize; retOffset; inSize; inOffset; value; addr; gas]).
  { rewrite Hst1. by rewrite <- !app_assoc. }
  unfold answered_inline. rewrite Hst. simpl (vm.CALL =? vm.CALL).
  rewrite (Stack_PeekI_app st7 _ 1) by (simpl; lia).
  rewrite (Stack_PeekI_app st7 _ 4) by (simpl; lia). simpl lookup.
  assert (Hlen : Stack.Len (st7 ++ [retSize; retOffset; inSize; inOffset; value; addr; gas])
                 = Stack.Len st7 + 7).
  { unfold Stack.Len. rewrite length_app. simpl. lia. }
  rewrite Hlen. set (c7 := with_Call p _ _) in *. set (k7 := Call.set_Stack st7 _) in *.
  destruct (uint256.IsZero inSize) eqn:Hz.
  - assert (Hrest : oshifts 1 (stack_Push 1;; mret None)) by shift.
    pose proof (Hrest _ _ H7 p (proj1 Hf7)) as R.
    destruct (frame_rel_at_frame _ _ _ _ _ Hf7 R) as (k8 & Hf8 & Hl8).
    rewrite (depth_at_frame _ _ _ Hf8). simpl in *. f_equal. lia.
  - destruct (do_opcall_depth _ _ _ _ _ _ _ _ _ _ _ Hf7 H7) as [Hd _].
    rewrite Hd. simpl. f_equal. lia.
Qed.

Lemma opStaticCall_depth c c' p k :
  at_frame c p k -> opStaticCall PrecompiledContractsBerlin c = Ok None c' ->
  depth_at p c' =
    Some (Stack.Len (Call.Stack_ k) - 6 +
          (if answered_inline PrecompiledContractsBerlin vm.STATICCALL (Call.Stack_ k)
           then 1 else 0)).
Proof.
  intros Hf H. unfold opStaticCall in H.
  destruct (pop_step _ _ _ _ _ _ Hf H) as (gas & st1 & Hst1 & Hf1 & H1).
  destruct (pop_step _ _ _ _ _ _ Hf1 H1) as (addr & st2 & Hst2 & Hf2 & H2).
  destruct (pop_step _ _ _ _ _ _ Hf2 H2) as (inOffset & st3 & Hst3 & Hf3 & H3).
  destruct (pop_step _ _ _ _ _ _ Hf3 H3) as (inSize & st4 & Hst4 & Hf4 & H4).
  destruct (pop_step _ _ _ _ _ _ Hf4 H4) as (retOffset & st5 & Hst5 & Hf5 & H5).
  destruct (pop_step _ _ _ _ _ _ Hf5 H5) as (retSize & st6 & Hst6 & Hf6 & H6).
  simpl in Hst2, Hst3, Hst4, Hst5, Hst6. subst st1 st2 st3 st4 st5.
  assert (Hst : Call.Stack_ k = st6 ++ [retSize; retOffset; inSize; inOffset; addr; gas]).
  { rewrite Hst1. by rewrite <- !app_assoc. }
  unfold answered_inline. rewrite Hst.
  simpl (vm.STATICCALL =? vm.CALL). simpl (vm.STATICCALL =? vm.STATICCALL).
  rewrite (Stack_PeekI_app st6 _ 1) by (simpl; lia). simpl lookup.
  assert (Hlen : Stack.Len (st6 ++ [retSize; retOffset; inSize; inOffset; addr; gas])
                 = Stack.Len st6 + 6).
  { unfold Stack.Len. rewrite length_app. simpl. lia. }
  rewrite Hlen.
  destruct (do_opcall_depth _ _ _ _ _ _ _ _ _ _ _ Hf6 H6) as [Hd _].
  rewrite Hd. simpl. f_equal. lia.
Qed.

End Arity.

Lemma always_fails_no_nil Sha3 Pre (f : fn.t) c c' :
  always_fails f = true -> Exec_of Sha3 Pre f c <> Ok None c'.
Proof.
  destruct f; try discriminate; intros _ H; simpl in H;
    try discriminate H.
  - unfold opRevert in H.
    apply bind_inv in H as (? & ? & _ & H). apply bind_inv in H as (? & ? & _ & H).
    apply bind_inv in H as (? & ? & _ & H). discriminate H.
  - unfold opSuicide in H. apply bind_inv in H as (? & ? & _ & H). discriminate H.
Qed.

(** The table has the 143 rows of the map literal, one per opcode, so the
    first match of [OpTable] is the only one. *)
Lemma OpTable_rows_keys :
  length OpTable_rows = 143%nat /\ NoDup (OpCode <$> OpTable_rows).
Proof.
  split; [reflexivity|].
  apply (bool_decide_unpack (NoDup (OpCode <$> OpTable_rows))). vm_compute. exact I.
Qed.

Lemma OpTable_push32 :
  OpTable 0x7f = Some (make_op 0x7f 32 0 1 (fn.makePush 32)) /\
  OpTable 0x9f = Some (make_op 0x9f 0 0 0 (fn.makeSwap 16)) /\
  OpTable 0xa4 = Some (make_op 0xa4 0 6 0 (fn.makeLog 4)) /\
  OpTable 0x0c = None.
Proof. repeat split; reflexivity. Qed.

Lemma OpTable_rows_ok : forallb row_ok OpTable_rows = true.
Proof. vm_compute. reflexivity. Qed.

Section ArityTheorem.
Variable Sha3 : list byte -> list byte.
Variable PrecompiledContractsBerlin : Address -> option (list byte -> error + list byte).

(** C1, as the code has it.  Take an opcode of the table other than ADDMOD,
    MULMOD, CALLDATALOAD and EXTCODESIZE, a context whose call stack holds
    distinct frames, and a run of the opcode's function that returns nil.
    Then the operand stack of the call that was current before the run is
    deeper by exactly [NStackOut - NStackIn] -- also for DELEGATECALL and for
    a CALL or STATICCALL that descends into a new frame, and for RETURN and
    STOP of an inner frame -- except that a CALL with [inSize == 0] and a
    CALL or STATICCALL to a precompile push their result 1 at once, one item
    more than the 7-in (6-in), 0-out that the table records. *)
Theorem exec_changes_depth_by_arity (code : Z) (op : Operation)
    (c c' : Context.t) (p : nat) (k : Call.t) :
  OpTable code = Some op ->
  arity_slip code = false ->
  NoDup (Context.CallStack c) ->
  at_frame c p k ->
  Exec_of Sha3 PrecompiledContractsBerlin (Exec op) c = Ok None c' ->
  depth_at p c' =
    Some (Stack.Len (Call.Stack_ k) + (NStackOut op - NStackIn op)
          + (if answered_inline PrecompiledContractsBerlin code (Call.Stack_ k)
             then 1 else 0)).
Proof.
  intros Hop Hslip Hnd Hf Hrun.
  apply OpTable_In in Hop as [Hin <-].
  pose proof OpTable_rows_ok as Hok. rewrite forallb_forall in Hok.
  specialize (Hok op Hin). unfold row_ok in Hok. rewrite Hslip in Hok. simpl in Hok.
  destruct (always_fails (Exec op)) eqn:Hfails.
  { by apply always_fails_no_nil in Hrun. }
  simpl in Hok.
  destruct (stack_effect (Exec op)) as [d|] eqn:Heff.
  - apply andb_prop in Hok as [Hok Hs]. apply andb_prop in Hok as [Hd Hc].
    apply Z.eqb_eq in Hd. apply negb_true_iff in Hc, Hs.
    unfold answered_inline. rewrite Hc, Hs.
    pose proof (oshifts_Exec_of Sha3 PrecompiledContractsBerlin _ _ Heff
                  _ _ Hrun p (proj1 Hf)) as R.
    destruct (frame_rel_at_frame _ _ _ _ _ Hf R) as (k1 & Hf1 & Hl).
    rewrite (depth_at_frame _ _ _ Hf1). f_equal. lia.
  - destruct (Exec op) eqn:Hex; try discriminate Hok; simpl in Hrun;
      apply andb_prop in Hok as [Hc Hd]; apply Z.eqb_eq in Hc, Hd; rewrite Hc, Hd.
    + rewrite (opStop_depth _ _ _ _ Hnd Hf Hrun). unfold answered_inline; simpl; f_equal; lia.
    + rewrite (opCall_depth _ _ _ _ _ Hf Hrun). f_equal; try lia.
    + rewrite (opReturn_depth _ _ _ _ Hnd Hf Hrun). unfold answered_inline; simpl; f_equal; lia.
    + rewrite (opDelegateCall_depth _ _ _ _ Hf Hrun). unfold answered_inline; simpl; f_equal; lia.
    + rewrite (opStaticCall_depth _ _ _ _ _ Hf Hrun). f_equal; try lia.
Qed.

End ArityTheorem.

(** ADD on the stack [3; 4]: two in, one out. *)
Lemma exec_changes_depth_by_arity_witness :
  exists c',
    opAdd (Samples.context_of Samples.push_add_stop [3; 4] 4 100) = Ok None c' /\
    depth_at 0 c' = Some (2 + (1 - 2) + 0).
Proof.
  eexists. split; [vm_compute; reflexivity|].
  apply (exec_changes_depth_by_arity Samples.Sha3 Samples.precompiles
           vm.ADD (make_op vm.ADD 0 2 1 fn.opAdd)
           (Samples.context_of Samples.push_add_stop [3; 4] 4 100) _ 0%nat
           (Samples.call_of [3; 4] 4)).
  - reflexivity.
  - reflexivity.
  - apply NoDup_singleton.
  - split; reflexivity.
  - vm_compute. reflexivity.
Defined.

(** C1 as stated fails for CALL on the value-transfer path: seven operands
    are popped and the result 1 is pushed, so a stack of depth 7 is left at
    depth 1, not at the depth [7 + 0 - 7 = 0] of the table's arities. *)
Lemma CALL_transfer_leaves_one_more :
  OpTable vm.CALL = Some (make_op vm.CALL 0 7 0 fn.opCall) /\
  depth_at 0 (Samples.context_of [] Samples.transfer_stack 0 100) = Some 7 /\
  exists c',
    Exec_of Samples.Sha3 Samples.precompiles fn.opCall
      (Samples.context_of [] Samples.transfer_stack 0 100) = Ok None c' /\
    cur_Stack c' = Some [1] /\
    depth_at 0 c' <> Some (7 + (0 - 7)).
Proof.
  split; [reflexivity|]. split; [reflexivity|].
  eexists. split; [vm_compute; reflexivity|]. split; [reflexivity|]. discriminate.
Qed.

(** ** Shifts *)

Lemma signed_range (w : Z) :
  uint256.valid w -> - 2 ^ 255 <= uint256.signed w < 2 ^ 255.
Proof.
  unfold uint256.valid, uint256.signed, uint256.modulus. intros H.
  destruct (Z.ltb_spec w (2 ^ 255)); lia.
Qed.

(** An arithmetic right shift by 256 bits or more leaves only the sign. *)
Lemma SRsh_256 (w : Z) :
  uint256.valid w ->
  uint256.SRsh w 256 = if uint256.signed w <? 0 then uint256.AllOne else 0.
Proof.
  intros Hw. pose proof (signed_range w Hw) as Hs.
  unfold uint256.SRsh, uint256.wrap, uint256.AllOne, uint256.modulus.
  rewrite Z.shiftr_div_pow2 by lia.
  destruct (Z.ltb_spec (uint256.signed w) 0) as [Hneg|Hpos].
  - replace (uint256.signed w / 2 ^ 256) with (-1); [done|].
    apply (Z.div_unique _ _ (-1) (uint256.signed w + 2 ^ 256)); lia.
  - rewrite Z.div_small by lia. done.
Qed.

Lemma Sign_nonneg (w : Z) :
  uint256.valid w -> (0 <=? uint256.Sign w) = negb (uint256.signed w <? 0).
Proof.
  unfold uint256.valid, uint256.Sign, uint256.signed, uint256.modulus. intros H.
  destruct (Z.eqb_spec w 0) as [->|]; [done|].
  destruct (Z.ltb_spec w (2 ^ 255)); simpl.
  - symmetry. apply negb_true_iff, Z.ltb_ge. lia.
  - symmetry. apply negb_false_iff, Z.ltb_lt. lia.
Qed.

(** What a binary operator of the shape
    [x, y := stack.Pop(), stack.Peek(); y.Op(...)] leaves. *)
Lemma pop_peek_poke_run c p k rest y x (r : Z) :
  at_frame c p k -> Call.Stack_ k = rest ++ [y; x] ->
  exists c1 k1,
    stack_Pop c = Ok x c1 /\ stack_Peek c1 = Ok y c1 /\
    at_frame c1 p k1 /\
    stack_Poke r c1 = Ok tt (with_Call p (Call.set_Stack (rest ++ [r]) k) c).
Proof.
  intros Hf Hst.
  assert (Hst' : Call.Stack_ k = (rest ++ [y]) ++ [x]) by (by rewrite <- app_assoc).
  exists (with_Call p (Call.set_Stack (rest ++ [y]) k) c), (Call.set_Stack (rest ++ [y]) k).
  pose proof (at_frame_with_Call _ _ _ (Call.set_Stack (rest ++ [y]) k) Hf) as Hf1.
  split; [by apply (stack_Pop_run c p k)|].
  split; [by apply (stack_Peek_run _ p _ rest y Hf1)|]. split; [done|].
  rewrite (stack_Poke_run _ p _ rest y r Hf1) by done.
  by rewrite with_Call_twice.
Qed.

(** C4.  With the shift amount [s >= 256] on top of the value [w] (whether
    [s] is exactly 256 or does not even fit 64 bits), SHL and SHR replace the
    two operands by 0, and SAR replaces them by 0 when [w] is non-negative as
    a signed word and by the all-ones word when it is negative; nothing else
    in the context changes. *)
Theorem shift_by_256_or_more (c : Context.t) (p : nat) (k : Call.t)
    (rest : list Z) (w s : Z) :
  at_frame c p k -> Call.Stack_ k = rest ++ [w; s] ->
  uint256.valid w -> uint256.valid s -> 256 <= s ->
  opSHL c = Ok None (with_Call p (Call.set_Stack (rest ++ [0]) k) c) /\
  opSHR c = Ok None (with_Call p (Call.set_Stack (rest ++ [0]) k) c) /\
  opSAR c = Ok None
    (with_Call p
       (Call.set_Stack
          (rest ++ [if uint256.signed w <? 0 then uint256.AllOne else 0]) k) c).
Proof.
  intros Hf Hst Hw Hs Hge.
  assert (Hlt : uint256.LtUint64 s 256 = false) by (apply Z.ltb_ge; lia).
  repeat split.
  - destruct (pop_peek_poke_run c p k rest w s 0 Hf Hst) as (c1 & k1 & E1 & E2 & _ & E3).
    unfold opSHL. munfold. rewrite E1, E2, Hlt. by rewrite E3.
  - destruct (pop_peek_poke_run c p k rest w s 0 Hf Hst) as (c1 & k1 & E1 & E2 & _ & E3).
    unfold opSHR. munfold. rewrite E1, E2, Hlt. by rewrite E3.
  - destruct (pop_peek_poke_run c p k rest w s
                (if uint256.signed w <? 0 then uint256.AllOne else 0) Hf Hst)
      as (c1 & k1 & E1 & E2 & _ & E3).
    unfold opSAR. munfold. rewrite E1, E2.
    unfold uint256.GtUint64. destruct (Z.ltb_spec 256 s) as [Hgt|Hle].
    + rewrite (Sign_nonneg w Hw).
      destruct (uint256.signed w <? 0); simpl; by rewrite E3.
    + assert (s = 256) as -> by lia.
      replace (uint256.Uint64 256) with 256 by reflexivity.
      rewrite (SRsh_256 w Hw). by rewrite E3.
Qed.

(** A negative word shifted by exactly 256, and by [2^64]. *)
Lemma shift_by_256_or_more_witness :
  opSAR (Samples.context_of [] [uint256.AllOne - 5; 256] 0 100) =
    Ok None (with_Call 0
               (Call.set_Stack [uint256.AllOne]
                  (Samples.call_of [uint256.AllOne - 5; 256] 0))
               (Samples.context_of [] [uint256.AllOne - 5; 256] 0 100)) /\
  opSHL (Samples.context_of [] [7; 2 ^ 64] 0 100) =
    Ok None (with_Call 0 (Call.set_Stack [0] (Samples.call_of [7; 2 ^ 64] 0))
               (Samples.context_of [] [7; 2 ^ 64] 0 100)).
Proof.
  split.
  - apply (shift_by_256_or_more (Samples.context_of [] [uint256.AllOne - 5; 256] 0 100)
             0%nat (Samples.call_of [uint256.AllOne - 5; 256] 0) [] (uint256.AllOne - 5) 256).
    + split; reflexivity.
    + reflexivity.
    + unfold uint256.valid. vm_compute. split; [discriminate|reflexivity].
    + unfold uint256.valid. vm_compute. split; [discriminate|reflexivity].
    + lia.
  - apply (shift_by_256_or_more (Samples.context_of [] [7; 2 ^ 64] 0 100)
             0%nat (Samples.call_of [7; 2 ^ 64] 0) [] 7 (2 ^ 64)).
    + split; reflexivity.
    + reflexivity.
    + unfold uint256.valid. vm_compute. split; [discriminate|reflexivity].
    + unfold uint256.valid. vm_compute. split; [discriminate|reflexivity].
    + lia.
Defined.

(** ** BLOCKHASH *)

Lemma peek_poke_run c p k rest y (r : Z) :
  at_frame c p k -> Call.Stack_ k = rest ++ [y] ->
  stack_Peek c = Ok y c /\
  stack_Poke r c = Ok tt (with_Call p (Call.set_Stack (rest ++ [r]) k) c).
Proof.
  intros Hf Hst. split; [by apply (stack_Peek_run c p k rest)|].
  by apply (stack_Poke_run c p k rest y).
Qed.

Lemma ensure_block_hash_run (blockNum : Z) (c : Context.t) :
  ensure_block_hash blockNum c =
  match Context.BlockHashes c !! blockNum with
  | Some hash => Ok (inr hash) c
  | None =>
      match get_online_block_hash (Context.ethClient c) blockNum with
      | inl e => Ok (inl e) c
      | inr hash =>
          Ok (inr hash)
             (Context.set_BlockHashes (<[blockNum := hash]> (Context.BlockHashes c)) c)
      end
  end.
Proof.
  unfold ensure_block_hash. munfold. simpl.
  destruct (Context.BlockHashes c !! blockNum); [done|].
  by destruct (get_online_block_hash _ _).
Qed.

(** C6, as the code has it.  BLOCKHASH works on the top of the stack [n] in
    place.  An [n] that does not fit 64 bits makes the opcode fail with the
    "block hash overflow" error and leaves the context as it was; any other
    [n] outside [blockNumber-256, blockNumber) is replaced by 0; an [n]
    inside the window is replaced by its hash from the cache, or else by the
    hash the node answers, which is then cached, and when the node fails (or
    there is none) its error is returned and the context is unchanged. *)
Theorem opBlockhash_by_cases (c : Context.t) (p : nat) (k : Call.t)
    (rest : list Z) (n : Z) :
  at_frame c p k -> Call.Stack_ k = rest ++ [n] -> uint256.valid n ->
  0 <= Block.Number (Context.Block_ c) < 2 ^ 64 ->
  let number := Block.Number (Context.Block_ c) in
  let replaced_by v c0 := with_Call p (Call.set_Stack (rest ++ [v]) k) c0 in
  (2 ^ 64 <= n ->
     opBlockhash c = Ok (Some (errors_New "block hash overflow: ")) c) /\
  (n < 2 ^ 64 -> ~ (number - 256 <= n < number) ->
     opBlockhash c = Ok None (replaced_by 0 c)) /\
  (number - 256 <= n < number ->
     match Context.BlockHashes c !! n with
     | Some hash => opBlockhash c = Ok None (replaced_by (uint256.wrap hash) c)
     | None =>
         match get_online_block_hash (Context.ethClient c) n with
         | inl e => opBlockhash c = Ok (Some e) c
         | inr hash =>
             opBlockhash c =
             Ok None (replaced_by (uint256.wrap hash)
                        (Context.set_BlockHashes (<[n := hash]> (Context.BlockHashes c)) c))
         end
     end).
Proof.
  intros Hf Hst Hn Hnum number replaced_by. subst number replaced_by.
  unfold uint256.valid in Hn.
  assert (Hrun : forall v, stack_Peek c = Ok n c /\
            stack_Poke v c = Ok tt (with_Call p (Call.set_Stack (rest ++ [v]) k) c))
    by (intros v; by apply (peek_poke_run c p k rest n)).
  repeat split.
  - intros Hbig. unfold opBlockhash, uint256.Uint64WithOverflow. munfold.
    rewrite (proj1 (Hrun 0)).
    destruct (Z.leb_spec (2 ^ 64) n); [done|lia].
  - intros Hsmall Hout. unfold opBlockhash, uint256.Uint64WithOverflow. munfold.
    rewrite (proj1 (Hrun 0)).
    destruct (Z.leb_spec (2 ^ 64) n); [lia|].
    rewrite Z.mod_small by lia.
    destruct (Z.ltb_spec (Block.Number (Context.Block_ c)) 257);
      destruct (Z.leb_spec 0 n), (Z.leb_spec (Block.Number (Context.Block_ c) - 256) n),
        (Z.ltb_spec n (Block.Number (Context.Block_ c)));
      simpl; try lia; by rewrite (proj2 (Hrun 0)).
  - intros Hin. unfold opBlockhash, uint256.Uint64WithOverflow.
    assert (Hguard : ((if Block.Number (Context.Block_ c) <? 257 then 0
                       else Block.Number (Context.Block_ c) - 256) <=? n)
                     && (n <? Block.Number (Context.Block_ c)) = true).
    { apply andb_true_intro. split; [apply Z.leb_le|apply Z.ltb_lt; lia].
      destruct (Z.ltb_spec (Block.Number (Context.Block_ c)) 257); lia. }
    munfold. rewrite (proj1 (Hrun 0)).
    destruct (Z.leb_spec (2 ^ 64) n); [lia|].
    rewrite Z.mod_small by lia. rewrite Hguard, ensure_block_hash_run.
    destruct (Context.BlockHashes c !! n) as [hash|] eqn:Hcache.
    + by rewrite (proj2 (Hrun (uint256.wrap hash))).
    + destruct (get_online_block_hash (Context.ethClient c) n) as [e|hash] eqn:Hnode; [done|].
      set (c1 := Context.set_BlockHashes _ c).
      assert (Hf1 : at_frame c1 p k) by apply Hf.
      by rewrite (stack_Poke_run c1 p k rest n (uint256.wrap hash) Hf1 Hst).
Qed.

(** In block 1000: block 2000 is outside the window and gives 0. *)
Lemma opBlockhash_by_cases_witness :
  opBlockhash (Samples.context_of [] [2000] 0 1000) =
  Ok None (with_Call 0 (Call.set_Stack [0] (Samples.call_of [2000] 0))
             (Samples.context_of [] [2000] 0 1000)).
Proof.
  apply (opBlockhash_by_cases (Samples.context_of [] [2000] 0 1000) 0%nat
           (Samples.call_of [2000] 0) [] 2000).
  - split; reflexivity.
  - reflexivity.
  - unfold uint256.valid. vm_compute. split; [discriminate|reflexivity].
  - simpl. lia.
  - lia.
  - simpl. lia.
Defined.

(** C6 as stated fails for an argument that does not fit 64 bits: in block
    1000, [n = 2^64] lies outside the window, yet BLOCKHASH returns an error
    and the stack still holds [2^64], not 0. *)
Lemma opBlockhash_overflow_is_an_error :
  ~ (1000 - 256 <= 2 ^ 64 < 1000) /\
  opBlockhash (Samples.context_of [] [2 ^ 64] 0 1000) =
    Ok (Some (errors_New "block hash overflow: ")) (Samples.context_of [] [2 ^ 64] 0 1000) /\
  cur_Stack (Samples.context_of [] [2 ^ 64] 0 1000) = Some [2 ^ 64] /\
  cur_Stack (Samples.context_of [] [2 ^ 64] 0 1000) <> Some [0].
Proof.
  split; [lia|]. split; [vm_compute; reflexivity|]. split; [reflexivity|].
  vm_compute. discriminate.
Qed.

(** ** JUMP and JUMPI *)

Lemma ctx_Code_run c p k contract :
  at_frame c p k -> Context.Contracts c !! Call.CodeAddress k = Some contract ->
  ctx_Code c = Ok (Contract.Code_ contract) c.
Proof.
  intros Hf Hc. unfold ctx_Code, contract_at. munfold.
  rewrite (ctx_Call_run c p k Hf). by rewrite Hc.
Qed.

(** C8.  JUMP, and JUMPI with a nonzero condition, look only at the low 64
    bits of the target: when [target mod 2^64] is below the code length the
    jump succeeds and the program counter becomes [target mod 2^64], also for
    a target of [2^64] or more; it fails, with InvalidJump, only when
    [target mod 2^64] is at or past the code length.  The operands are popped
    either way. *)
Theorem jump_takes_target_mod_2_64 (c : Context.t) (p : nat) (k : Call.t)
    (contract : Contract.t) (rest : list Z) (target cond : Z) :
  at_frame c p k ->
  Context.Contracts c !! Call.CodeAddress k = Some contract ->
  Z.of_nat (length (Code.Binary (Contract.Code_ contract))) < 2 ^ 64 ->
  let codeLen := Z.of_nat (length (Code.Binary (Contract.Code_ contract))) in
  let pos := target mod 2 ^ 64 in
  (Call.Stack_ k = rest ++ [target] ->
     (pos < codeLen ->
        opJump c = Ok None (with_Call p (Call.set_Pc pos (Call.set_Stack rest k)) c)) /\
     (codeLen <= pos ->
        opJump c = Ok (Some ErrInvalidJump) (with_Call p (Call.set_Stack rest k) c))) /\
  (Call.Stack_ k = rest ++ [cond; target] -> cond <> 0 ->
     (pos < codeLen ->
        opJumpi c = Ok None (with_Call p (Call.set_Pc pos (Call.set_Stack rest k)) c)) /\
     (codeLen <= pos ->
        opJumpi c = Ok (Some ErrInvalidJump) (with_Call p (Call.set_Stack rest k) c))).
Proof.
  intros Hf Hc Hlen codeLen pos. subst codeLen pos. split.
  - intros Hst.
    pose proof (stack_Pop_run c p k rest target Hf Hst) as E1.
    pose proof (at_frame_with_Call _ _ _ (Call.set_Stack rest k) Hf) as Hf1.
    assert (E2 : ctx_Code (with_Call p (Call.set_Stack rest k) c)
                 = Ok (Contract.Code_ contract) (with_Call p (Call.set_Stack rest k) c))
      by (by apply (ctx_Code_run _ p (Call.set_Stack rest k))).
    split; intros Hpos; unfold opJump, uint256.Uint64; munfold;
      rewrite E1, E2, u64_small by lia.
    + destruct (Z.leb_spec (Z.of_nat (length (Code.Binary (Contract.Code_ contract))))
                  (target mod 2 ^ 64)); [lia|].
      rewrite (update_Call_run _ _ p _ Hf1). by rewrite with_Call_twice.
    + destruct (Z.leb_spec (Z.of_nat (length (Code.Binary (Contract.Code_ contract))))
                  (target mod 2 ^ 64)); [done|lia].
  - intros Hst Hcond.
    assert (Hst' : Call.Stack_ k = (rest ++ [cond]) ++ [target]) by (by rewrite <- app_assoc).
    pose proof (stack_Pop_run c p k _ target Hf Hst') as E1.
    pose proof (at_frame_with_Call _ _ _ (Call.set_Stack (rest ++ [cond]) k) Hf) as Hf1.
    assert (E1' : stack_Pop (with_Call p (Call.set_Stack (rest ++ [cond]) k) c)
                  = Ok cond (with_Call p (Call.set_Stack rest k) c)).
    { rewrite (stack_Pop_run _ p _ rest cond Hf1 eq_refl).
      by rewrite with_Call_twice. }
    pose proof (at_frame_with_Call _ _ _ (Call.set_Stack rest k) Hf) as Hf2.
    assert (E2 : ctx_Code (with_Call p (Call.set_Stack rest k) c)
                 = Ok (Contract.Code_ contract) (with_Call p (Call.set_Stack rest k) c))
      by (by apply (ctx_Code_run _ p (Call.set_Stack rest k))).
    assert (Hnz : uint256.IsZero cond = false) by (by apply Z.eqb_neq).
    split; intros Hpos; unfold opJumpi, uint256.Uint64; munfold;
      rewrite E1, E1', Hnz; simpl; rewrite E2, u64_small by lia.
    + destruct (Z.leb_spec (Z.of_nat (length (Code.Binary (Contract.Code_ contract))))
                  (target mod 2 ^ 64)); [lia|].
      rewrite (update_Call_run _ _ p _ Hf2). by rewrite with_Call_twice.
    + destruct (Z.leb_spec (Z.of_nat (length (Code.Binary (Contract.Code_ contract))))
                  (target mod 2 ^ 64)); [done|lia].
Qed.

(** A jump to [2^64 + 4] in a code of six bytes lands on pc 4. *)
Lemma jump_takes_target_mod_2_64_witness :
  opJump (Samples.context_of Samples.push_add_stop [2 ^ 64 + 4] 0 100) =
  Ok None (with_Call 0 (Call.set_Pc 4 (Call.set_Stack [] (Samples.call_of [2 ^ 64 + 4] 0)))
             (Samples.context_of Samples.push_add_stop [2 ^ 64 + 4] 0 100)).
Proof.
  apply (jump_takes_target_mod_2_64
           (Samples.context_of Samples.push_add_stop [2 ^ 64 + 4] 0 100) 0%nat
           (Samples.call_of [2 ^ 64 + 4] 0)
           (Samples.contract_of Samples.push_add_stop) [] (2 ^ 64 + 4) 0).
  - split; reflexivity.
  - reflexivity.
  - simpl. lia.
  - reflexivity.
  - vm_compute. reflexivity.
Defined.

(** ** The interpreter loop *)

Section RunFacts.
Variable Sha3 : list byte -> list byte.
Variable PrecompiledContractsBerlin : Address -> option (list byte -> error + list byte).
Context {HS : Type}.
Implicit Types (hks : Hooks.t (Context.t * nat) Line HS) (s : HS).

(** C2.  Take a round of the loop of [Run] that reaches the PreRun phase
    (steps left, not done, a line at the program counter).  When the phase
    returns an error [e], a round other than the first returns [e] at once,
    without executing the instruction, and with the context untouched.  The
    first round of a [Run] call drops [e]: it executes the instruction as a
    round whose PreRun phase returned nil does -- an error of the instruction
    is returned, then the program counter is advanced, then an error of the
    PostRun phase is returned, first round or not, and otherwise the loop
    goes on with the next round, which is no longer the first. *)
Theorem Run_drops_PreRun_error_on_first_round_only
    (fuel : nat) hks (steps : Z) (c : Context.t) s s1
    (call : nat) (line : Line) (op : Operation) (epre : option error) :
  steps <> 0 -> Context.IsDone c = false ->
  Call_ptr c = Ok call c -> ctx_Line c = Ok (inr line) c ->
  OpTable (OpCode (Line.Op line)) = Some op ->
  Hooks.PreRunAll hks (c, call) line s = (s1, epre) ->
  (forall e, epre = Some e ->
     Run_loop Sha3 PrecompiledContractsBerlin (S fuel) hks false steps c s
     = Run_returned (Some e) c s1) /\
  (forall is_first_step, is_first_step = true \/ epre = None ->
     Run_loop Sha3 PrecompiledContractsBerlin (S fuel) hks is_first_step steps c s =
     match Exec_of Sha3 PrecompiledContractsBerlin (Exec op) c with
     | Panic => Run_panicked
     | Ok (Some e') c1 => Run_returned (Some e') c1 s1
     | Ok None c1 =>
         let c2 := if negb (OpCode (Line.Op line) =? vm.JUMP)
                      && negb (OpCode (Line.Op line) =? vm.JUMPI)
                   then bump_Pc call c1 else c1 in
         match Hooks.PostRunAll hks (c2, call) line s1 with
         | (s2, Some e2) => Run_returned (Some e2) c2 s2
         | (s2, None) =>
             Run_loop Sha3 PrecompiledContractsBerlin fuel hks false (i64 (steps - 1)) c2 s2
         end
     end) /\
  Run Sha3 PrecompiledContractsBerlin (S fuel) hks steps c s =
  Run_loop Sha3 PrecompiledContractsBerlin (S fuel) hks true steps c s.
Proof.
  intros Hsteps Hdone Hcall Hline Hop Hpre.
  assert (Hguard : negb (steps =? 0) && negb (Context.IsDone c) = true).
  { rewrite Hdone. apply andb_true_intro. split; [|done].
    by apply negb_true_iff, Z.eqb_neq. }
  split; [|split; [|done]].
  - intros e ->. cbn [Run_loop]. rewrite Hguard, Hcall, Hline, Hop, Hpre.
    by rewrite bool_decide_eq_true_2.
  - intros is_first_step Hfirst. cbn [Run_loop].
    rewrite Hguard, Hcall, Hline, Hop, Hpre.
    assert (Hskip : bool_decide (epre ≠ None) && negb is_first_step = false).
    { destruct Hfirst as [->| ->]; [apply andb_false_r|].
      by rewrite bool_decide_eq_false_2 by (by intros H). }
    rewrite Hskip.
    destruct (Exec_of _ _ _ c) as [[e'|] c1|]; try done.
    destruct (Hooks.PostRunAll _ _ _ _) as [s2 [e2|]]; done.
Qed.

End RunFacts.

(** With a breakpoint at pc 0 and the program counter at 0, a later round
    stops on the breakpoint, and the first round of a [Run] executes PUSH1 3
    and goes on. *)
Lemma Run_drops_PreRun_error_on_first_round_only_witness :
  Run_loop Samples.Sha3 Samples.precompiles 1 Samples.bp0 false (-1)
    (Samples.context_of Samples.push_add_stop [] 0 100) tt
  = Run_returned (Some (errors_Wrap ErrBreakpoint "@ Pc"))
      (Samples.context_of Samples.push_add_stop [] 0 100) tt /\
  Run Samples.Sha3 Samples.precompiles 1 Samples.bp0 (-1)
    (Samples.context_of Samples.push_add_stop [] 0 100) tt
  = Run_out_of_fuel.
Proof.
  destruct (Run_drops_PreRun_error_on_first_round_only
              Samples.Sha3 Samples.precompiles 0 Samples.bp0 (-1)
              (Samples.context_of Samples.push_add_stop [] 0 100) tt tt
              0%nat Samples.line0 (make_op (vm.PUSH 1) 1 0 1 (fn.makePush 1))
              (Some (errors_Wrap ErrBreakpoint "@ Pc")))
    as (Hlater & Hfirst & Hrun).
  - done.
  - reflexivity.
  - reflexivity.
  - vm_compute. reflexivity.
  - reflexivity.
  - reflexivity.
  - split; [by apply Hlater|].
    rewrite Hrun, (Hfirst true) by (by left). vm_compute. reflexivity.
Defined.

(** Breakpoint resume: with a breakpoint at pc 2, [Run(-1)] from pc 0 stops
    on it before PUSH1 4; a second [Run(-1)] from there executes PUSH1 4,
    ADD and STOP and ends with 7 on the stack and the context done. *)
Lemma breakpoint_resume :
  exists c1,
    Run Samples.Sha3 Samples.precompiles 10 Samples.bp2 (-1)
      (Samples.context_of Samples.push_add_stop [] 0 100) tt
    = Run_returned (Some (errors_Wrap ErrBreakpoint "@ Pc")) c1 tt /\
    cur_Pc c1 = Some 2 /\
    exists c2,
      Run Samples.Sha3 Samples.precompiles 10 Samples.bp2 (-1) c1 tt
      = Run_returned None c2 tt /\
      cur_Stack c2 = Some [7] /\ Context.IsDone c2 = true.
Proof.
  eexists. split; [vm_compute; reflexivity|]. split; [reflexivity|].
  eexists. split; [vm_compute; reflexivity|]. split; reflexivity.
Qed.

(** ** Further evaluations *)

(** With an empty metadata block behind it the sample program disassembles
    into its four lines, without a warning. *)
Lemma Disasm_push_add_stop_meta :
  exists a,
    Asm.Disasm Samples.push_add_stop_meta = Asm.Returned None a [] /\
    Asm.LineCount a = 4 /\
    Asm.LineAtPc 0 a = inr Samples.line0.
Proof. eexists. split; [vm_compute; reflexivity|]. split; reflexivity. Qed.

(** An unknown opcode ([0c]) and a PUSH2 that lacks a byte each end the scan
    with a warning, nil, and the lines before them. *)
Lemma Disasm_warns_and_returns :
  (exists a, Asm.Disasm [x01; x0c; x01; x00; x00] =
             Asm.Returned None a [Asm.InvalidOpcode 12 1 3] /\ Asm.LineCount a = 1) /\
  (exists a, Asm.Disasm [x01; x61; xff; x00; x00] =
             Asm.Returned None a [Asm.NotEnoughData 97 1 3 2] /\ Asm.LineCount a = 1).
Proof.
  split; eexists; (split; [vm_compute; reflexivity|reflexivity]).
Qed.

(** The four rows whose arity is not the one of their function: the functions
    take one operand more than their rows record.  ADDMOD and MULMOD leave a
    stack of three at depth 1 (recorded: two in, one out); CALLDATALOAD and
    EXTCODESIZE leave a stack of one at depth 1 (recorded: none in, one
    out). *)
Lemma arity_slips_measured :
  (exists c', opAddmod (Samples.context_of [] [5; 2; 3] 0 100) = Ok None c' /\
              cur_Stack c' = Some [0]) /\
  (exists c', opMulmod (Samples.context_of [] [5; 2; 3] 0 100) = Ok None c' /\
              cur_Stack c' = Some [1]) /\
  (exists c', opCallDataLoad (Samples.context_of [] [0] 0 100) = Ok None c' /\
              cur_Stack c' = Some [0]) /\
  (exists c', opExtCodeSize (Samples.context_of Samples.push_add_stop [Samples.this] 0 100)
                = Ok None c' /\
              cur_Stack c' = Some [6]).
Proof.
  repeat split; eexists; (split; [vm_compute; reflexivity|reflexivity]).
Qed.

(** Scenario: PUSH1 3; PUSH1 4; ADD; STOP runs to completion with 7 on top. *)
Lemma run_push_add_stop :
  exists c',
    Run Samples.Sha3 Samples.precompiles 10 [] (-1)
      (Samples.context_of Samples.push_add_stop [] 0 100) tt
    = Run_returned None c' tt /\
    cur_Stack c' = Some [7] /\ Context.IsDone c' = true.
Proof. eexists. split; [vm_compute; reflexivity|]. split; reflexivity. Qed.

(** The three paths of CALL on a stack of seven: a call to the identity
    precompile leaves its result 1 at once; a call into a contract leaves
    the caller's stack empty and opens a frame with an empty stack, and the
    STOP of that frame pushes the result 1 onto the caller's stack. *)
Lemma CALL_paths :
  (exists c',
     opCall Samples.precompiles (Samples.context_of [] Samples.precompile_stack 0 100)
       = Ok None c' /\
     cur_Stack c' = Some [1] /\ Stack.Len (Context.CallStack c') = 1) /\
  (exists c' c'',
     opCall Samples.precompiles
       (Samples.context_of Samples.push_add_stop Samples.descend_stack 0 100)
       = Ok None c' /\
     depth_at 0 c' = Some 0 /\ cur_Stack c' = Some [] /\
     Stack.Len (Context.CallStack c') = 2 /\
     opStop c' = Ok None c'' /\
     depth_at 1 c'' = Some 0 /\ cur_Stack c'' = Some [1] /\
     Stack.Len (Context.CallStack c'') = 1).
Proof.
  split.
  - eexists. split; [vm_compute; reflexivity|]. split; reflexivity.
  - do 2 eexists. split; [vm_compute; reflexivity|].
    do 3 (split; [reflexivity|]). split; [vm_compute; reflexivity|].
    repeat split; reflexivity.
Qed.

(* ===================================================================== *)
(** * Part III: further properties of the modelled code                    *)
(* ===================================================================== *)

(** ** stack.go *)

Section StackLaws.
Context {T : Type}.
Implicit Types (st : list T) (d v : T).

Lemma Stack_at_spec st (i : Z) v :
  Stack.at_ st i = Some v <-> 0 <= i < Stack.Len st /\ st !! Z.to_nat i = Some v.
Proof.
  unfold Stack.at_.
  destruct (Z.leb_spec 0 i), (Z.ltb_spec i (Stack.Len st)); simpl;
    split; try done; try (intros [? ?]; lia); intros H'; (split; [lia|done]) || apply H'.
Qed.

Lemma Stack_at_is_Some st (i : Z) :
  is_Some (Stack.at_ st i) <-> 0 <= i < Stack.Len st.
Proof.
  split.
  - intros [v Hv]. by apply Stack_at_spec in Hv as [? _].
  - intros Hi. destruct (st !! Z.to_nat i) as [v|] eqn:E.
    + exists v. by apply Stack_at_spec.
    + apply lookup_ge_None in E. unfold Stack.Len in Hi. lia.
Qed.

(** [Pop] undoes [Push] and nothing else: a stack pops [d] and leaves [st']
    exactly when it is [st'] with [d] pushed on it.  In particular the empty
    stack cannot be popped (the Go code panics on it). *)
Theorem Stack_Pop_iff_Push st d st' :
  Stack.Pop st = Some (d, st') <-> st = Stack.Push d st'.
Proof.
  split.
  - apply Stack_Pop_inv.
  - intros ->. apply Stack_Pop_snoc.
Qed.

Lemma Stack_PeekI_lookup st (i : Z) v :
  Stack.PeekI i st = Some v <->
  0 <= i < Stack.Len st /\ st !! (length st - 1 - Z.to_nat i)%nat = Some v.
Proof.
  unfold Stack.PeekI. rewrite Stack_at_spec. unfold Stack.Len.
  split; intros [Hi Hv]; (split; [lia|]).
  - by replace (length st - 1 - Z.to_nat i)%nat
      with (Z.to_nat (Z.of_nat (length st) - 1 - i)) by lia.
  - by replace (Z.to_nat (Z.of_nat (length st) - 1 - i))
      with (length st - 1 - Z.to_nat i)%nat by lia.
Qed.

(** [Dup(n)] works for [1 <= n <= Len] and panics otherwise; it pushes a copy
    of the [n]-th item from the top, so popping the result gives that item
    back together with the stack as it was. *)
Theorem Stack_Dup_spec st (n : Z) :
  (1 <= n <= Stack.Len st <-> is_Some (Stack.Dup n st)) /\
  (forall st', Stack.Dup n st = Some st' ->
     exists d, Stack.PeekI (n - 1) st = Some d /\ st' = Stack.Push d st /\
               Stack.Pop st' = Some (d, st)).
Proof.
  unfold Stack.Dup. split.
  - split.
    + intros Hn. destruct (proj2 (Stack_at_is_Some st (Stack.Len st - n))) as [d Hd]; [lia|].
      rewrite Hd. eauto.
    + intros [st' H]. destruct (Stack.at_ st (Stack.Len st - n)) as [d|] eqn:E; [|done].
      apply Stack_at_spec in E. lia.
  - intros st' H. destruct (Stack.at_ st (Stack.Len st - n)) as [d|] eqn:E; [|done].
    injection H as <-. exists d. split; [|split; [done|apply Stack_Pop_snoc]].
    unfold Stack.PeekI. by replace (Stack.Len st - 1 - (n - 1)) with (Stack.Len st - n) by lia.
Qed.

(** [Swap(n)] works for [1 <= n <= Len] and panics otherwise.  It exchanges
    the top with the [n]-th item from the top and leaves every other item in
    place, so swapping twice gives the stack back. *)
Theorem Stack_Swap_spec st (n : Z) :
  (1 <= n <= Stack.Len st <-> is_Some (Stack.Swap n st)) /\
  (forall st', Stack.Swap n st = Some st' ->
     Stack.Len st' = Stack.Len st /\
     Stack.PeekI 0 st' = Stack.PeekI (n - 1) st /\
     Stack.PeekI (n - 1) st' = Stack.PeekI 0 st /\
     (forall i, i <> 0 -> i <> n - 1 -> Stack.PeekI i st' = Stack.PeekI i st) /\
     Stack.Swap n st' = Some st).
Proof.
  assert (Hpk : forall (s : list T) i, Stack.PeekI i s = Stack.at_ s (Stack.Len s - 1 - i))
    by done.
  unfold Stack.Swap. split.
  - split.
    + intros Hn.
      destruct (proj2 (Stack_at_is_Some st (Stack.Len st - 1))) as [a Ha]; [lia|].
      destruct (proj2 (Stack_at_is_Some st (Stack.Len st - n))) as [b Hb]; [lia|].
      rewrite Ha, Hb. eauto.
    + intros [st' H].
      destruct (Stack.at_ st (Stack.Len st - 1)) as [a|] eqn:Ea; [|done].
      destruct (Stack.at_ st (Stack.Len st - n)) as [b|] eqn:Eb; [|done].
      apply Stack_at_spec in Ea, Eb. lia.
  - intros st' H.
    destruct (Stack.at_ st (Stack.Len st - 1)) as [a|] eqn:Ea; [|done].
    destruct (Stack.at_ st (Stack.Len st - n)) as [b|] eqn:Eb; [|done].
    injection H as <-.
    pose proof Ea as Ea'. pose proof Eb as Eb'.
    apply Stack_at_spec in Ea' as [Hia Hla], Eb' as [Hib Hlb].
    set (ia := Z.to_nat (Stack.Len st - 1)) in *.
    set (ib := Z.to_nat (Stack.Len st - n)) in *.
    set (st' := <[ia:=b]> (<[ib:=a]> st)).
    assert (Hlen : Stack.Len st' = Stack.Len st)
      by (unfold Stack.Len, st'; by rewrite !length_insert).
    assert (Hia' : (ia < length st)%nat) by (unfold Stack.Len in *; lia).
    assert (Hib' : (ib < length st)%nat) by (unfold Stack.Len in *; lia).
    assert (Htop : st' !! ia = Some b).
    { unfold st'. apply list_lookup_insert_eq. by rewrite length_insert. }
    assert (Hnth : st' !! ib = Some (if decide (ia = ib) then b else a)).
    { unfold st'. destruct (decide (ia = ib)) as [->|Hne].
      - apply list_lookup_insert_eq. by rewrite length_insert.
      - rewrite list_lookup_insert_ne by done. by apply list_lookup_insert_eq. }
    assert (Hsame : ia = ib -> a = b) by (intros E; rewrite E in Hla; congruence).
    assert (Hnth' : st' !! ib = Some a).
    { rewrite Hnth. destruct (decide (ia = ib)); [|done]. f_equal. symmetry. auto. }
    assert (Hother : forall j : nat, j <> ia -> j <> ib -> st' !! j = st !! j).
    { intros j H1 H2. unfold st'. by rewrite !list_lookup_insert_ne. }
    split; [done|]. split; [|split; [|split]].
    + rewrite !Hpk, Hlen.
      replace (Stack.Len st - 1 - 0) with (Stack.Len st - 1) by lia.
      replace (Stack.Len st - 1 - (n - 1)) with (Stack.Len st - n) by lia.
      rewrite Eb. apply Stack_at_spec. split; [lia|done].
    + rewrite !Hpk, Hlen.
      replace (Stack.Len st - 1 - 0) with (Stack.Len st - 1) by lia.
      replace (Stack.Len st - 1 - (n - 1)) with (Stack.Len st - n) by lia.
      rewrite Ea. apply Stack_at_spec. split; [lia|done].
    + intros i Hi0 Hin. rewrite !Hpk, Hlen. unfold Stack.at_. rewrite Hlen.
      destruct (_ && _) eqn:Hb; [|done].
      apply andb_prop in Hb as [H1 H2]. apply Z.leb_le in H1. apply Z.ltb_lt in H2.
      apply Hother; unfold ia, ib; lia.
    + rewrite Hlen. fold ia ib.
      assert (Ea2 : Stack.at_ st' (Stack.Len st - 1) = Some b)
        by (apply Stack_at_spec; split; [lia|done]).
      assert (Eb2 : Stack.at_ st' (Stack.Len st - n) = Some a)
        by (apply Stack_at_spec; split; [lia|done]).
      rewrite Ea2, Eb2. f_equal.
      apply list_eq. intros j.
      destruct (decide (j = ia)) as [->|Hja].
      { rewrite list_lookup_insert_eq
          by (rewrite length_insert; unfold st'; by rewrite !length_insert).
        done. }
      rewrite list_lookup_insert_ne by done.
      destruct (decide (j = ib)) as [->|Hjb].
      { rewrite list_lookup_insert_eq by (unfold st'; by rewrite !length_insert). done. }
      rewrite list_lookup_insert_ne by done. by apply Hother.
Qed.

End StackLaws.

(** ** memory.go *)

Lemma Resize_lookup (size : Z) (m : Memory.t) (i : nat) :
  Memory.Resize size m !! i =
  if decide (i < length m)%nat then m !! i
  else if decide (Z.of_nat i < size) then Some x00 else None.
Proof.
  unfold Memory.Resize, Memory.Len.
  destruct (Z.ltb_spec (Z.of_nat (length m)) size) as [Hlt|Hge].
  - destruct (decide (i < length m)%nat) as [Hi|Hi].
    + by rewrite lookup_app_l.
    + rewrite lookup_app_r by lia. destruct (decide (Z.of_nat i < size)).
      * apply lookup_replicate. split; [done|lia].
      * apply lookup_ge_None. rewrite length_replicate. lia.
  - destruct (decide (i < length m)%nat) as [Hi|Hi]; [done|].
    destruct (decide (Z.of_nat i < size)); [lia|]. apply lookup_ge_None. lia.
Qed.

Lemma copy_into_lookup (m m' : Memory.t) (lo hi : Z) (value : list byte) (i : nat) :
  Memory.copy_into m lo hi value = Some m' ->
  m' !! i =
  if decide (lo <= Z.of_nat i < lo + Z.min (hi - lo) (Z.of_nat (length value)))
  then value !! (i - Z.to_nat lo)%nat
  else m !! i.
Proof.
  unfold Memory.copy_into, Memory.Len.
  destruct (_ && _) eqn:Hb; [|discriminate]. intros [= <-].
  apply andb_prop in Hb as [Hb Hhi]. apply andb_prop in Hb as [Hlo Hle].
  apply Z.leb_le in Hlo, Hle, Hhi.
  set (n := Nat.min (Z.to_nat (hi - lo)) (length value)).
  assert (Hn : Z.of_nat n = Z.min (hi - lo) (Z.of_nat (length value))) by lia.
  rewrite <- Hn.
  destruct (decide (lo <= Z.of_nat i < lo + Z.of_nat n)) as [Hin|Hout].
  - rewrite lookup_app_r by (rewrite length_take; lia).
    rewrite length_take, Nat.min_l by lia.
    rewrite lookup_app_l by (rewrite length_take; lia).
    apply lookup_take_lt. lia.
  - destruct (decide (Z.of_nat i < lo)) as [Hbefore|Hafter].
    + rewrite lookup_app_l by (rewrite length_take; lia).
      apply lookup_take_lt. lia.
    + rewrite lookup_app_r by (rewrite length_take; lia).
      rewrite length_take, Nat.min_l by lia.
      rewrite lookup_app_r by (rewrite length_take; lia).
      rewrite length_take, lookup_drop. f_equal. lia.
Qed.

(** A [Set] that does not panic did not wrap its [uint64] end. *)
Lemma Set_no_wrap (offset size : Z) (value : list byte) (m m' : Memory.t) :
  0 < size < 2 ^ 64 -> offset < 2 ^ 64 ->
  Memory.Set_ offset size value m = Some m' ->
  0 <= offset /\ u64 (offset + size) = offset + size /\
  Memory.copy_into (Memory.Resize (offset + size) m) offset (offset + size) value = Some m'.
Proof.
  intros Hsize Hoff. unfold Memory.Set_. destruct (Z.ltb_spec 0 size); [|lia]. intros Hc.
  assert (Hb : 0 <= offset /\ offset <= u64 (offset + size)).
  { unfold Memory.copy_into in Hc. destruct (_ && _) eqn:Hb; [|discriminate].
    apply andb_prop in Hb as [Hb _]. apply andb_prop in Hb as [Hlo Hle].
    apply Z.leb_le in Hlo, Hle. done. }
  assert (Hnowrap : u64 (offset + size) = offset + size).
  { destruct Hb as [H0 Hle]. unfold u64 in Hle |- *.
    destruct (Z.lt_ge_cases (offset + size) (2 ^ 64)) as [Hs|Hs].
    - apply Z.mod_small. lia.
    - replace ((offset + size) mod 2 ^ 64) with (offset + size - 2 ^ 64) in Hle; [lia|].
      apply (Z.mod_unique _ _ 1); lia. }
  split; [apply Hb|]. split; [done|]. rewrite Hnowrap in Hc.
  unfold Memory.Resize in *. by destruct (Memory.Len m <? offset + size).
Qed.

Lemma Set_lookup (offset size : Z) (value : list byte) (m m' : Memory.t) (i : nat) :
  0 < size < 2 ^ 64 -> offset < 2 ^ 64 ->
  Memory.Set_ offset size value m = Some m' ->
  m' !! i =
  if decide (offset <= Z.of_nat i < offset + Z.min size (Z.of_nat (length value)))
  then value !! (i - Z.to_nat offset)%nat
  else if decide (i < length m)%nat then m !! i
  else if decide (Z.of_nat i < offset + size) then Some x00 else None.
Proof.
  intros Hsize Hoff Hset.
  destruct (Set_no_wrap _ _ _ _ _ Hsize Hoff Hset) as (H0 & _ & Hc).
  rewrite (copy_into_lookup _ _ _ _ _ i Hc).
  replace (offset + size - offset) with size by lia.
  destruct (decide (offset <= Z.of_nat i < offset + Z.min size (Z.of_nat (length value))));
    [done|].
  apply Resize_lookup.
Qed.

Lemma Set_succeeds (offset size : Z) (value : list byte) (m : Memory.t) :
  0 < size -> 0 <= offset -> offset + size < 2 ^ 64 ->
  exists m', Memory.Set_ offset size value m = Some m' /\
             Memory.Len m' = Z.max (Memory.Len m) (offset + size).
Proof.
  intros Hsize Hoff Hend. unfold Memory.Set_. destruct (Z.ltb_spec 0 size); [|lia].
  rewrite u64_small by lia.
  set (m1 := if Memory.Len m <? offset + size then Memory.Resize (offset + size) m else m).
  assert (Hlen : Memory.Len m1 = Z.max (Memory.Len m) (offset + size)).
  { unfold m1. destruct (Z.ltb_spec (Memory.Len m) (offset + size)); [|lia].
    rewrite Resize_Len. lia. }
  unfold Memory.copy_into.
  destruct (Z.leb_spec 0 offset), (Z.leb_spec offset (offset + size)),
    (Z.leb_spec (offset + size) (Memory.Len m1)); simpl; try lia.
  eexists. split; [done|].
  rewrite <- Hlen. apply (copy_into_Len m1 _ offset (offset + size) value).
  unfold Memory.copy_into.
  destruct (Z.leb_spec 0 offset), (Z.leb_spec offset (offset + size)),
    (Z.leb_spec (offset + size) (Memory.Len m1)); simpl; try lia. done.
Qed.

Lemma slice_lookup (m bs : list byte) (lo hi : Z) (i : nat) :
  Memory.slice m lo hi = Some bs ->
  bs !! i = if decide (Z.of_nat i < hi - lo) then m !! (Z.to_nat lo + i)%nat else None.
Proof.
  unfold Memory.slice. destruct (_ && _) eqn:Hb; [|discriminate]. intros [= <-].
  apply andb_prop in Hb as [Hb Hhi]. apply andb_prop in Hb as [Hlo Hle].
  apply Z.leb_le in Hlo, Hle, Hhi.
  destruct (decide (Z.of_nat i < hi - lo)).
  - rewrite lookup_take_lt by lia. apply lookup_drop.
  - apply lookup_take_ge. lia.
Qed.

(** [Set(offset, size, value)] with [size > 0] overwrites the first
    [min(size, len(value))] bytes at [offset] with those of [value] and
    nothing else: every other byte that the memory had keeps its value (also
    the rest of the window when [value] is shorter than [size]), and the
    bytes that the resize added are zero. *)
Theorem Memory_Set_bytes (offset size : Z) (value : list byte) (m m' : Memory.t) (i : nat) :
  0 < size < 2 ^ 64 -> offset < 2 ^ 64 ->
  Memory.Set_ offset size value m = Some m' ->
  m' !! i =
  if decide (offset <= Z.of_nat i < offset + Z.min size (Z.of_nat (length value)))
  then value !! (i - Z.to_nat offset)%nat
  else if decide (i < length m)%nat then m !! i
  else if decide (Z.of_nat i < offset + size) then Some x00 else None.
Proof. apply Set_lookup. Qed.

(** PRECOMPILE-like case: a 2-byte value set into a 4-byte window at offset 1
    of [aa bb cc dd ee] overwrites two bytes and keeps the others. *)
Lemma Memory_Set_bytes_witness :
  Memory.Set_ 1 4 [x11; x22] [xaa; xbb; xcc; xdd; xee] = Some [xaa; x11; x22; xdd; xee] /\
  [xaa; x11; x22; xdd; xee] !! 3%nat = Some xdd.
Proof.
  split; [reflexivity|].
  rewrite (Memory_Set_bytes 1 4 [x11; x22] [xaa; xbb; xcc; xdd; xee]
             [xaa; x11; x22; xdd; xee] 3); [reflexivity|lia|lia|reflexivity].
Defined.

(** What [Set] wrote, [GetPtr] reads back: after [Set(offset, size, value)]
    with a [value] of at least [size] bytes, [GetPtr(offset, size)] is the
    first [size] bytes of [value].  (Offsets are within the [int64] range of
    [GetPtr].) *)
Theorem Memory_Set_then_GetPtr (offset size : Z) (value : list byte) (m : Memory.t) :
  0 < size -> 0 <= offset -> offset + size < 2 ^ 63 ->
  size <= Z.of_nat (length value) ->
  exists m', Memory.Set_ offset size value m = Some m' /\
             Memory.GetPtr offset size m' = Some (take (Z.to_nat size) value).
Proof.
  intros Hsize Hoff Hend Hval.
  destruct (Set_succeeds offset size value m) as (m' & Hset & Hlen); [lia..|].
  exists m'. split; [done|]. unfold Memory.GetPtr.
  destruct (Z.eqb_spec size 0); [lia|].
  destruct (Z.ltb_spec offset (Memory.Len m')); [|lia].
  assert (Hi64 : i64 (offset + size) = offset + size).
  { unfold i64. rewrite Z.mod_small by lia. destruct (Z.ltb_spec (offset + size) (2 ^ 63)); lia. }
  rewrite Hi64.
  destruct (Memory.slice m' offset (offset + size)) as [bs|] eqn:Hs.
  - f_equal. apply list_eq. intros i. rewrite (slice_lookup _ _ _ _ i Hs).
    replace (offset + size - offset) with size by lia.
    destruct (decide (Z.of_nat i < size)).
    + rewrite (Set_lookup offset size value m m') by (done || lia).
      rewrite Z.min_l by lia.
      destruct (decide (offset <= Z.of_nat (Z.to_nat offset + i) <
                        offset + size)); [|lia].
      rewrite lookup_take_lt by lia. f_equal. lia.
    + symmetry. apply lookup_take_ge. lia.
  - unfold Memory.slice in Hs.
    destruct (Z.leb_spec 0 offset), (Z.leb_spec offset (offset + size)),
      (Z.leb_spec (offset + size) (Memory.Len m')); simpl in Hs; done || lia.
Qed.

Lemma Memory_Set_then_GetPtr_witness :
  exists m', Memory.Set_ 3 2 [x11; x22; x33] [xaa] = Some m' /\
             Memory.GetPtr 3 2 m' = Some (take (Z.to_nat 2) [x11; x22; x33]).
Proof. apply Memory_Set_then_GetPtr; simpl; lia. Defined.

(** ** Big-endian words *)

Lemma byte_to_Z_of_Z (z : Z) : byte_to_Z (byte_of_Z z) = z mod 256.
Proof.
  unfold byte_to_Z, byte_of_Z.
  pose proof (Z.mod_pos_bound z 256 ltac:(lia)) as Hr.
  destruct (Byte.of_N (Z.to_N (z mod 256))) as [b|] eqn:E.
  - apply Byte.to_of_N in E. rewrite E. lia.
  - apply Byte.of_N_None_iff in E. lia.
Qed.

Lemma be_to_Z_snoc (bs : list byte) (b : byte) :
  be_to_Z (bs ++ [b]) = be_to_Z bs * 256 + byte_to_Z b.
Proof. unfold be_to_Z. by rewrite fold_left_app. Qed.

Lemma be_of_Z_length (n : nat) (z : Z) : length (be_of_Z n z) = n.
Proof.
  revert z. induction n as [|n IH]; intros z; [done|].
  cbn [be_of_Z]. rewrite length_app, IH. simpl. lia.
Qed.

Lemma be_to_of_Z (n : nat) (z : Z) : be_to_Z (be_of_Z n z) = z mod 256 ^ Z.of_nat n.
Proof.
  revert z. induction n as [|n IH]; intros z.
  - simpl. by rewrite Z.mod_1_r.
  - cbn [be_of_Z]. rewrite be_to_Z_snoc, IH, byte_to_Z_of_Z.
    rewrite Nat2Z.inj_succ, Z.pow_succ_r by lia.
    rewrite (Z.rem_mul_r z 256 (256 ^ Z.of_nat n)) by lia. lia.
Qed.

(** A word written as 32 big-endian bytes reads back as itself. *)
Lemma SetBytes_Bytes32 (v : Z) : uint256.valid v -> uint256.SetBytes (uint256.Bytes32 v) = v.
Proof.
  unfold uint256.valid, uint256.SetBytes, uint256.Bytes32, uint256.wrap, uint256.modulus.
  intros Hv. rewrite be_to_of_Z.
  change (256 ^ Z.of_nat 32) with (2 ^ 256). rewrite Z.mod_mod by lia.
  by apply Z.mod_small.
Qed.

(** ** MSTORE and MLOAD *)

Lemma Set32_window (offset val : Z) (m m' : Memory.t) :
  0 <= offset -> offset + 32 < 2 ^ 63 ->
  Memory.Set32 offset val m = Some m' ->
  Memory.GetPtr offset 32 m' = Some (uint256.Bytes32 val).
Proof.
  intros Hoff Hend. unfold Memory.Set32. rewrite u64_small by lia.
  destruct (Memory.copy_into _ _ _ (replicate _ _)) as [m2|] eqn:H1; [|discriminate].
  intros H2.
  pose proof (copy_into_Len _ _ _ _ _ H2) as Hlen.
  assert (Hb : offset + 32 <= Memory.Len m2).
  { unfold Memory.copy_into in H2. destruct (_ && _) eqn:Hb; [|discriminate].
    apply andb_prop in Hb as [_ Hhi]. by apply Z.leb_le in Hhi. }
  unfold Memory.GetPtr. simpl (32 =? 0).
  destruct (Z.ltb_spec offset (Memory.Len m')); [|lia].
  assert (Hi64 : i64 (offset + 32) = offset + 32).
  { unfold i64. rewrite Z.mod_small by lia. destruct (Z.ltb_spec (offset + 32) (2 ^ 63)); lia. }
  rewrite Hi64.
  destruct (Memory.slice m' offset (offset + 32)) as [bs|] eqn:Hs.
  - f_equal. apply list_eq. intros i. rewrite (slice_lookup _ _ _ _ i Hs).
    replace (offset + 32 - offset) with 32 by lia.
    destruct (decide (Z.of_nat i < 32)).
    + rewrite (copy_into_lookup _ _ _ _ _ _ H2).
      replace (offset + 32 - offset) with 32 by lia.
      unfold uint256.Bytes32. rewrite be_of_Z_length.
      destruct (decide (offset <= Z.of_nat (Z.to_nat offset + i) <
                        offset + Z.min 32 (Z.of_nat 32))); [|lia].
      f_equal. lia.
    + symmetry. apply lookup_ge_None. unfold uint256.Bytes32.
      rewrite be_of_Z_length. lia.
  - unfold Memory.slice in Hs.
    destruct (Z.leb_spec 0 offset), (Z.leb_spec offset (offset + 32)),
      (Z.leb_spec (offset + 32) (Memory.Len m')); simpl in Hs; done || lia.
Qed.

Lemma Set32_succeeds (offset val : Z) (m : Memory.t) :
  0 <= offset -> offset + 32 < 2 ^ 64 -> is_Some (Memory.Set32 offset val m).
Proof.
  intros Hoff Hend. unfold Memory.Set32. rewrite u64_small by lia.
  set (m1 := if Memory.Len m <? offset + 32 then Memory.Resize (offset + 32) m else m).
  assert (Hlen : offset + 32 <= Memory.Len m1).
  { unfold m1. destruct (Z.ltb_spec (Memory.Len m) (offset + 32)); [|lia].
    rewrite Resize_Len. lia. }
  destruct (Memory.copy_into m1 offset (offset + 32) (replicate 32 x00)) as [m2|] eqn:H1.
  - pose proof (copy_into_Len _ _ _ _ _ H1) as Hl2.
    unfold Memory.copy_into.
    destruct (Z.leb_spec 0 offset), (Z.leb_spec offset (offset + 32)),
      (Z.leb_spec (offset + 32) (Memory.Len m2)); simpl; eauto; lia.
  - unfold Memory.copy_into in H1.
    destruct (Z.leb_spec 0 offset), (Z.leb_spec offset (offset + 32)),
      (Z.leb_spec (offset + 32) (Memory.Len m1)); simpl in H1; done || lia.
Qed.

Lemma ctx_Memory_run c p k : at_frame c p k -> ctx_Memory c = Ok (Call.Memory_ k) c.
Proof. intros H. unfold ctx_Memory. munfold. by rewrite (ctx_Call_run c p k). Qed.

Lemma memory_Set32_run c p k offset val m' :
  at_frame c p k -> Memory.Set32 offset val (Call.Memory_ k) = Some m' ->
  memory_Set32 offset val c = Ok tt (with_Call p (Call.set_Memory m' k) c).
Proof.
  intros Hf Hm. unfold memory_Set32. munfold. rewrite (ctx_Memory_run c p k Hf), Hm.
  simpl. by rewrite (update_Call_run _ c p k Hf).
Qed.

Lemma memory_GetPtr_run c p k offset size bs :
  at_frame c p k -> Memory.GetPtr offset size (Call.Memory_ k) = Some bs ->
  memory_GetPtr offset size c = Ok bs c.
Proof.
  intros Hf Hm. unfold memory_GetPtr. munfold. by rewrite (ctx_Memory_run c p k Hf), Hm.
Qed.

(** MSTORE then MLOAD: storing the word [val] at [ptr] and loading from
    [ptr] again gives [val] back.  ([ptr] is within the [int64] offsets that
    MLOAD can read.) *)
Theorem MSTORE_then_MLOAD (c : Context.t) (p : nat) (k : Call.t)
    (rest : list Z) (val ptr : Z) :
  at_frame c p k -> Call.Stack_ k = rest ++ [val; ptr] ->
  uint256.valid val -> 0 <= ptr -> ptr + 32 < 2 ^ 63 ->
  exists c1 c2 c3,
    opMstore c = Ok None c1 /\ cur_Stack c1 = Some rest /\
    stack_Push ptr c1 = Ok tt c2 /\
    opMload c2 = Ok None c3 /\ cur_Stack c3 = Some (rest ++ [val]).
Proof.
  intros Hf Hst Hval Hptr Hend.
  assert (Hst' : Call.Stack_ k = (rest ++ [val]) ++ [ptr]) by (by rewrite <- app_assoc).
  pose proof (stack_Pop_run c p k _ ptr Hf Hst') as E1.
  set (k1 := Call.set_Stack (rest ++ [val]) k) in *. set (c1 := with_Call p k1 c) in *.
  assert (Hf1 : at_frame c1 p k1) by (by eapply at_frame_with_Call).
  pose proof (stack_Pop_run c1 p k1 rest val Hf1 eq_refl) as E2.
  set (k2 := Call.set_Stack rest k1) in *. set (c2 := with_Call p k2 c1) in *.
  assert (Hf2 : at_frame c2 p k2) by (by eapply at_frame_with_Call).
  assert (Hu : uint256.Uint64 ptr = ptr) by (apply Z.mod_small; lia).
  destruct (Set32_succeeds ptr val (Call.Memory_ k2)) as [m' Hm']; [lia..|].
  pose proof (memory_Set32_run c2 p k2 ptr val m' Hf2 Hm') as E3.
  set (k3 := Call.set_Memory m' k2) in *. set (c3 := with_Call p k3 c2) in *.
  assert (Hf3 : at_frame c3 p k3) by (by eapply at_frame_with_Call).
  pose proof (stack_Push_run c3 p k3 ptr Hf3) as E4.
  set (k4 := Call.set_Stack (Call.Stack_ k3 ++ [ptr]) k3) in *.
  set (c4 := with_Call p k4 c3) in *.
  assert (Hf4 : at_frame c4 p k4) by (by eapply at_frame_with_Call).
  assert (Hst4 : Call.Stack_ k4 = rest ++ [ptr]) by done.
  destruct (peek_poke_run c4 p k4 rest ptr val Hf4 Hst4) as [E5 E6].
  assert (Hi : i64 ptr = ptr).
  { unfold i64. rewrite Z.mod_small by lia. destruct (Z.ltb_spec ptr (2 ^ 63)); lia. }
  assert (E7 : memory_GetPtr ptr 32 c4 = Ok (uint256.Bytes32 val) c4).
  { apply (memory_GetPtr_run c4 p k4); [done|]. simpl.
    by apply (Set32_window ptr val (Call.Memory_ k2)). }
  exists c3, c4, (with_Call p (Call.set_Stack (rest ++ [val]) k4) c4).
  split; [|split; [|split; [|split]]].
  - unfold opMstore. munfold. rewrite E1, E2, Hu. by rewrite E3.
  - unfold cur_Stack. by rewrite (cur_Call_at_frame _ _ _ Hf3).
  - done.
  - unfold opMload. munfold. rewrite E5, Hu, Hi, E7. cbn beta iota.
    rewrite (SetBytes_Bytes32 val Hval). by rewrite E6.
  - pose proof (at_frame_with_Call _ _ _ (Call.set_Stack (rest ++ [val]) k4) Hf4) as Hf5.
    unfold cur_Stack. by rewrite (cur_Call_at_frame _ _ _ Hf5).
Qed.

Lemma MSTORE_then_MLOAD_witness :
  exists c1 c2 c3,
    opMstore (Samples.context_of [] [0xdeadbeef; 64] 0 100) = Ok None c1 /\
    cur_Stack c1 = Some [] /\
    stack_Push 64 c1 = Ok tt c2 /\
    opMload c2 = Ok None c3 /\ cur_Stack c3 = Some ([] ++ [0xdeadbeef]).
Proof.
  apply (MSTORE_then_MLOAD (Samples.context_of [] [0xdeadbeef; 64] 0 100) 0%nat
           (Samples.call_of [0xdeadbeef; 64] 0) [] 0xdeadbeef 64).
  - split; reflexivity.
  - reflexivity.
  - unfold uint256.valid. vm_compute. split; [discriminate|reflexivity].
  - lia.
  - lia.
Defined.

(** ** hook.go: attaching, and where a phase's error comes from *)

Section HookChainLaws.
Context {call line HS : Type}.
Implicit Types (hks : Hooks.t call line HS) (h : Hooks.hook call line HS).
Implicit Types (cb : Hooks.hook call line HS -> call -> line -> HS -> HS * option error).

(** [Attach] puts the hook at the end of the chain: in both phases it runs
    after all the hooks attached before, on the state they left, and its
    error, when it returns one, replaces theirs.  [Detach] at the position it
    was attached at gives the old chain back. *)
Theorem Attach_runs_last hks h c l s :
  Hooks.PreRunAll (Hooks.Attach h hks) c l s =
    (let '(s1, e1) := Hooks.PreRunAll hks c l s in
     let '(s2, e2) := Hooks.PreRun h c l s1 in
     (s2, match e2 with Some _ => e2 | None => e1 end)) /\
  Hooks.PostRunAll (Hooks.Attach h hks) c l s =
    (let '(s1, e1) := Hooks.PostRunAll hks c l s in
     let '(s2, e2) := Hooks.PostRun h c l s1 in
     (s2, match e2 with Some _ => e2 | None => e1 end)) /\
  Hooks.List (Hooks.Attach h hks) !! length hks = Some h /\
  Hooks.Detach (Z.of_nat (length hks)) (Hooks.Attach h hks) = hks.
Proof.
  unfold Hooks.PreRunAll, Hooks.PostRunAll, Hooks.Attach, Hooks.List.
  split; [apply range_arr_snoc|]. split; [apply range_arr_snoc|]. split.
  - by rewrite lookup_app_r, Nat.sub_diag.
  - unfold Hooks.Detach. rewrite length_app. simpl.
    destruct (Z.leb_spec 0 (Z.of_nat (length hks))); [|lia].
    destruct (Z.ltb_spec (Z.of_nat (length hks)) (Z.of_nat (length hks + 1))); [|lia].
    simpl. rewrite Nat2Z.id, take_app_length.
    rewrite drop_ge by (rewrite length_app; simpl; lia). apply app_nil_r.
Qed.

Lemma last_omap_None (rs : list (HS * option error)) :
  last (omap snd rs) = None <-> forall r, r ∈ rs -> r.2 = None.
Proof.
  rewrite last_None. induction rs as [|[s0 e0] rs IH]; simpl.
  - split; [intros _ r Hr; by apply elem_of_nil in Hr|done].
  - destruct e0 as [e0|]; simpl.
    + split; [done|]. intros H. specialize (H (s0, Some e0)). simpl in H.
      discriminate H. by left.
    + rewrite IH. split.
      * intros H r Hr. apply elem_of_cons in Hr as [->|Hr]; [done|by apply H].
      * intros H r Hr. apply H. by right.
Qed.

Lemma last_omap_Some (rs : list (HS * option error)) (e : error) :
  last (omap snd rs) = Some e ->
  exists (i : nat) s0, rs !! i = Some (s0, Some e) /\
    forall (j : nat) r, (i < j)%nat -> rs !! j = Some r -> r.2 = None.
Proof.
  induction rs as [|[s0 e0] rs IH] using rev_ind; [done|].
  rewrite omap_app. simpl. destruct e0 as [e0|]; simpl.
  - rewrite last_snoc. intros [= ->]. exists (length rs), s0. split.
    + by rewrite lookup_app_r, Nat.sub_diag.
    + intros j r Hj Hr. apply lookup_lt_Some in Hr. rewrite length_app in Hr. simpl in Hr. lia.
  - rewrite app_nil_r. intros H. destruct (IH H) as (i & si & Hi & Hlater).
    exists i, si. split; [by apply lookup_app_l_Some|].
    intros j r Hj Hr. destruct (decide (j < length rs)%nat).
    + rewrite lookup_app_l in Hr by done. by eapply Hlater.
    + rewrite lookup_app_r in Hr by lia.
      destruct (j - length rs)%nat; simpl in Hr; [by injection Hr as <-|done].
Qed.

Lemma range_arr_error_provenance cb hks c l s :
  ((Hooks.range_arr cb hks c l None s).2 = None <->
   forall r, r ∈ Hooks.call_each cb hks c l s -> r.2 = None) /\
  (forall e, (Hooks.range_arr cb hks c l None s).2 = Some e ->
     exists (i : nat) h, hks !! i = Some h /\
       (cb h c l (Hooks.last_state s (Hooks.call_each cb (take i hks) c l s))).2 = Some e /\
       forall (j : nat) r, (i < j)%nat ->
         Hooks.call_each cb hks c l s !! j = Some r -> r.2 = None).
Proof.
  rewrite range_arr_spec. simpl. split.
  - unfold Hooks.last_error. rewrite <- last_omap_None.
    by destruct (last (omap snd _)).
  - intros e He.
    assert (Hl : Hooks.last_error (Hooks.call_each cb hks c l s) = Some e)
      by (by destruct (Hooks.last_error _)).
    apply last_omap_Some in Hl as (i & s0 & Hi & Hlater).
    assert (Hlt : (i < length hks)%nat)
      by (apply lookup_lt_Some in Hi; by rewrite call_each_length in Hi).
    destruct (lookup_lt_is_Some_2 hks i Hlt) as [h Hh].
    exists i, h. split; [done|]. split; [|done].
    rewrite (call_each_lookup cb hks c l s i h Hh) in Hi. injection Hi as Hi.
    by rewrite Hi.
Qed.

(** A phase returns nil exactly when every hook of the chain returned nil;
    and an error that a phase returns was returned by one of the hooks (called
    on the state its predecessors left), with every hook attached after it
    returning nil.  Stated for the PreRun phase and for the PostRun phase. *)
Theorem phase_error_comes_from_a_hook hks c l s :
  (((Hooks.PreRunAll hks c l s).2 = None <->
    forall r, r ∈ Hooks.call_each Hooks.PreRun hks c l s -> r.2 = None) /\
   (forall e, (Hooks.PreRunAll hks c l s).2 = Some e ->
      exists (i : nat) h, hks !! i = Some h /\
        (Hooks.PreRun h c l
           (Hooks.last_state s (Hooks.call_each Hooks.PreRun (take i hks) c l s))).2 = Some e /\
        forall (j : nat) r, (i < j)%nat ->
          Hooks.call_each Hooks.PreRun hks c l s !! j = Some r -> r.2 = None)) /\
  (((Hooks.PostRunAll hks c l s).2 = None <->
    forall r, r ∈ Hooks.call_each Hooks.PostRun hks c l s -> r.2 = None) /\
   (forall e, (Hooks.PostRunAll hks c l s).2 = Some e ->
      exists (i : nat) h, hks !! i = Some h /\
        (Hooks.PostRun h c l
           (Hooks.last_state s (Hooks.call_each Hooks.PostRun (take i hks) c l s))).2 = Some e /\
        forall (j : nat) r, (i < j)%nat ->
          Hooks.call_each Hooks.PostRun hks c l s !! j = Some r -> r.2 = None)).
Proof.
  split; [apply (range_arr_error_provenance Hooks.PreRun)
         |apply (range_arr_error_provenance Hooks.PostRun)].
Qed.

End HookChainLaws.

(** ** hooks/breakpoint.go *)

Section Breakpoints.
Context {HS : Type}.

Lemma range_arr_BpPc (bps : list (option Address * Z)) call line err (s : HS) :
  Hooks.range_arr Hooks.PreRun ((fun bp => hooks.BpPc bp.1 bp.2) <$> bps) call line err s =
  (s, if existsb (fun bp => negb (hooks.other_contract bp.1 call) && (Line.Pc line =? bp.2)) bps
      then Some (errors_Wrap ErrBreakpoint "@ Pc") else err).
Proof.
  revert err. induction bps as [|[a pc] bps IH]; intros err; [done|].
  simpl. destruct (hooks.other_contract a call); simpl; [apply IH|].
  destruct (Line.Pc line =? pc); simpl; rewrite IH; by destruct (existsb _ bps).
Qed.

(** With only pc-breakpoints attached, the PreRun phase reports the
    breakpoint error exactly when one of them is set at the pc of the line
    (and, when it names a contract, in the code that is running); the PostRun
    phase never reports anything; neither touches the hook state. *)
Theorem BpPc_chain_breaks_iff_some_matches (bps : list (option Address * Z))
    (call : Context.t * nat) (line : Line) (s : HS) :
  Hooks.PreRunAll ((fun bp => hooks.BpPc bp.1 bp.2) <$> bps) call line s =
    (s, if existsb (fun bp => negb (hooks.other_contract bp.1 call)
                              && (Line.Pc line =? bp.2)) bps
        then Some (errors_Wrap ErrBreakpoint "@ Pc") else None) /\
  Hooks.PostRunAll ((fun bp => hooks.BpPc bp.1 bp.2) <$> bps) call line s = (s, None).
Proof.
  split; [apply range_arr_BpPc|]. unfold Hooks.PostRunAll.
  generalize (@None error). induction bps as [|bp bps IH]; intros err; [done|]. apply IH.
Qed.

End Breakpoints.

(** ** asm.go: what a listing looks like *)

Lemma row_start_app (rows : list Line) (l : Line) (i : nat) :
  (i <= length rows)%nat -> row_start (rows ++ [l]) i = row_start rows i.
Proof.
  destruct i as [|j]; [done|]. intros Hj. simpl.
  by rewrite lookup_app_l by lia.
Qed.

Lemma row_start_last (rows : list Line) (l : Line) :
  row_start (rows ++ [l]) (S (length rows)) = line_end l.
Proof. simpl. by rewrite lookup_app_r, Nat.sub_diag. Qed.

Lemma row_start_mono (rows : list Line) :
  (forall (i : nat) l, rows !! i = Some l ->
     Line.Pc l = row_start rows i /\ 0 <= OpSize (Line.Op l)) ->
  forall n : nat, (n <= length rows)%nat ->
    Z.of_nat n <= row_start rows n /\
    forall (i : nat) l, (i < n)%nat -> rows !! i = Some l -> line_end l <= row_start rows n.
Proof.
  intros Hrows. induction n as [|n IHn]; intros Hn.
  - split; [done|]. intros; lia.
  - destruct IHn as [IH1 IH2]; [lia|].
    destruct (lookup_lt_is_Some_2 rows n ltac:(lia)) as [ln Hln].
    destruct (Hrows _ _ Hln) as [Hst Hsz]. simpl. rewrite Hln. simpl. split.
    + unfold line_end. lia.
    + intros i l Hi Hl. destruct (decide (i = n)) as [->|Hne]; [by simplify_eq|].
      specialize (IH2 i l ltac:(lia) Hl). unfold line_end in *. lia.
Qed.

(** The invariant of the scan loop and what it gives at the return. *)
Lemma Disasm_loop_listing (fuel : nat) (code : list byte) (pc : Z) (a : Asm.t)
    (e : option error) (a' : Asm.t) (w : list Asm.warning) :
  Z.of_nat (length code) < 2 ^ 63 ->
  pc = row_start (Asm.sequence a) (length (Asm.sequence a)) ->
  pc <= Z.of_nat (length code) ->
  (forall (i : nat) l, Asm.sequence a !! i = Some l -> listed_at code a i l) ->
  (forall pc' l, Asm.mapPc a !! pc' = Some l ->
     Line.Pc l = pc' /\ Asm.sequence a !! Z.to_nat (Line.LineNum l) = Some l) ->
  Asm.Disasm_loop fuel code pc a = Asm.Returned e a' w ->
  e = None /\
  (forall (i : nat) l, Asm.sequence a' !! i = Some l -> listed_at code a' i l) /\
  (forall pc' l, Asm.mapPc a' !! pc' = Some l ->
     Line.Pc l = pc' /\ Asm.sequence a' !! Z.to_nat (Line.LineNum l) = Some l) /\
  (w = [] ->
     row_start (Asm.sequence a') (length (Asm.sequence a')) = Z.of_nat (length code)).
Proof.
  intros Hlen. revert pc a.
  induction fuel as [|fuel IH]; intros pc a Hpc Hle Hrows Hmap;
    cbn [Asm.Disasm_loop]; rewrite u64_small by lia.
  - destruct (Z.ltb_spec pc (Z.of_nat (length code))); [done|].
    intros [= <- <- <-]. do 3 (split; [done|]). intros _. lia.
  - assert (Hwf : forall (i : nat) l, Asm.sequence a !! i = Some l ->
              Line.Pc l = row_start (Asm.sequence a) i /\ 0 <= OpSize (Line.Op l)).
    { intros i l Hl. destruct (Hrows _ _ Hl) as (_ & Hst & _ & (b & _ & Hopl) & _).
      split; [done|]. by destruct (OpTable_OpSize _ _ Hopl). }
    destruct (row_start_mono _ Hwf (length (Asm.sequence a)) ltac:(lia)) as [Hcount Hbefore'].
    rewrite <- Hpc in Hcount, Hbefore'.
    assert (Hbefore : forall (i : nat) l, Asm.sequence a !! i = Some l -> line_end l <= pc).
    { intros i l Hl. apply (Hbefore' i); [by eapply lookup_lt_Some|done]. }
    destruct (Z.ltb_spec pc (Z.of_nat (length code))) as [Hlt|].
    2:{ intros [= <- <- <-]. do 3 (split; [done|]). intros _. lia. }
    destruct (code !! Z.to_nat pc) as [opCode|] eqn:Hat.
    2:{ apply lookup_ge_None in Hat. lia. }
    destruct (OpTable (byte_to_Z opCode)) as [op|] eqn:Hop.
    2:{ intros [= <- <- <-]. by do 3 (split; [done|]). }
    pose proof (OpTable_OpSize _ _ Hop) as Hsize.
    rewrite u64_small by lia.
    destruct (Z.ltb_spec (Z.of_nat (length code)) (pc + 1 + OpSize op)) as [|Hfit].
    { intros [= <- <- <-]. by do 3 (split; [done|]). }
    set (line := {| Line.Pc := pc; Line.LineNum := _; Line.Op := op; Line.Data := _ |}).
    apply IH; cbn [Asm.sequence Asm.mapPc].
    + rewrite length_app. simpl. rewrite Nat.add_1_r, row_start_last.
      unfold line_end. simpl. reflexivity.
    + lia.
    + intros i l Hl. apply lookup_app_Some in Hl as [Hl|[Hge Hl]].
      * destruct (Hrows _ _ Hl) as (H1 & H2 & H3 & H4 & H5 & H6 & H7 & H8).
        assert (Hi : (i < length (Asm.sequence a))%nat) by (by eapply lookup_lt_Some).
        repeat split; try done.
        -- cbn [Asm.sequence]. rewrite row_start_app by lia. done.
        -- unfold Asm.LineAtPc in *. cbn [Asm.mapPc].
           rewrite lookup_insert_ne; [done|].
           pose proof (Hbefore _ _ Hl) as Hb. destruct H4 as (b & _ & Hopl).
           pose proof (OpTable_OpSize _ _ Hopl). unfold line_end in Hb. lia.
      * destruct (i - length (Asm.sequence a))%nat eqn:Hd; [|by destruct n].
        simpl in Hl. injection Hl as <-.
        assert (i = length (Asm.sequence a)) as -> by lia.
        repeat split; cbn [Line.Pc Line.LineNum Line.Op Line.Data line Asm.sequence].
        -- apply u64_small. lia.
        -- rewrite row_start_app by lia. done.
        -- unfold Asm.LineAtPc. cbn [Asm.mapPc]. by rewrite lookup_insert_eq.
        -- eauto.
        -- rewrite length_take, length_drop. lia.
        -- lia.
        -- unfold line_end. simpl. lia.
    + intros pc' l Hl. destruct (decide (pc' = pc)) as [->|Hne].
      * rewrite lookup_insert_eq in Hl. injection Hl as <-. split; [done|].
        cbn [Line.LineNum line].
        assert (Hn : u64 (Z.of_nat (length (Asm.sequence a))) = Z.of_nat (length (Asm.sequence a))).
        { apply u64_small. lia. }
        rewrite Hn, Nat2Z.id. by rewrite lookup_app_r, Nat.sub_diag.
      * rewrite lookup_insert_ne in Hl by done.
        destruct (Hmap _ _ Hl) as [H1 H2]. split; [done|].
        by apply lookup_app_l_Some.
Qed.

Lemma Disasm_listing (code : list byte) (e : option error)
    (a : Asm.t) (w : list Asm.warning) :
  Z.of_nat (length code) < 2 ^ 63 ->
  Asm.Disasm code = Asm.Returned e a w ->
  exists code', Asm.strip_metadata code = Some code' /\ e = None /\
    (forall (i : nat) l, Asm.sequence a !! i = Some l -> listed_at code' a i l) /\
    (forall pc l, Asm.LineAtPc pc a = inr l ->
       Line.Pc l = pc /\ Asm.AtRow (Line.LineNum l) a = Some l) /\
    (w = [] ->
       row_start (Asm.sequence a) (length (Asm.sequence a)) = Z.of_nat (length code')).
Proof.
  intros Hlen. unfold Asm.Disasm.
  destruct (Asm.strip_metadata code) as [code'|] eqn:Hs; [|done].
  intros Hrun. exists code'. split; [done|].
  pose proof (strip_metadata_length _ _ Hs) as Hl'.
  apply Disasm_loop_listing in Hrun as (He & Hrows & Hmap & Hcov); simpl; try done; try lia.
  split; [done|]. split; [done|]. split; [|done].
  intros pc l H. unfold Asm.LineAtPc in H.
  destruct (Asm.mapPc a !! pc) as [l'|] eqn:Hl; [|done].
  injection H as ->. destruct (Hmap _ _ Hl) as [Hpc Hrow]. split; [done|].
  unfold Asm.AtRow. destruct (Hrows _ _ Hrow) as (Hn & _).
  destruct (Z.leb_spec 0 (Line.LineNum l)); [done|lia].
Qed.

(** The listing of [Disasm]: row [i] holds the line numbered [i]; the first
    line starts at pc 0 and every other line where the line before ends; a
    line's operation is the table's entry for the code byte at its pc and its
    data are the [OpSize] bytes behind that byte; [LineAtPc] finds exactly
    the lines of the listing, each under its own pc; and when no warning was
    printed the lines cover the code up to the metadata block. *)
Theorem Disasm_listing_is_consistent (code : list byte) (e : option error)
    (a : Asm.t) (w : list Asm.warning) :
  Z.of_nat (length code) < 2 ^ 63 ->
  Asm.Disasm code = Asm.Returned e a w ->
  exists code', Asm.strip_metadata code = Some code' /\ e = None /\
    (forall (i : nat) l, Asm.sequence a !! i = Some l -> listed_at code' a i l) /\
    (forall pc l, Asm.LineAtPc pc a = inr l ->
       Line.Pc l = pc /\ Asm.AtRow (Line.LineNum l) a = Some l) /\
    (w = [] ->
       row_start (Asm.sequence a) (length (Asm.sequence a)) = Z.of_nat (length code')).
Proof. apply Disasm_listing. Qed.

(** [Disasm] returns (nil, always) exactly when the code has at most two
    bytes or the metadata block that its last two bytes announce fits into
    the code; in every other case it panics on the slice that strips the
    block.  The scan itself never panics and ends on every code. *)
Theorem Disasm_returns_iff_the_metadata_fits (code : list byte) :
  Z.of_nat (length code) < 2 ^ 63 ->
  ((exists e a w, Asm.Disasm code = Asm.Returned e a w) <->
   (Z.of_nat (length code) <= 2 \/ Asm.meta_len code + 2 <= Z.of_nat (length code))) /\
  ((forall e a w, Asm.Disasm code <> Asm.Returned e a w) -> Asm.Disasm code = Asm.Panicked).
Proof.
  intros Hlen. split; [split|].
  - intros (e & a & w & H). unfold Asm.Disasm, Asm.strip_metadata in H.
    destruct (Z.ltb_spec 2 (Z.of_nat (length code))); [|lia].
    destruct (Z.leb_spec 0 (Z.of_nat (length code) - Asm.meta_len code - 2)); [lia|done].
  - intros Hfit. destruct (Disasm_returns_when_metadata_fits code Hlen Hfit) as (a & w & H).
    eauto.
  - intros Hno. unfold Asm.Disasm in *.
    destruct (Asm.strip_metadata code) as [code'|] eqn:Hs; [|done].
    pose proof (strip_metadata_length _ _ Hs).
    destruct (Disasm_loop_returns (length code') code' 0 Asm.Reset) as (a & w & H');
      [lia..|].
    by destruct (Hno None a w).
Qed.

Lemma Disasm_returns_iff_the_metadata_fits_witness :
  ((exists e a w, Asm.Disasm Samples.push_add_stop_meta = Asm.Returned e a w) <->
   (Z.of_nat (length Samples.push_add_stop_meta) <= 2 \/
    Asm.meta_len Samples.push_add_stop_meta + 2
    <= Z.of_nat (length Samples.push_add_stop_meta))) /\
  ((forall e a w, Asm.Disasm Samples.push_add_stop_meta <> Asm.Returned e a w) ->
   Asm.Disasm Samples.push_add_stop_meta = Asm.Panicked).
Proof. apply Disasm_returns_iff_the_metadata_fits. vm_compute. reflexivity. Defined.

(** PUSH1 3; PUSH1 4; ADD; STOP and an empty metadata block: four lines. *)
Lemma Disasm_listing_is_consistent_witness :
  exists a, Asm.Disasm Samples.push_add_stop_meta = Asm.Returned None a [] /\
  exists code', Asm.strip_metadata Samples.push_add_stop_meta = Some code' /\
    None = @None error /\
    (forall (i : nat) l, Asm.sequence a !! i = Some l -> listed_at code' a i l) /\
    (forall pc l, Asm.LineAtPc pc a = inr l ->
       Line.Pc l = pc /\ Asm.AtRow (Line.LineNum l) a = Some l) /\
    ([] = @nil Asm.warning ->
       row_start (Asm.sequence a) (length (Asm.sequence a)) = Z.of_nat (length code')).
Proof.
  eexists. split; [vm_compute; reflexivity|].
  apply Disasm_listing_is_consistent; [vm_compute; reflexivity|vm_compute; reflexivity].
Defined.

(** ** context.go: counting the rounds of [Run] *)

Section RunLaws.
Variable Sha3 : list byte -> list byte.
Variable PrecompiledContractsBerlin : Address -> option (list byte -> error + list byte).
Context {HS : Type}.
Implicit Types (hks : Hooks.t (Context.t * nat) Line HS) (s : HS).

Lemma i64_pred (steps : Z) : 0 < steps < 2 ^ 63 -> i64 (steps - 1) = steps - 1.
Proof.
  intros H. unfold i64. rewrite Z.mod_small by lia.
  destruct (Z.ltb_spec (steps - 1) (2 ^ 63)); [done|lia].
Qed.

(** A round takes one step off [steps], so the bound on the rounds is never
    hit when it is at least [steps]; any two such bounds give the same run. *)
Lemma Run_loop_fuel (fuel1 fuel2 : nat) hks fs (steps : Z) (c : Context.t) s :
  0 <= steps < 2 ^ 63 -> steps <= Z.of_nat fuel1 -> steps <= Z.of_nat fuel2 ->
  Run_loop Sha3 PrecompiledContractsBerlin fuel1 hks fs steps c s =
  Run_loop Sha3 PrecompiledContractsBerlin fuel2 hks fs steps c s /\
  Run_loop Sha3 PrecompiledContractsBerlin fuel1 hks fs steps c s <> Run_out_of_fuel.
Proof.
  revert fuel2 fs steps c s.
  induction fuel1 as [|fuel1 IH]; intros fuel2 fs steps c s Hs H1 H2.
  - assert (steps = 0) as -> by lia. destruct fuel2; done.
  - destruct (Z.eqb_spec steps 0) as [->|Hne].
    { destruct fuel2; done. }
    destruct fuel2 as [|fuel2]; [lia|].
    cbn [Run_loop]. destruct (Z.eqb_spec steps 0) as [|_]; [done|].
    destruct (Context.IsDone c); [done|]. cbn [negb andb].
    destruct (Call_ptr c) as [call ?|]; [|done].
    destruct (ctx_Line c) as [[e|line] ?|]; [done| |done].
    destruct (OpTable _) as [op|]; [|done].
    destruct (Hooks.PreRunAll _ _ _ _) as [s1 e].
    destruct (bool_decide (e ≠ None) && negb fs); [done|].
    destruct (Exec_of _ _ _ _) as [[e'|] cx|]; [done| |done].
    destruct (Hooks.PostRunAll _ _ _ _) as [s2 [e2|]]; [done|].
    rewrite i64_pred by lia. apply IH; lia.
Qed.

(** [Run(steps)] with [steps >= 0] makes at most [steps] rounds: it comes
    back (with nil, an error or a panic) within that many rounds, whatever the
    code and the hooks do. *)
Theorem Run_makes_at_most_steps_rounds (fuel : nat) hks (steps : Z) (c : Context.t) s :
  0 <= steps < 2 ^ 63 -> steps <= Z.of_nat fuel ->
  Run Sha3 PrecompiledContractsBerlin fuel hks steps c s =
  Run Sha3 PrecompiledContractsBerlin (Z.to_nat steps) hks steps c s /\
  Run Sha3 PrecompiledContractsBerlin (Z.to_nat steps) hks steps c s <> Run_out_of_fuel.
Proof.
  intros Hs Hf. unfold Run. split.
  - apply Run_loop_fuel; lia.
  - apply (Run_loop_fuel _ (Z.to_nat steps)); lia.
Qed.

Lemma Run_loop_compose (fuel : nat) hks fs (a b : Z) (c : Context.t) s :
  0 < a -> 0 <= b -> a + b < 2 ^ 63 -> a + b <= Z.of_nat fuel ->
  Run_loop Sha3 PrecompiledContractsBerlin fuel hks fs (a + b) c s =
  match Run_loop Sha3 PrecompiledContractsBerlin fuel hks fs a c s with
  | Run_returned None c' s' =>
      Run_loop Sha3 PrecompiledContractsBerlin fuel hks false b c' s'
  | o => o
  end.
Proof.
  revert fs a c s.
  induction fuel as [|fuel IH]; intros fs a c s Ha Hb Hab Hf; [lia|].
  set (K := Run_loop Sha3 PrecompiledContractsBerlin (S fuel) hks false b).
  cbn [Run_loop].
  destruct (Z.eqb_spec (a + b) 0) as [|_]; [lia|].
  destruct (Z.eqb_spec a 0) as [|_]; [lia|].
  destruct (Context.IsDone c) eqn:Hdone; cbn [negb andb].
  { unfold K. cbn [Run_loop]. rewrite Hdone. by rewrite andb_false_r. }
  destruct (Call_ptr c) as [call ?|]; [|done].
  destruct (ctx_Line c) as [[e|line] ?|]; [done| |done].
  destruct (OpTable _) as [op|]; [|done].
  destruct (Hooks.PreRunAll _ _ _ _) as [s1 e].
  destruct (bool_decide (e ≠ None) && negb fs) eqn:Hskip.
  { destruct e; [done|]. by rewrite bool_decide_eq_false_2 in Hskip by (by intros H). }
  destruct (Exec_of _ _ _ _) as [[e'|] cx|]; [done| |done].
  destruct (Hooks.PostRunAll _ _ _ _) as [s2 [e2|]]; [done|].
  rewrite !i64_pred by lia.
  set (c2 := if negb (_ =? vm.JUMP) && _ then _ else cx).
  destruct (decide (a = 1)) as [->|Hne].
  - replace (1 + b - 1) with b by lia. replace (1 - 1) with 0 by lia.
    assert (Run_loop Sha3 PrecompiledContractsBerlin fuel hks false 0 c2 s2
            = Run_returned None c2 s2) as -> by (by destruct fuel).
    unfold K. apply Run_loop_fuel; lia.
  - replace (a + b - 1) with ((a - 1) + b) by lia.
    rewrite IH by lia.
    destruct (Run_loop _ _ fuel hks false (a - 1) c2 s2) as [[e3|] c3 s3| |]; try done.
    unfold K. apply Run_loop_fuel; lia.
Qed.

(** Stepping [a + b] lines is stepping [a] lines and, when that returned nil,
    going on for [b] more rounds of the same loop -- rounds that are not a
    first round, so that a PreRun error (a breakpoint) at the line reached
    after [a] steps is returned and not dropped, which is where [Run(a + b)]
    differs from [Run(a)] followed by [Run(b)]. *)
Theorem Run_steps_add (fuel : nat) hks (a b : Z) (c : Context.t) s :
  0 < a -> 0 <= b -> a + b < 2 ^ 63 -> a + b <= Z.of_nat fuel ->
  Run Sha3 PrecompiledContractsBerlin fuel hks (a + b) c s =
  match Run Sha3 PrecompiledContractsBerlin fuel hks a c s with
  | Run_returned None c' s' =>
      Run_loop Sha3 PrecompiledContractsBerlin fuel hks false b c' s'
  | o => o
  end.
Proof. apply Run_loop_compose. Qed.

End RunLaws.

(** Two steps of the sample program with a breakpoint at pc 2, bound 10. *)
Lemma Run_makes_at_most_steps_rounds_witness :
  Run Samples.Sha3 Samples.precompiles 10 Samples.bp2 2
    (Samples.context_of Samples.push_add_stop [] 0 100) tt =
  Run Samples.Sha3 Samples.precompiles (Z.to_nat 2) Samples.bp2 2
    (Samples.context_of Samples.push_add_stop [] 0 100) tt /\
  Run Samples.Sha3 Samples.precompiles (Z.to_nat 2) Samples.bp2 2
    (Samples.context_of Samples.push_add_stop [] 0 100) tt <> Run_out_of_fuel.
Proof. apply Run_makes_at_most_steps_rounds; simpl; lia. Defined.

(** One step and three more of the sample program, breakpoint at pc 2: the
    run of four steps stops on the breakpoint after the first. *)
Lemma Run_steps_add_witness :
  Run Samples.Sha3 Samples.precompiles 10 Samples.bp2 (1 + 3)
    (Samples.context_of Samples.push_add_stop [] 0 100) tt =
  match Run Samples.Sha3 Samples.precompiles 10 Samples.bp2 1
          (Samples.context_of Samples.push_add_stop [] 0 100) tt with
  | Run_returned None c' s' =>
      Run_loop Samples.Sha3 Samples.precompiles 10 Samples.bp2 false 3 c' s'
  | o => o
  end.
Proof. apply Run_steps_add; simpl; lia. Defined.

(** ** PUSHn, between the listing and the interpreter *)

Lemma makePush_rows (op : Operation) (n : Z) :
  In op OpTable_rows -> Exec op = fn.makePush n -> OpSize op = n /\ 1 <= n <= 32.
Proof.
  intros Hin Hex.
  assert (Hall : forallb (fun op => match Exec op with
                                    | fn.makePush n => (OpSize op =? n) && (1 <=? n) && (n <=? 32)
                                    | _ => true
                                    end) OpTable_rows = true) by (vm_compute; reflexivity).
  rewrite forallb_forall in Hall. specialize (Hall op Hin). rewrite Hex in Hall.
  apply andb_prop in Hall as [Hall H3]. apply andb_prop in Hall as [H1 H2]. lia.
Qed.

Lemma take_drop_take {A} (l : list A) (n m h : nat) :
  (m + n <= h)%nat -> take n (drop m (take h l)) = take n (drop m l).
Proof.
  intros H. apply list_eq. intros i.
  destruct (decide (i < n)%nat) as [Hi|Hi].
  - rewrite !lookup_take_lt, !lookup_drop by done. rewrite lookup_take_lt by lia. done.
  - rewrite !lookup_take_ge by lia. done.
Qed.

Lemma strip_metadata_prefix (code code' : list byte) :
  Asm.strip_metadata code = Some code' -> code' = take (length code') code.
Proof.
  unfold Asm.strip_metadata. destruct (_ <? _).
  - destruct (_ <=? _); [|done]. intros [= <-].
    rewrite length_take.
    destruct (Nat.le_ge_cases (Z.to_nat (Z.of_nat (length code) - Asm.meta_len code - 2))
                (length code)) as [Hle|Hge].
    + by rewrite Nat.min_l.
    + rewrite Nat.min_r by done. by rewrite !take_ge.
  - intros [= <-]. by rewrite take_ge.
Qed.

Lemma bump_Pc_at_frame (c : Context.t) (p : nat) (k : Call.t) :
  at_frame c p k -> bump_Pc p c = with_Call p (Call.set_Pc (u64 (Call.Pc k + 1)) k) c.
Proof. intros [_ Hk]. unfold bump_Pc. by rewrite Hk. Qed.

Section PushLaws.
Variable Sha3 : list byte -> list byte.
Variable PrecompiledContractsBerlin : Address -> option (list byte -> error + list byte).

Lemma makePush_listed (c : Context.t) (p : nat) (k : Call.t) (contract : Contract.t)
    (bin : list byte) (l : Line) (n : Z) :
  Z.of_nat (length bin) < 2 ^ 63 ->
  at_frame c p k ->
  Context.Contracts c !! Call.CodeAddress k = Some contract ->
  Code.Set_ bin (Contract.Code_ NewContract) = Some (None, Contract.Code_ contract) ->
  ctx_Line c = Ok (inr l) c ->
  Exec (Line.Op l) = fn.makePush n ->
  OpTable (OpCode (Line.Op l)) = Some (Line.Op l) /\
  Line.Pc l = Call.Pc k /\ OpSize (Line.Op l) = n /\ 0 <= Call.Pc k /\
  line_end l < 2 ^ 63 /\ 1 <= n <= 32 /\
  makePush n c =
    Ok None (with_Call p (Call.set_Pc (u64 (Call.Pc k + n))
                            (Call.set_Stack (Call.Stack_ k ++ [uint256.SetBytes (Line.Data l)]) k)) c).
Proof.
  intros Hlen Hf Hc Hset Hline Hex.
  unfold Code.Set_, Code.Disasm in Hset. simpl in Hset.
  destruct (Asm.Disasm bin) as [[e|] a w| |] eqn:Hdis; try done. simpl in Hset.
  injection Hset as Hcode.
  pose proof (ctx_Code_run c p k contract Hf Hc) as Hcode_run.
  unfold ctx_Line in Hline. munfold. rewrite Hcode_run in Hline.
  rewrite <- Hcode in Hline. simpl in Hline.
  unfold ctx_Pc in Hline. munfold. rewrite (ctx_Call_run c p k Hf) in Hline.
  injection Hline as Hat.
  destruct (Disasm_listing bin None a w Hlen Hdis) as (code' & Hs & _ & Hrows & Hmap & _).
  destruct (Hmap _ _ Hat) as [Hpc Hrow].
  unfold Asm.AtRow in Hrow. destruct (0 <=? Line.LineNum l); [|done].
  destruct (Hrows _ _ Hrow) as (_ & _ & _ & (b & Hb & Hop) & Hdata & _ & Hpc0 & Hend).
  pose proof (OpTable_In _ _ Hop) as [Hin Hcodeb].
  destruct (makePush_rows _ _ Hin Hex) as [Hsize Hn].
  pose proof (strip_metadata_length _ _ Hs) as Hl'.
  unfold line_end in Hend. rewrite Hsize, Hpc in Hend. rewrite Hpc in Hpc0.
  split; [by rewrite Hcodeb|]. split; [done|]. split; [done|]. split; [done|].
  split; [unfold line_end; rewrite Hsize, Hpc; lia|]. split; [done|].
  unfold makePush. munfold. rewrite Hcode_run. simpl.
  unfold ctx_Pc. munfold. rewrite (ctx_Call_run c p k Hf). simpl.
  rewrite <- Hcode. simpl.
  rewrite !u64_small by lia.
  destruct (Z.ltb_spec (Z.of_nat (length bin)) (Call.Pc k + 1 + n)); [lia|].
  unfold Memory.slice, Memory.Len.
  destruct (Z.leb_spec 0 (Call.Pc k + 1)); [|lia].
  destruct (Z.leb_spec (Call.Pc k + 1) (Call.Pc k + 1 + n)); [|lia].
  destruct (Z.leb_spec (Call.Pc k + 1 + n) (Z.of_nat (length bin))); [|lia].
  simpl. rewrite (stack_Push_run c p k _ Hf). simpl.
  rewrite (update_Call_run _ _ p _ (at_frame_with_Call c p k _ Hf)). simpl.
  rewrite with_Call_twice.
  assert (Hd : take (Z.to_nat (Call.Pc k + 1 + n - (Call.Pc k + 1)))
                 (drop (Z.to_nat (Call.Pc k + 1)) bin) = Line.Data l).
  { rewrite Hdata, Hsize, Hpc. rewrite (strip_metadata_prefix _ _ Hs).
    replace (Call.Pc k + 1 + n - (Call.Pc k + 1)) with n by lia.
    rewrite take_drop_take by lia. done. }
  rewrite Hd. simpl. rewrite ?u64_small by lia. reflexivity.
Qed.

(** A PUSHn pushes what the listing shows: when the code of the running
    contract was loaded with [Code.Set] and the line of the listing at the
    program counter is a PUSHn, one step of [Run] pushes the line's data,
    read as a big-endian number, and leaves the program counter at the end of
    the line, where the next line of the listing starts. *)
Theorem PUSH_pushes_the_listed_data {HS : Type} (fuel : nat) (s : HS)
    (c : Context.t) (p : nat) (k : Call.t) (contract : Contract.t)
    (bin : list byte) (l : Line) (n : Z) :
  Z.of_nat (length bin) < 2 ^ 63 ->
  Context.IsDone c = false ->
  at_frame c p k ->
  Context.Contracts c !! Call.CodeAddress k = Some contract ->
  Code.Set_ bin (Contract.Code_ NewContract) = Some (None, Contract.Code_ contract) ->
  ctx_Line c = Ok (inr l) c ->
  Exec (Line.Op l) = fn.makePush n ->
  exists c',
    Run Sha3 PrecompiledContractsBerlin (S fuel) [] 1 c s = Run_returned None c' s /\
    cur_Stack c' = Some (Call.Stack_ k ++ [uint256.SetBytes (Line.Data l)]) /\
    cur_Pc c' = Some (line_end l) /\
    Z.of_nat (length (Line.Data l)) = n.
Proof.
  intros Hlen Hdone Hf Hc Hset Hline Hex.
  destruct (makePush_listed c p k contract bin l n Hlen Hf Hc Hset Hline Hex)
    as (Hop & Hpc & Hsize & Hpc0 & Hend & Hn & Hrun).
  pose proof (at_frame_with_Call c p k
                (Call.set_Pc (u64 (Call.Pc k + n))
                   (Call.set_Stack (Call.Stack_ k ++ [uint256.SetBytes (Line.Data l)]) k)) Hf)
    as Hf1.
  eexists. split; [|split; [|split]].
  - unfold Run. cbn [Run_loop]. rewrite Hdone. simpl.
    rewrite (Call_ptr_run c p (proj1 Hf)), Hline, Hop. simpl.
    rewrite Hex. simpl. rewrite Hrun.
    assert (Hj : negb (OpCode (Line.Op l) =? vm.JUMP) && negb (OpCode (Line.Op l) =? vm.JUMPI) = true).
    { apply OpTable_In in Hop as [Hin _].
      assert (Hall : forallb (fun op => match Exec op with
                                    | fn.makePush n => negb (OpCode op =? vm.JUMP) && negb (OpCode op =? vm.JUMPI)
                                    | _ => true
                                    end) OpTable_rows = true) by (vm_compute; reflexivity).
      rewrite forallb_forall in Hall. specialize (Hall _ Hin). by rewrite Hex in Hall. }
    rewrite Hj. unfold Hooks.PostRunAll. simpl.
    rewrite (bump_Pc_at_frame _ _ _ Hf1). simpl.
    replace (u64 (u64 (Call.Pc k + n) + 1)) with (line_end l).
    2:{ unfold line_end in *. rewrite Hsize, Hpc in *.
        rewrite (u64_small (Call.Pc k + n)) by lia. rewrite u64_small by lia. lia. }
    destruct fuel; cbn [Run_loop]; reflexivity.
  - unfold cur_Stack.
    erewrite cur_Call_at_frame; [|by apply (at_frame_with_Call _ p _ _ Hf1)]. done.
  - unfold cur_Pc.
    erewrite cur_Call_at_frame; [|by apply (at_frame_with_Call _ p _ _ Hf1)]. done.
  - unfold Code.Set_, Code.Disasm in Hset. simpl in Hset.
    destruct (Asm.Disasm bin) as [[e|] a w| |] eqn:Hdis; try done. simpl in Hset.
    injection Hset as Hcode.
    pose proof (ctx_Code_run c p k contract Hf Hc) as Hcode_run.
    unfold ctx_Line in Hline. munfold. rewrite Hcode_run in Hline.
    rewrite <- Hcode in Hline. simpl in Hline.
    unfold ctx_Pc in Hline. munfold. rewrite (ctx_Call_run c p k Hf) in Hline.
    injection Hline as Hat.
    destruct (Disasm_listing bin None a w Hlen Hdis) as (code' & Hs & _ & Hrows & Hmap & _).
    destruct (Hmap _ _ Hat) as [_ Hrow].
    unfold Asm.AtRow in Hrow. destruct (0 <=? Line.LineNum l); [|done].
    destruct (Hrows _ _ Hrow) as (_ & _ & _ & _ & _ & Hd & _). by rewrite Hd.
Qed.

End PushLaws.

(** The sample program, loaded with [Code.Set], at PUSH1 4 on the stack [3]. *)
Lemma PUSH_pushes_the_listed_data_witness :
  exists c',
    Run Samples.Sha3 Samples.precompiles 1 [] 1
      (Samples.context_loaded Samples.push_add_stop_meta [3] 2 100) tt
    = Run_returned None c' tt /\
    cur_Stack c' = Some ([3] ++ [uint256.SetBytes (Line.Data Samples.line2)]) /\
    cur_Pc c' = Some (line_end Samples.line2) /\
    Z.of_nat (length (Line.Data Samples.line2)) = 1.
Proof.
  apply (PUSH_pushes_the_listed_data Samples.Sha3 Samples.precompiles 0 tt
           (Samples.context_loaded Samples.push_add_stop_meta [3] 2 100) 0%nat
           (Samples.call_of [3] 2) (Samples.loaded Samples.push_add_stop_meta)
           Samples.push_add_stop_meta Samples.line2 1).
  - vm_compute; reflexivity.
  - reflexivity.
  - split; reflexivity.
  - reflexivity.
  - vm_compute; reflexivity.
  - vm_compute; reflexivity.
  - reflexivity.
Defined.

(** ** opcode.go: [getData] and the call data *)

Lemma i64_small (z : Z) : 0 <= z < 2 ^ 63 -> i64 z = z.
Proof.
  intros H. unfold i64. rewrite Z.mod_small by lia.
  destruct (Z.ltb_spec z (2 ^ 63)); [done|lia].
Qed.

Lemma getData_window (data : list byte) (start size : Z) :
  Z.of_nat (length data) < 2 ^ 63 -> 0 <= start -> 0 <= size < 2 ^ 63 ->
  exists bs, getData data start size = Some bs /\
    length bs = Z.to_nat size /\
    forall i : nat, (i < Z.to_nat size)%nat ->
      bs !! i = Some (default x00 (data !! (Z.to_nat start + i)%nat)).
Proof.
  intros Hlen Hstart Hsize. unfold getData.
  rewrite (u64_small (Z.of_nat (length data))) by lia.
  set (start' := if Z.of_nat (length data) <? start then Z.of_nat (length data) else start).
  assert (Hs' : 0 <= start' <= Z.of_nat (length data) /\
                (start' = start \/
                 (start' = Z.of_nat (length data) /\ Z.of_nat (length data) < start))).
  { unfold start'. destruct (Z.ltb_spec (Z.of_nat (length data)) start); lia. }
  rewrite (u64_small (start' + size)) by lia.
  set (end' := if Z.of_nat (length data) <? start' + size
               then Z.of_nat (length data) else start' + size).
  assert (He' : start' <= end' <= Z.of_nat (length data) /\ end' <= start' + size /\
                (end' = start' + size \/ end' = Z.of_nat (length data))).
  { unfold end'. destruct (Z.ltb_spec (Z.of_nat (length data)) (start' + size)); lia. }
  clearbody start' end'.
  unfold Memory.slice, Memory.Len.
  destruct (Z.leb_spec 0 start'); [|lia].
  destruct (Z.leb_spec start' end'); [|lia].
  destruct (Z.leb_spec end' (Z.of_nat (length data))); [|lia].
  simpl. rewrite i64_small by lia.
  set (s := take (Z.to_nat (end' - start')) (drop (Z.to_nat start') data)).
  assert (Hls : length s = Z.to_nat (end' - start')).
  { unfold s. rewrite length_take, length_drop. lia. }
  assert (Hsi : forall i : nat, (i < length s)%nat -> s !! i = data !! (Z.to_nat start' + i)%nat).
  { intros i Hi. unfold s. rewrite lookup_take_lt by lia. apply lookup_drop. }
  eexists. split; [reflexivity|]. unfold RightPadBytes.
  destruct (Z.leb_spec size (Z.of_nat (length s))) as [Hfull|Hpad].
  - split; [lia|]. intros i Hi. rewrite Hsi by lia.
    assert (Z.to_nat start' = Z.to_nat start) as -> by lia.
    destruct (lookup_lt_is_Some_2 data (Z.to_nat start + i)%nat ltac:(lia)) as [b ->]. done.
  - split; [rewrite length_app, length_replicate; lia|].
    intros i Hi. destruct (decide (i < length s)%nat) as [Hin|Hout].
    + rewrite lookup_app_l by done. rewrite Hsi by done.
      assert (Z.to_nat start' = Z.to_nat start) as -> by lia.
      destruct (lookup_lt_is_Some_2 data (Z.to_nat start + i)%nat ltac:(lia)) as [b ->]. done.
    + rewrite lookup_app_r by lia. rewrite lookup_replicate_2 by lia.
      rewrite (lookup_ge_None_2 data) by lia. done.
Qed.

(** [getData] returns exactly [size] bytes: the bytes of [data] from [start]
    on, and zeroes where [data] has ended (all zeroes when [start] is at or
    past the end). *)
Theorem getData_pads_with_zeros (data : list byte) (start size : Z) :
  Z.of_nat (length data) < 2 ^ 63 -> 0 <= start -> 0 <= size < 2 ^ 63 ->
  exists bs, getData data start size = Some bs /\
    length bs = Z.to_nat size /\
    forall i : nat, (i < Z.to_nat size)%nat ->
      bs !! i = Some (default x00 (data !! (Z.to_nat start + i)%nat)).
Proof. apply getData_window. Qed.

Lemma getData_pads_with_zeros_witness :
  exists bs, getData [x11; x22; x33] 2 4 = Some bs /\
    length bs = Z.to_nat 4 /\
    forall i : nat, (i < Z.to_nat 4)%nat ->
      bs !! i = Some (default x00 ([x11; x22; x33] !! (Z.to_nat 2 + i)%nat)).
Proof. apply getData_pads_with_zeros; simpl; lia. Defined.

(** [getData] is not safe against the overflow of [start + size]: with
    [start] inside the data and a size of [2^64 - start] or more, the end of
    the window wraps around to below [start] and the slice expression
    panics. *)
Theorem getData_panics_when_the_end_wraps (data : list byte) (start size : Z) :
  Z.of_nat (length data) < 2 ^ 63 ->
  0 < start <= Z.of_nat (length data) -> 2 ^ 64 - start <= size < 2 ^ 64 ->
  getData data start size = None.
Proof.
  intros Hlen Hstart Hsize. unfold getData.
  rewrite (u64_small (Z.of_nat (length data))) by lia.
  destruct (Z.ltb_spec (Z.of_nat (length data)) start); [lia|].
  assert (Hw : u64 (start + size) = start + size - 2 ^ 64).
  { unfold u64. symmetry. apply (Z.mod_unique_pos _ _ 1); lia. }
  rewrite Hw.
  destruct (Z.ltb_spec (Z.of_nat (length data)) (start + size - 2 ^ 64)); [lia|].
  unfold Memory.slice.
  destruct (Z.leb_spec 0 start); [|lia].
  destruct (Z.leb_spec start (start + size - 2 ^ 64)); [lia|]. done.
Qed.

Lemma getData_panics_when_the_end_wraps_witness :
  getData [x11; x22; x33] 1 (2 ^ 64 - 1) = None.
Proof. apply getData_panics_when_the_end_wraps; simpl; lia. Defined.

Lemma ctx_Msg_run c p k : at_frame c p k -> ctx_Msg c = Ok (Call.Msg_ k) c.
Proof. intros H. unfold ctx_Msg. munfold. by rewrite (ctx_Call_run c p k). Qed.

Lemma be_to_Z_zeros (n : nat) : be_to_Z (replicate n x00) = 0.
Proof.
  induction n as [|n IH]; [done|].
  replace (S n) with (n + 1)%nat by lia.
  rewrite replicate_add. simpl. by rewrite be_to_Z_snoc, IH.
Qed.

(** CALLDATALOAD at or past the end of the call data replaces the offset by
    0, for every offset: one that does not fit 64 bits is cleared at once,
    and the others read 32 bytes of padding. *)
Theorem CALLDATALOAD_past_the_end_is_zero (c : Context.t) (p : nat) (k : Call.t)
    (rest : list Z) (off : Z) :
  at_frame c p k -> Call.Stack_ k = rest ++ [off] ->
  Z.of_nat (length (Msg.Data (Call.Msg_ k))) < 2 ^ 63 ->
  Z.of_nat (length (Msg.Data (Call.Msg_ k))) <= off ->
  opCallDataLoad c = Ok None (with_Call p (Call.set_Stack (rest ++ [0]) k) c).
Proof.
  intros Hf Hst Hlen Hoff. unfold opCallDataLoad. munfold.
  rewrite (stack_Peek_run c p k rest off Hf Hst). simpl.
  unfold uint256.Uint64WithOverflow.
  destruct (Z.leb_spec (2 ^ 64) off) as [Hov|Hfit]; simpl.
  - by rewrite (stack_Poke_run c p k rest off 0 Hf Hst).
  - rewrite (ctx_Msg_run c p k Hf). simpl.
    rewrite (Z.mod_small off) by lia.
    destruct (getData_window (Msg.Data (Call.Msg_ k)) off 32) as (bs & -> & Hl & Hbs);
      [lia..|].
    simpl. rewrite (stack_Poke_run c p k rest off _ Hf Hst). simpl.
    assert (bs = replicate 32 x00) as ->.
    { apply list_eq. intros i. destruct (decide (i < 32)%nat) as [Hi|Hi].
      - rewrite Hbs by (simpl; lia). rewrite (lookup_ge_None_2 (Msg.Data _)) by lia.
        by rewrite lookup_replicate_2.
      - rewrite (lookup_ge_None_2 bs) by (rewrite Hl; simpl; lia).
        by rewrite lookup_ge_None_2 by (rewrite length_replicate; lia). }
    unfold uint256.SetBytes. by rewrite be_to_Z_zeros.
Qed.

(** Offset [2^64] on empty call data. *)
Lemma CALLDATALOAD_past_the_end_is_zero_witness :
  opCallDataLoad (Samples.context_of Samples.push_add_stop [7; 2 ^ 64] 0 100) =
  Ok None (with_Call 0 (Call.set_Stack ([7] ++ [0]) (Samples.call_of [7; 2 ^ 64] 0))
             (Samples.context_of Samples.push_add_stop [7; 2 ^ 64] 0 100)).
Proof.
  apply (CALLDATALOAD_past_the_end_is_zero _ 0%nat
           (Samples.call_of [7; 2 ^ 64] 0) [7] (2 ^ 64)).
  - split; reflexivity.
  - reflexivity.
  - simpl; lia.
  - simpl; lia.
Defined.

(** ** eth_client.go: what the lazy resolver keeps *)

(** The contract table after [ensure_contract_at]. *)
Lemma ensure_contract_at_run (a : Address) (c : Context.t) :
  ensure_contract_at a c =
  match Context.Contracts c !! a with
  | Some contract => Ok contract c
  | None => Ok NewContract
              (Context.set_Contracts (<[a := NewContract]> (Context.Contracts c)) c)
  end.
Proof.
  unfold ensure_contract_at, store_contract. munfold. simpl.
  by destruct (Context.Contracts c !! a).
Qed.

Lemma ensure_storage_hit (a : Address) (slot v : Z) (c : Context.t) (contract : Contract.t) :
  Context.Contracts c !! a = Some contract -> Contract.Storage contract !! slot = Some v ->
  ensure_storage a slot c = Ok (inr v) c.
Proof.
  intros Hc Hs. unfold ensure_storage. munfold.
  rewrite ensure_contract_at_run, Hc. by rewrite Hs.
Qed.

Lemma ensure_storage_cached (a : Address) (slot v : Z) (c c1 : Context.t) :
  ensure_storage a slot c = Ok (inr v) c1 ->
  exists contract, Context.Contracts c1 !! a = Some contract /\
                   Contract.Storage contract !! slot = Some v.
Proof.
  unfold ensure_storage, store_contract. munfold. rewrite ensure_contract_at_run.
  destruct (Context.Contracts c !! a) as [contract|] eqn:Hc.
  - destruct (Contract.Storage contract !! slot) as [v'|] eqn:Hs.
    + intros [= <- <-]. eauto.
    + simpl. destruct (get_online_storage _ _ _ _) as [e|v']; [done|].
      intros [= <- <-]. eexists. simpl. rewrite lookup_insert_eq. split; [done|].
      simpl. by rewrite lookup_insert_eq.
  - simpl. rewrite lookup_empty. simpl.
    destruct (get_online_storage _ _ _ _) as [e|v']; [done|].
    intros [= <- <-]. eexists. simpl. rewrite lookup_insert_eq. split; [done|].
    simpl. by rewrite lookup_insert_eq.
Qed.

(** A storage slot is asked for at most once: after [ensure_storage] has
    answered with a value, it answers with the same value in every context
    that has the same contract table -- with or without a node -- and leaves
    that context as it is.  Without a node, a slot that is not in the table is
    an error. *)
Theorem ensure_storage_asks_once (a : Address) (slot v : Z) (c c1 : Context.t) :
  ensure_storage a slot c = Ok (inr v) c1 ->
  (forall c2, Context.Contracts c2 = Context.Contracts c1 ->
     ensure_storage a slot c2 = Ok (inr v) c2) /\
  (forall c2 contract, Context.ethClient c2 = None ->
     Context.Contracts c2 !! a = Some contract ->
     Contract.Storage contract !! slot = None ->
     ensure_storage a slot c2 = Ok (inl (errors_New "no storage for")) c2).
Proof.
  intros Hrun. split.
  - intros c2 Heq. destruct (ensure_storage_cached _ _ _ _ _ Hrun) as (contract & Hc & Hs).
    rewrite <- Heq in Hc. by apply (ensure_storage_hit a slot v c2 contract).
  - intros c2 contract Hcl Hc Hs. unfold ensure_storage. munfold.
    rewrite ensure_contract_at_run, Hc. rewrite Hs. simpl. by rewrite Hcl.
Qed.

Lemma ensure_code_cached (a : Address) (bin : list byte) (c c1 : Context.t) :
  ensure_code a c = Ok (inr bin) c1 ->
  exists contract, Context.Contracts c1 !! a = Some contract /\
                   Code.Binary (Contract.Code_ contract) = bin.
Proof.
  unfold ensure_code, store_contract. munfold. rewrite ensure_contract_at_run.
  assert (Hset : forall code code' e, Code.Set_ bin code = Some (e, code') ->
                   e = None -> Code.Binary code' = bin).
  { intros code code' e. unfold Code.Set_, Code.Disasm.
    destruct (Code.Asm_ code); [by intros [= <- <-]|].
    destruct (Asm.Disasm bin) as [[e0|] asm w| |]; try done.
    - intros [= <- <-]. done.
    - by intros [= <- <-]. }
  destruct (Context.Contracts c !! a) as [contract|] eqn:Hc; simpl.
  - destruct (Z.ltb_spec 0 (Z.of_nat (length (Code.Binary (Contract.Code_ contract))))).
    + intros [= <- <-]. eauto.
    + destruct (get_online_code _ _ _) as [e|binary]; [done|].
      destruct (Code.Set_ binary _) as [[[e|] code']|] eqn:Hs; simpl; try done.
      intros [= <- <-]. eexists. simpl. rewrite lookup_insert_eq. split; [done|].
      simpl. by eapply Hset.
  - destruct (get_online_code _ _ _) as [e|binary]; [done|].
    destruct (Code.Set_ binary _) as [[[e|] code']|] eqn:Hs; simpl; try done.
    intros [= <- <-]. eexists. simpl. rewrite lookup_insert_eq. split; [done|].
    simpl. by eapply Hset.
Qed.

(** Code is cached only when it is not empty: after [ensure_code] has
    answered with a non-empty binary it answers with it again from the
    contract table alone; after the answer was the empty binary (an address
    without code) it asks the node again, and without a node that is an
    error. *)
Theorem ensure_code_caches_only_nonempty_code (a : Address) (bin : list byte)
    (c c1 c2 : Context.t) :
  ensure_code a c = Ok (inr bin) c1 ->
  Context.Contracts c2 = Context.Contracts c1 ->
  (bin <> [] -> ensure_code a c2 = Ok (inr bin) c2) /\
  (bin = [] -> Context.ethClient c2 = None ->
   ensure_code a c2 = Ok (inl (errors_New "no code for")) c2).
Proof.
  intros Hrun Heq. destruct (ensure_code_cached _ _ _ _ Hrun) as (contract & Hc & Hb).
  rewrite <- Heq in Hc. unfold ensure_code. munfold.
  rewrite ensure_contract_at_run, Hc, Hb. split.
  - intros Hne. destruct (Z.ltb_spec 0 (Z.of_nat (length bin))); [done|].
    destruct bin; [done|simpl in *; lia].
  - intros -> Hcl. simpl. by rewrite Hcl.
Qed.

(** Slot 5 of the sample contract, fetched from the sample node. *)
Lemma ensure_storage_asks_once_witness :
  (forall c2,
     Context.Contracts c2 =
     Context.Contracts
       (Context.set_Contracts
          {[ Samples.this := Contract.set_Storage {[ 5 := 42 ]} NewContract ]}
          (Samples.context_online 100)) ->
     ensure_storage Samples.this 5 c2 = Ok (inr 42) c2) /\
  (forall c2 contract, Context.ethClient c2 = None ->
     Context.Contracts c2 !! Samples.this = Some contract ->
     Contract.Storage contract !! 5 = None ->
     ensure_storage Samples.this 5 c2 = Ok (inl (errors_New "no storage for")) c2).
Proof.
  apply (ensure_storage_asks_once Samples.this 5 42 (Samples.context_online 100)).
  vm_compute. reflexivity.
Defined.

(** The code of the sample contract, fetched from the sample node. *)
Lemma ensure_code_caches_only_nonempty_code_witness :
  (Samples.push_add_stop_meta <> [] ->
   ensure_code Samples.this
     (Context.set_Contracts {[ Samples.this := Samples.loaded Samples.push_add_stop_meta ]}
        (Samples.context_online 100))
   = Ok (inr Samples.push_add_stop_meta)
       (Context.set_Contracts {[ Samples.this := Samples.loaded Samples.push_add_stop_meta ]}
          (Samples.context_online 100))) /\
  (Samples.push_add_stop_meta = [] ->
   Context.ethClient
     (Context.set_Contracts {[ Samples.this := Samples.loaded Samples.push_add_stop_meta ]}
        (Samples.context_online 100)) = None ->
   ensure_code Samples.this
     (Context.set_Contracts {[ Samples.this := Samples.loaded Samples.push_add_stop_meta ]}
        (Samples.context_online 100))
   = Ok (inl (errors_New "no code for"))
       (Context.set_Contracts {[ Samples.this := Samples.loaded Samples.push_add_stop_meta ]}
          (Samples.context_online 100))).
Proof.
  apply (ensure_code_caches_only_nonempty_code Samples.this Samples.push_add_stop_meta
           (Samples.context_online 100)
           (Context.set_Contracts {[ Samples.this := Samples.loaded Samples.push_add_stop_meta ]}
              (Samples.context_online 100))).
  - vm_compute. reflexivity.
  - reflexivity.
Defined.

(** ** SSTORE and SLOAD *)

(** SSTORE then SLOAD: after storing [val] under [slot], loading [slot] gives
    [val] back, from the contract table (the node is not asked, there need
    not be one).  The storage written and read is the one of [This], the
    address of the running call -- in a delegatecall the caller's. *)
Theorem SSTORE_then_SLOAD (c : Context.t) (p : nat) (k : Call.t)
    (contract : Contract.t) (rest : list Z) (val slot : Z) :
  at_frame c p k -> Call.Stack_ k = rest ++ [val; slot] ->
  Context.Contracts c !! Call.This k = Some contract ->
  exists c1 c2 c3,
    opSstore c = Ok None c1 /\ cur_Stack c1 = Some rest /\
    Context.Contracts c1 =
      <[Call.This k := Contract.set_Storage (<[slot := val]> (Contract.Storage contract))
                         contract]> (Context.Contracts c) /\
    stack_Push slot c1 = Ok tt c2 /\
    opSload c2 = Ok None c3 /\ cur_Stack c3 = Some (rest ++ [val]) /\
    Context.Contracts c3 = Context.Contracts c1.
Proof.
  intros Hf Hst Hc.
  assert (Hst' : Call.Stack_ k = (rest ++ [val]) ++ [slot]) by (by rewrite <- app_assoc).
  pose proof (stack_Pop_run c p k _ slot Hf Hst') as E1.
  set (k1 := Call.set_Stack (rest ++ [val]) k) in *. set (c1 := with_Call p k1 c) in *.
  assert (Hf1 : at_frame c1 p k1) by (by eapply at_frame_with_Call).
  pose proof (stack_Pop_run c1 p k1 rest val Hf1 eq_refl) as E2.
  set (k2 := Call.set_Stack rest k1) in *. set (c2 := with_Call p k2 c1) in *.
  assert (Hf2 : at_frame c2 p k2) by (by eapply at_frame_with_Call).
  set (contract' := Contract.set_Storage (<[slot := val]> (Contract.Storage contract)) contract).
  set (c3 := Context.set_Contracts (<[Call.This k := contract']> (Context.Contracts c2)) c2).
  assert (Hf3 : at_frame c3 p k2) by (destruct Hf2; by split).
  pose proof (stack_Push_run c3 p k2 slot Hf3) as E4.
  set (k4 := Call.set_Stack (Call.Stack_ k2 ++ [slot]) k2) in *.
  set (c4 := with_Call p k4 c3) in *.
  assert (Hf4 : at_frame c4 p k4) by (by eapply at_frame_with_Call).
  assert (Hst4 : Call.Stack_ k4 = rest ++ [slot]) by done.
  destruct (peek_poke_run c4 p k4 rest slot val Hf4 Hst4) as [E5 E6].
  exists c3, c4, (with_Call p (Call.set_Stack (rest ++ [val]) k4) c4).
  split; [|split; [|split; [|split; [|split; [|split]]]]].
  - unfold opSstore. munfold. rewrite E1, E2.
    unfold ctx_This, ctx_Contract, ctx_This, contract_at, store_contract. munfold.
    assert (Hc2 : Context.Contracts c2 !! Call.This k2 = Some contract) by exact Hc.
    rewrite (ctx_Call_run c2 p k2 Hf2). cbn beta iota.
    rewrite (ctx_Call_run c2 p k2 Hf2). cbn beta iota. by rewrite Hc2.
  - unfold cur_Stack. by rewrite (cur_Call_at_frame _ _ _ Hf3).
  - done.
  - done.
  - unfold opSload. munfold. rewrite E5. rewrite (ctx_Call_run c4 p k4 Hf4).
    rewrite (ensure_storage_hit (Call.This k4) slot val c4 contract').
    + by rewrite E6.
    + simpl. by rewrite lookup_insert_eq.
    + simpl. by rewrite lookup_insert_eq.
  - pose proof (at_frame_with_Call _ _ _ (Call.set_Stack (rest ++ [val]) k4) Hf4) as Hf5.
    unfold cur_Stack. by rewrite (cur_Call_at_frame _ _ _ Hf5).
  - done.
Qed.

Lemma SSTORE_then_SLOAD_witness :
  exists c1 c2 c3,
    opSstore (Samples.context_of [] [0xdeadbeef; 5] 0 100) = Ok None c1 /\
    cur_Stack c1 = Some [] /\
    Context.Contracts c1 =
      <[Call.This (Samples.call_of [0xdeadbeef; 5] 0) :=
          Contract.set_Storage (<[5 := 0xdeadbeef]> (Contract.Storage (Samples.contract_of [])))
            (Samples.contract_of [])]>
        (Context.Contracts (Samples.context_of [] [0xdeadbeef; 5] 0 100)) /\
    stack_Push 5 c1 = Ok tt c2 /\
    opSload c2 = Ok None c3 /\ cur_Stack c3 = Some ([] ++ [0xdeadbeef]) /\
    Context.Contracts c3 = Context.Contracts c1.
Proof.
  apply (SSTORE_then_SLOAD (Samples.context_of [] [0xdeadbeef; 5] 0 100) 0%nat
           (Samples.call_of [0xdeadbeef; 5] 0) (Samples.contract_of []) [] 0xdeadbeef 5).
  - split; reflexivity.
  - reflexivity.
  - vm_compute. reflexivity.
Defined.

(** ** Entering and leaving an inner call *)

(** [ensure_code] writes nothing but the contract table. *)
Lemma ensure_code_writes_Contracts (a : Address) (c c' : Context.t) r :
  ensure_code a c = Ok r c' -> c' = Context.set_Contracts (Context.Contracts c') c.
Proof.
  unfold ensure_code, store_contract. munfold. rewrite ensure_contract_at_run.
  assert (Hid : c = Context.set_Contracts (Context.Contracts c) c) by (by destruct c).
  destruct (Context.Contracts c !! a) as [contract|]; simpl.
  - destruct (_ <? _); [by intros [= <- <-]|].
    destruct (get_online_code _ _ _) as [e|binary]; [by intros [= <- <-]|].
    destruct (Code.Set_ binary _) as [[[e|] code']|]; simpl; try done; by intros [= <- <-].
  - destruct (get_online_code _ _ _) as [e|binary]; [by intros [= <- <-]|].
    destruct (Code.Set_ binary _) as [[[e|] code']|]; simpl; try done; by intros [= <- <-].
Qed.

Lemma at_frame_set_Contracts c p k x :
  at_frame c p k -> at_frame (Context.set_Contracts x c) p k.
Proof. by intros [??]. Qed.

Lemma memory_GetPtr_inv c p k offset size bs c' :
  at_frame c p k -> memory_GetPtr offset size c = Ok bs c' ->
  c' = c /\ Memory.GetPtr offset size (Call.Memory_ k) = Some bs.
Proof.
  intros Hf H. unfold memory_GetPtr in H. munfold. rewrite (ctx_Memory_run c p k Hf) in H.
  destruct (Memory.GetPtr offset size (Call.Memory_ k)); [|done]. by injection H as <- <-.
Qed.

(** Inverting a further [stack.Pop()] on a frame whose stack was cut down
    to [st]. *)
Lemma pop_step_cut {B} (kont : Z -> M B) c0 p k0 st b c' :
  at_frame c0 p k0 ->
  (stack_Pop ≫= kont) (with_Call p (Call.set_Stack st k0) c0) = Ok b c' ->
  exists v st', st = st' ++ [v] /\
    kont v (with_Call p (Call.set_Stack st' k0) c0) = Ok b c'.
Proof.
  intros Hf H.
  pose proof (at_frame_with_Call c0 p k0 (Call.set_Stack st k0) Hf) as Hf1.
  destruct (pop_step kont _ _ _ _ _ Hf1 H) as (v & st' & Hst & _ & Hk).
  exists v, st'. split; [done|]. by rewrite with_Call_twice in Hk.
Qed.

(** STOP in an inner call: the call stack is popped and 1 is pushed for the
    caller. *)
Lemma opStop_inner (c : Context.t) (cs : list nat) (q p : nat) (kq : Call.t) :
  Context.CallStack c = cs ++ [q; p] -> Context.calls c !! q = Some kq ->
  opStop c = Ok None (with_Call q (Call.set_Stack (Call.Stack_ kq ++ [1]) kq)
                        (Context.set_CallStack (cs ++ [q]) c)).
Proof.
  intros Hcs Hq.
  assert (Hcs' : Context.CallStack c = (cs ++ [q]) ++ [p]) by (by rewrite <- app_assoc).
  unfold opStop, callstack_Pop. munfold. rewrite Hcs'.
  rewrite !Stack_Len_snoc.
  destruct (Z.ltb_spec 1 (Stack.Len cs + 1 + 1)); [|unfold Stack.Len in *; lia].
  rewrite ?Hcs', Stack_Pop_snoc. cbn beta iota.
  assert (Hf : at_frame (Context.set_CallStack (cs ++ [q]) c) q kq)
    by (split; [apply Stack_Peek_snoc|done]).
  by rewrite (stack_Push_run _ q kq 1 Hf).
Qed.

Section CallLaws.
Variable Sha3 : list byte -> list byte.
Variable PrecompiledContractsBerlin : Address -> option (list byte -> error + list byte).

Lemma opDelegateCall_descends (c c' : Context.t) (p : nat) (k : Call.t) :
  at_frame c p k -> opDelegateCall c = Ok None c' ->
  exists rest gas addr inOffset inSize retOffset retSize args contracts',
    Call.Stack_ k = rest ++ [retSize; retOffset; inSize; inOffset; addr; gas] /\
    Memory.GetPtr (i64 (uint256.Uint64 inOffset)) (i64 (uint256.Uint64 inSize))
      (Call.Memory_ k) = Some args /\
    c' = Context.set_CallStack (Context.CallStack c ++ [length (Context.calls c)])
           (Context.set_calls
              (<[p := Call.set_Stack rest k]> (Context.calls c) ++
               [{| Call.Msg_ := {| Msg.Data := args;
                                   Msg.Gas := Msg.Gas (Call.Msg_ k);
                                   Msg.Sender := Msg.Sender (Call.Msg_ k);
                                   Msg.Value := Msg.Value (Call.Msg_ k) |};
                   Call.This := Call.This k;
                   Call.CodePtr := Some (uint256.Bytes20 addr);
                   Call.Memory_ := [];
                   Call.Stack_ := [];
                   Call.Pc := 0;
                   Call.OuterReturnOffset := uint256.Uint64 retOffset;
                   Call.OuterReturnSize := uint256.Uint64 retSize;
                   Call.InnerReturnVal := [] |}])
              (Context.set_Contracts contracts' c)).
Proof.
  intros Hf H. unfold opDelegateCall in H.
  destruct (pop_step _ _ _ _ _ _ Hf H) as (gas & st1 & Hst1 & _ & H1).
  destruct (pop_step_cut _ _ _ _ _ _ _ Hf H1) as (addr & st2 & -> & H2).
  destruct (pop_step_cut _ _ _ _ _ _ _ Hf H2) as (inOffset & st3 & -> & H3).
  destruct (pop_step_cut _ _ _ _ _ _ _ Hf H3) as (inSize & st4 & -> & H4).
  destruct (pop_step_cut _ _ _ _ _ _ _ Hf H4) as (retOffset & st5 & -> & H5).
  destruct (pop_step_cut _ _ _ _ _ _ _ Hf H5) as (retSize & rest & -> & H6).
  clear H H1 H2 H3 H4 H5.
  pose proof (at_frame_with_Call c p k (Call.set_Stack rest k) Hf) as Hf6.
  apply bind_inv in H6 as (r & c7 & E7 & H7).
  destruct r as [e|binary]; [done|].
  pose proof (ensure_code_writes_Contracts _ _ _ _ E7) as Hc7.
  set (c6 := with_Call p (Call.set_Stack rest k) c) in *.
  assert (Hf7 : at_frame c7 p (Call.set_Stack rest k)).
  { rewrite Hc7. by apply at_frame_set_Contracts. }
  apply bind_inv in H7 as (currCall & c8 & E8 & H8).
  rewrite (ctx_Call_run _ _ _ Hf7) in E8. injection E8 as <- <-.
  apply bind_inv in H8 as (args & c9 & E9 & H9).
  destruct (memory_GetPtr_inv _ _ _ _ _ _ _ Hf7 E9) as [-> Hargs].
  apply bind_inv in H9 as ([] & c10 & E10 & [= <-]).
  unfold callstack_Push, modify in E10. injection E10 as <-.
  exists rest, gas, addr, inOffset, inSize, retOffset, retSize, args, (Context.Contracts c7).
  split; [by rewrite Hst1, <- !app_assoc|]. split; [done|].
  rewrite Hc7. unfold c6, with_Call, Stack.Push. simpl.
  by rewrite length_insert.
Qed.

(** DELEGATECALL keeps the caller's identity: when it returns nil, the new
    current call has the caller's [This], sender and value, runs the code at
    the address popped from the stack, starts at pc 0 with empty stack and
    memory and takes its call data from the caller's memory; the caller's
    call object has lost the six operands and is otherwise untouched. *)
Theorem DELEGATECALL_keeps_the_callers_identity (c c' : Context.t) (p : nat) (k : Call.t) :
  at_frame c p k -> opDelegateCall c = Ok None c' ->
  exists rest gas addr inOffset inSize retOffset retSize args k',
    Call.Stack_ k = rest ++ [retSize; retOffset; inSize; inOffset; addr; gas] /\
    Memory.GetPtr (i64 (uint256.Uint64 inOffset)) (i64 (uint256.Uint64 inSize))
      (Call.Memory_ k) = Some args /\
    at_frame c' (length (Context.calls c)) k' /\
    Context.CallStack c' = Stack.Push (length (Context.calls c)) (Context.CallStack c) /\
    Context.calls c' !! p = Some (Call.set_Stack rest k) /\
    Call.This k' = Call.This k /\
    Msg.Sender (Call.Msg_ k') = Msg.Sender (Call.Msg_ k) /\
    Msg.Value (Call.Msg_ k') = Msg.Value (Call.Msg_ k) /\
    Msg.Data (Call.Msg_ k') = args /\
    Call.CodeAddress k' = uint256.Bytes20 addr /\
    Call.Stack_ k' = [] /\ Call.Memory_ k' = [] /\ Call.Pc k' = 0 /\
    Call.OuterReturnOffset k' = uint256.Uint64 retOffset /\
    Call.OuterReturnSize k' = uint256.Uint64 retSize.
Proof.
  intros Hf H.
  destruct (opDelegateCall_descends c c' p k Hf H)
    as (rest & gas & addr & inOffset & inSize & retOffset & retSize & args & cs & Hst & Ha & ->).
  exists rest, gas, addr, inOffset, inSize, retOffset, retSize, args.
  eexists. split; [done|]. split; [done|].
  assert (Hp : (p < length (Context.calls c))%nat) by (destruct Hf; by eapply lookup_lt_Some).
  split; [|split; [done|split]].
  - split; simpl.
    + apply Stack_Peek_snoc.
    + rewrite lookup_app_r by (rewrite length_insert; lia).
      rewrite length_insert, Nat.sub_diag. reflexivity.
  - simpl. rewrite lookup_app_l by (rewrite length_insert; lia).
    by apply list_lookup_insert_eq.
  - by repeat split.
Qed.

Lemma opCall_descends (c c' : Context.t) (p : nat) (k : Call.t) :
  at_frame c p k -> opCall PrecompiledContractsBerlin c = Ok None c' ->
  Context.CallStack c' <> Context.CallStack c ->
  exists rest gas addr value inOffset inSize retOffset retSize input contracts',
    Call.Stack_ k = rest ++ [retSize; retOffset; inSize; inOffset; value; addr; gas] /\
    uint256.IsZero inSize = false /\
    PrecompiledContractsBerlin (uint256.Bytes20 addr) = None /\
    Memory.GetPtr (i64 (uint256.Uint64 inOffset)) (i64 (uint256.Uint64 inSize))
      (Call.Memory_ k) = Some input /\
    c' = Context.set_CallStack (Context.CallStack c ++ [length (Context.calls c)])
           (Context.set_calls
              (<[p := Call.set_Stack rest k]> (Context.calls c) ++
               [{| Call.Msg_ := {| Msg.Data := input;
                                   Msg.Gas := Msg.Gas (Call.Msg_ k);
                                   Msg.Sender := Call.This k;
                                   Msg.Value := value |};
                   Call.This := uint256.Bytes20 addr;
                   Call.CodePtr := None;
                   Call.Memory_ := [];
                   Call.Stack_ := [];
                   Call.Pc := 0;
                   Call.OuterReturnOffset := uint256.Uint64 retOffset;
                   Call.OuterReturnSize := uint256.Uint64 retSize;
                   Call.InnerReturnVal := [] |}])
              (Context.set_Contracts contracts' c)).
Proof.
  intros Hf H Hgrew. unfold opCall in H.
  destruct (pop_step _ _ _ _ _ _ Hf H) as (gas & st1 & Hst1 & _ & H1).
  destruct (pop_step_cut _ _ _ _ _ _ _ Hf H1) as (addr & st2 & -> & H2).
  destruct (pop_step_cut _ _ _ _ _ _ _ Hf H2) as (value & st3 & -> & H3).
  destruct (pop_step_cut _ _ _ _ _ _ _ Hf H3) as (inOffset & st4 & -> & H4).
  destruct (pop_step_cut _ _ _ _ _ _ _ Hf H4) as (inSize & st5 & -> & H5).
  destruct (pop_step_cut _ _ _ _ _ _ _ Hf H5) as (retOffset & st6 & -> & H6).
  destruct (pop_step_cut _ _ _ _ _ _ _ Hf H6) as (retSize & rest & -> & H7).
  clear H H1 H2 H3 H4 H5 H6.
  pose proof (at_frame_with_Call c p k (Call.set_Stack rest k) Hf) as Hf7.
  set (c7 := with_Call p (Call.set_Stack rest k) c) in *.
  assert (Hsame : forall (m : M (option error)) r, shifts 1 m -> m c7 = Ok r c' -> False).
  { intros m r Hm Hrun. apply Hgrew.
    destruct (Hm _ _ _ Hrun p (proj1 Hf7)) as [-> _]. done. }
  destruct (uint256.IsZero inSize) eqn:Hz.
  { exfalso. eapply Hsame; [|exact H7]. shift. }
  unfold do_opcall in H7.
  apply bind_inv in H7 as (input & c8 & E8 & H8).
  destruct (memory_GetPtr_inv _ _ _ _ _ _ _ Hf7 E8) as [-> Hinput].
  destruct (PrecompiledContractsBerlin (uint256.Bytes20 addr)) as [precompiled|] eqn:Hpre.
  { destruct (precompiled input) as [e|output]; [done|].
    exfalso. eapply Hsame; [|exact H8]. shift. }
  apply bind_inv in H8 as (r & c9 & E9 & H9).
  destruct r as [e|binary]; [done|].
  pose proof (ensure_code_writes_Contracts _ _ _ _ E9) as Hc9.
  assert (Hf9 : at_frame c9 p (Call.set_Stack rest k)).
  { rewrite Hc9. by apply at_frame_set_Contracts. }
  apply bind_inv in H9 as (currCall & c10 & E10 & H10).
  rewrite (ctx_Call_run _ _ _ Hf9) in E10. injection E10 as <- <-.
  apply bind_inv in H10 as ([] & c11 & E11 & [= <-]).
  unfold callstack_Push, modify in E11. injection E11 as <-.
  exists rest, gas, addr, value, inOffset, inSize, retOffset, retSize, input,
    (Context.Contracts c9).
  split; [by rewrite Hst1, <- !app_assoc|]. do 3 (split; [done|]).
  rewrite Hc9. unfold c7, with_Call, Stack.Push. simpl. rewrite length_insert.
  assert ((if negb (uint256.IsZero value) then value else 0) = value) as ->.
  { unfold uint256.IsZero. destruct (Z.eqb_spec value 0); simpl; congruence. }
  done.
Qed.

(** CALL, when it descends into the callee (input not empty, target not a
    precompile, code of the target found): the new current call has the
    target as [This] and as code address, the caller's [This] as sender and
    the value popped from the stack; its gas is the caller's, whatever the
    gas operand says.  It starts at pc 0 with empty stack and memory; the
    caller's call object has lost the seven operands and is otherwise
    untouched, and nothing has been pushed for it yet. *)
Theorem CALL_enters_the_callee (c c' : Context.t) (p : nat) (k : Call.t) :
  at_frame c p k -> opCall PrecompiledContractsBerlin c = Ok None c' ->
  Context.CallStack c' <> Context.CallStack c ->
  exists rest gas addr value inOffset inSize retOffset retSize input k',
    Call.Stack_ k = rest ++ [retSize; retOffset; inSize; inOffset; value; addr; gas] /\
    Memory.GetPtr (i64 (uint256.Uint64 inOffset)) (i64 (uint256.Uint64 inSize))
      (Call.Memory_ k) = Some input /\
    at_frame c' (length (Context.calls c)) k' /\
    Context.CallStack c' = Stack.Push (length (Context.calls c)) (Context.CallStack c) /\
    Context.calls c' !! p = Some (Call.set_Stack rest k) /\
    Call.This k' = uint256.Bytes20 addr /\
    Call.CodeAddress k' = uint256.Bytes20 addr /\
    Msg.Sender (Call.Msg_ k') = Call.This k /\
    Msg.Value (Call.Msg_ k') = value /\
    Msg.Gas (Call.Msg_ k') = Msg.Gas (Call.Msg_ k) /\
    Msg.Data (Call.Msg_ k') = input /\
    Call.Stack_ k' = [] /\ Call.Memory_ k' = [] /\ Call.Pc k' = 0 /\
    Call.OuterReturnOffset k' = uint256.Uint64 retOffset /\
    Call.OuterReturnSize k' = uint256.Uint64 retSize.
Proof.
  intros Hf H Hgrew.
  destruct (opCall_descends c c' p k Hf H Hgrew)
    as (rest & gas & addr & value & inOffset & inSize & retOffset & retSize & input & cs
        & Hst & _ & _ & Ha & ->).
  exists rest, gas, addr, value, inOffset, inSize, retOffset, retSize, input.
  eexists. split; [done|]. split; [done|].
  assert (Hp : (p < length (Context.calls c))%nat) by (destruct Hf; by eapply lookup_lt_Some).
  split; [|split; [done|split]].
  - split; simpl.
    + apply Stack_Peek_snoc.
    + rewrite lookup_app_r by (rewrite length_insert; lia).
      rewrite length_insert, Nat.sub_diag. reflexivity.
  - simpl. rewrite lookup_app_l by (rewrite length_insert; lia).
    by apply list_lookup_insert_eq.
  - by repeat split.
Qed.

(** A callee that stops at once: CALL into the callee and then STOP.  The
    caller is the current call again, with the seven operands replaced by 1;
    its memory, its program counter and its return-data buffer are as before
    the CALL (the buffer is not cleared), and the run is not done. *)
Theorem CALL_then_STOP_resumes_the_caller (c c1 : Context.t) (p : nat) (k : Call.t) :
  at_frame c p k -> opCall PrecompiledContractsBerlin c = Ok None c1 ->
  Context.CallStack c1 <> Context.CallStack c ->
  exists rest gas addr value inOffset inSize retOffset retSize c2,
    Call.Stack_ k = rest ++ [retSize; retOffset; inSize; inOffset; value; addr; gas] /\
    opStop c1 = Ok None c2 /\
    at_frame c2 p (Call.set_Stack (rest ++ [1]) k) /\
    Context.CallStack c2 = Context.CallStack c /\
    Context.IsDone c2 = Context.IsDone c.
Proof.
  intros Hf H Hgrew.
  destruct (opCall_descends c c1 p k Hf H Hgrew)
    as (rest & gas & addr & value & inOffset & inSize & retOffset & retSize & input & cs
        & Hst & _ & _ & Ha & ->).
  exists rest, gas, addr, value, inOffset, inSize, retOffset, retSize.
  assert (Hp : (p < length (Context.calls c))%nat) by (destruct Hf; by eapply lookup_lt_Some).
  destruct Hf as [Hpeek Hk].
  assert (Hcs : exists cs0, Context.CallStack c = cs0 ++ [p]).
  { destruct (Context.CallStack c) as [|x l] using rev_ind; [done|].
    rewrite Stack_Peek_snoc in Hpeek. injection Hpeek as ->. eauto. }
  destruct Hcs as [cs0 Hcs].
  set (c1 := Context.set_CallStack _ _).
  assert (Hcs1 : Context.CallStack c1 = cs0 ++ [p; length (Context.calls c)]).
  { unfold c1. simpl. rewrite Hcs. by rewrite <- app_assoc. }
  assert (Hk1 : Context.calls c1 !! p = Some (Call.set_Stack rest k)).
  { unfold c1. simpl. rewrite lookup_app_l by (rewrite length_insert; lia).
    by apply list_lookup_insert_eq. }
  eexists. split; [done|]. split; [apply (opStop_inner c1 cs0 p _ _ Hcs1 Hk1)|].
  split; [|split].
  - apply (at_frame_with_Call _ p (Call.set_Stack rest k)).
    split; [|done]. simpl. apply Stack_Peek_snoc.
  - simpl. done.
  - done.
Qed.

(** RETURN in an inner call hands the output to the caller: the call stack
    is popped, the output becomes the caller's return-data buffer and is
    copied into the caller's memory at the offset and with the size that the
    CALL had asked for, and 1 is pushed on the caller's stack.  The call
    object that returned is left behind with its two operands popped. *)
Theorem RETURN_hands_the_output_to_the_caller (c : Context.t) (cs : list nat)
    (p q : nat) (k kq : Call.t) (rest : list Z) (offset size : Z)
    (output : list byte) (m' : Memory.t) :
  Context.CallStack c = cs ++ [q; p] -> p <> q ->
  Context.calls c !! p = Some k -> Context.calls c !! q = Some kq ->
  Call.Stack_ k = rest ++ [size; offset] ->
  Memory.GetPtr (i64 (uint256.Uint64 offset)) (i64 (uint256.Uint64 size))
    (Call.Memory_ k) = Some output ->
  Memory.Set_ (Call.OuterReturnOffset k) (Call.OuterReturnSize k) output
    (Call.Memory_ kq) = Some m' ->
  exists c',
    opReturn c = Ok None c' /\
    Context.CallStack c' = cs ++ [q] /\
    at_frame c' q (Call.set_Stack (Call.Stack_ kq ++ [1])
                     (Call.set_Memory m' (Call.set_InnerReturnVal output kq))) /\
    Context.calls c' !! p = Some (Call.set_Stack rest k) /\
    Context.IsDone c' = Context.IsDone c.
Proof.
  intros Hcs Hpq Hk Hkq Hst Hout Hset.
  assert (Hf : at_frame c p k).
  { split; [|done]. rewrite Hcs. replace (cs ++ [q; p]) with ((cs ++ [q]) ++ [p])
      by (by rewrite <- app_assoc). apply Stack_Peek_snoc. }
  assert (Hst' : Call.Stack_ k = (rest ++ [size]) ++ [offset]) by (by rewrite <- app_assoc).
  pose proof (stack_Pop_run c p k _ offset Hf Hst') as E1.
  set (k1 := Call.set_Stack (rest ++ [size]) k) in *. set (c1 := with_Call p k1 c) in *.
  assert (Hf1 : at_frame c1 p k1) by (by eapply at_frame_with_Call).
  pose proof (stack_Pop_run c1 p k1 rest size Hf1 eq_refl) as E2.
  set (k2 := Call.set_Stack rest k1) in *. set (c2 := with_Call p k2 c1) in *.
  assert (Hf2 : at_frame c2 p k2) by (by eapply at_frame_with_Call).
  pose proof (memory_GetPtr_run c2 p k2 _ _ output Hf2 Hout) as E3.
  assert (Hlen : (1 <? Stack.Len (Context.CallStack c2)) = true).
  { apply Z.ltb_lt. change (Context.CallStack c2) with (Context.CallStack c).
    rewrite Hcs. unfold Stack.Len. rewrite length_app. simpl. lia. }
  assert (Hpop : Stack.Pop (Context.CallStack c2) = Some (p, cs ++ [q])).
  { change (Context.CallStack c2) with (Context.CallStack c). rewrite Hcs.
    replace (cs ++ [q; p]) with ((cs ++ [q]) ++ [p]) by (by rewrite <- app_assoc).
    apply Stack_Pop_snoc. }
  set (c3 := Context.set_CallStack (cs ++ [q]) c2).
  assert (Hq3 : Context.calls c3 !! q = Some kq).
  { unfold c3, c2, c1, with_Call. simpl. by rewrite !list_lookup_insert_ne by done. }
  assert (Hf3 : at_frame c3 q kq) by (split; [apply Stack_Peek_snoc|done]).
  pose proof (update_Call_run (Call.set_InnerReturnVal output) c3 q kq Hf3) as E4.
  set (k4 := Call.set_InnerReturnVal output kq) in *. set (c4 := with_Call q k4 c3) in *.
  assert (Hf4 : at_frame c4 q k4) by (by eapply at_frame_with_Call).
  assert (E5 : memory_Set (Call.OuterReturnOffset k2) (Call.OuterReturnSize k2) output c4
               = Ok tt (with_Call q (Call.set_Memory m' k4) c4)).
  { unfold memory_Set. munfold. rewrite (ctx_Memory_run c4 q k4 Hf4). simpl.
    rewrite Hset. simpl. by rewrite (update_Call_run _ c4 q k4 Hf4). }
  set (k5 := Call.set_Memory m' k4) in *. set (c5 := with_Call q k5 c4) in *.
  assert (Hf5 : at_frame c5 q k5) by (by eapply at_frame_with_Call).
  pose proof (stack_Push_run c5 q k5 1 Hf5) as E6.
  eexists. split; [|split; [|split; [|split]]].
  - unfold opReturn. munfold. rewrite E1, E2, E3. cbn beta iota.
    rewrite (ctx_Call_run c2 p k2 Hf2). cbn beta iota. rewrite Hlen.
    unfold callstack_Pop. munfold. rewrite Hpop. cbn beta iota.
    fold c3. rewrite E4. fold c4. cbn beta iota. rewrite E5. cbn beta iota.
    rewrite E6. reflexivity.
  - done.
  - by eapply at_frame_with_Call.
  - simpl. rewrite !list_lookup_insert_ne by done.
    apply list_lookup_insert_eq. rewrite length_insert. by eapply lookup_lt_Some.
  - done.
Qed.

End CallLaws.

(** A DELEGATECALL of the sample contract to itself, without arguments. *)
Lemma DELEGATECALL_keeps_the_callers_identity_witness :
  exists c',
    opDelegateCall (Samples.context_of Samples.push_add_stop [0; 0; 0; 0; 0xc0de; 0] 0 100)
    = Ok None c' /\
    exists rest gas addr inOffset inSize retOffset retSize args k',
      Call.Stack_ (Samples.call_of [0; 0; 0; 0; 0xc0de; 0] 0)
      = rest ++ [retSize; retOffset; inSize; inOffset; addr; gas] /\
      Memory.GetPtr (i64 (uint256.Uint64 inOffset)) (i64 (uint256.Uint64 inSize))
        (Call.Memory_ (Samples.call_of [0; 0; 0; 0; 0xc0de; 0] 0)) = Some args /\
      at_frame c' (length (Context.calls
                     (Samples.context_of Samples.push_add_stop [0; 0; 0; 0; 0xc0de; 0] 0 100))) k' /\
      Context.CallStack c' =
        Stack.Push (length (Context.calls
                      (Samples.context_of Samples.push_add_stop [0; 0; 0; 0; 0xc0de; 0] 0 100)))
          (Context.CallStack
             (Samples.context_of Samples.push_add_stop [0; 0; 0; 0; 0xc0de; 0] 0 100)) /\
      Context.calls c' !! 0%nat
      = Some (Call.set_Stack rest (Samples.call_of [0; 0; 0; 0; 0xc0de; 0] 0)) /\
      Call.This k' = Call.This (Samples.call_of [0; 0; 0; 0; 0xc0de; 0] 0) /\
      Msg.Sender (Call.Msg_ k')
      = Msg.Sender (Call.Msg_ (Samples.call_of [0; 0; 0; 0; 0xc0de; 0] 0)) /\
      Msg.Value (Call.Msg_ k')
      = Msg.Value (Call.Msg_ (Samples.call_of [0; 0; 0; 0; 0xc0de; 0] 0)) /\
      Msg.Data (Call.Msg_ k') = args /\
      Call.CodeAddress k' = uint256.Bytes20 addr /\
      Call.Stack_ k' = [] /\ Call.Memory_ k' = [] /\ Call.Pc k' = 0 /\
      Call.OuterReturnOffset k' = uint256.Uint64 retOffset /\
      Call.OuterReturnSize k' = uint256.Uint64 retSize.
Proof.
  eexists. split; [vm_compute; reflexivity|].
  apply DELEGATECALL_keeps_the_callers_identity; [split; reflexivity|].
  vm_compute. reflexivity.
Defined.

(** A CALL of the sample contract to itself with one byte of input. *)
Lemma CALL_enters_the_callee_witness :
  exists c',
    opCall Samples.precompiles
      (Samples.context_of Samples.push_add_stop Samples.descend_stack 0 100) = Ok None c' /\
    exists rest gas addr value inOffset inSize retOffset retSize input k',
      Call.Stack_ (Samples.call_of Samples.descend_stack 0)
      = rest ++ [retSize; retOffset; inSize; inOffset; value; addr; gas] /\
      Memory.GetPtr (i64 (uint256.Uint64 inOffset)) (i64 (uint256.Uint64 inSize))
        (Call.Memory_ (Samples.call_of Samples.descend_stack 0)) = Some input /\
      at_frame c' (length (Context.calls
                     (Samples.context_of Samples.push_add_stop Samples.descend_stack 0 100))) k' /\
      Context.CallStack c' =
        Stack.Push (length (Context.calls
                      (Samples.context_of Samples.push_add_stop Samples.descend_stack 0 100)))
          (Context.CallStack
             (Samples.context_of Samples.push_add_stop Samples.descend_stack 0 100)) /\
      Context.calls c' !! 0%nat
      = Some (Call.set_Stack rest (Samples.call_of Samples.descend_stack 0)) /\
      Call.This k' = uint256.Bytes20 addr /\
      Call.CodeAddress k' = uint256.Bytes20 addr /\
      Msg.Sender (Call.Msg_ k') = Call.This (Samples.call_of Samples.descend_stack 0) /\
      Msg.Value (Call.Msg_ k') = value /\
      Msg.Gas (Call.Msg_ k') = Msg.Gas (Call.Msg_ (Samples.call_of Samples.descend_stack 0)) /\
      Msg.Data (Call.Msg_ k') = input /\
      Call.Stack_ k' = [] /\ Call.Memory_ k' = [] /\ Call.Pc k' = 0 /\
      Call.OuterReturnOffset k' = uint256.Uint64 retOffset /\
      Call.OuterReturnSize k' = uint256.Uint64 retSize.
Proof.
  eexists. split; [vm_compute; reflexivity|].
  apply (CALL_enters_the_callee Samples.precompiles); [split; reflexivity| |].
  - vm_compute. reflexivity.
  - vm_compute. discriminate.
Defined.

(** The same CALL, and the callee stops at once. *)
Lemma CALL_then_STOP_resumes_the_caller_witness :
  exists c1,
    opCall Samples.precompiles
      (Samples.context_of Samples.push_add_stop Samples.descend_stack 0 100) = Ok None c1 /\
    exists rest gas addr value inOffset inSize retOffset retSize c2,
      Call.Stack_ (Samples.call_of Samples.descend_stack 0)
      = rest ++ [retSize; retOffset; inSize; inOffset; value; addr; gas] /\
      opStop c1 = Ok None c2 /\
      at_frame c2 0%nat
        (Call.set_Stack (rest ++ [1]) (Samples.call_of Samples.descend_stack 0)) /\
      Context.CallStack c2
      = Context.CallStack
          (Samples.context_of Samples.push_add_stop Samples.descend_stack 0 100) /\
      Context.IsDone c2
      = Context.IsDone (Samples.context_of Samples.push_add_stop Samples.descend_stack 0 100).
Proof.
  eexists. split; [vm_compute; reflexivity|].
  apply (CALL_then_STOP_resumes_the_caller Samples.precompiles); [split; reflexivity| |].
  - vm_compute. reflexivity.
  - vm_compute. discriminate.
Defined.

(** The callee returns its two bytes; the caller had asked for two bytes at
    offset 1 of its empty memory. *)
Lemma RETURN_hands_the_output_to_the_caller_witness :
  exists c',
    opReturn Samples.returning = Ok None c' /\
    Context.CallStack c' = [] ++ [0%nat] /\
    at_frame c' 0%nat
      (Call.set_Stack (Call.Stack_ (Samples.call_of [7] 0) ++ [1])
         (Call.set_Memory [x00; xaa; xbb]
            (Call.set_InnerReturnVal [xaa; xbb] (Samples.call_of [7] 0)))) /\
    Context.calls c' !! 1%nat = Some (Call.set_Stack [] Samples.callee) /\
    Context.IsDone c' = Context.IsDone Samples.returning.
Proof.
  apply (RETURN_hands_the_output_to_the_caller Samples.returning [] 1%nat 0%nat
           Samples.callee (Samples.call_of [7] 0) [] 0 2 [xaa; xbb] [x00; xaa; xbb]).
  - reflexivity.
  - lia.
  - reflexivity.
  - reflexivity.
  - reflexivity.
  - vm_compute. reflexivity.
  - vm_compute. reflexivity.
Defined.

(** ** RETURNDATACOPY and the bounds of the return data *)

Lemma memory_Set_run c p k offset size value m' :
  at_frame c p k -> Memory.Set_ offset size value (Call.Memory_ k) = Some m' ->
  memory_Set offset size value c = Ok tt (with_Call p (Call.set_Memory m' k) c).
Proof.
  intros Hf Hm. unfold memory_Set. munfold. rewrite (ctx_Memory_run c p k Hf), Hm.
  simpl. by rewrite (update_Call_run _ c p k Hf).
Qed.

Lemma three_pops_run c p k rest z y x :
  at_frame c p k -> Call.Stack_ k = rest ++ [z; y; x] ->
  exists c1 c2,
    stack_Pop c = Ok x c1 /\ stack_Pop c1 = Ok y c2 /\
    stack_Pop c2 = Ok z (with_Call p (Call.set_Stack rest k) c) /\
    at_frame (with_Call p (Call.set_Stack rest k) c) p (Call.set_Stack rest k).
Proof.
  intros Hf Hst.
  assert (Hst' : Call.Stack_ k = (rest ++ [z; y]) ++ [x]) by (by rewrite <- app_assoc).
  pose proof (stack_Pop_run c p k _ x Hf Hst') as E1.
  pose proof (at_frame_with_Call c p k (Call.set_Stack (rest ++ [z; y]) k) Hf) as Hf1.
  assert (Hst1 : Call.Stack_ (Call.set_Stack (rest ++ [z; y]) k) = (rest ++ [z]) ++ [y])
    by (simpl; by rewrite <- app_assoc).
  pose proof (stack_Pop_run _ p _ _ y Hf1 Hst1) as E2. rewrite with_Call_twice in E2.
  pose proof (at_frame_with_Call c p k (Call.set_Stack (rest ++ [z]) k) Hf) as Hf2.
  pose proof (stack_Pop_run _ p _ rest z Hf2 eq_refl) as E3. rewrite with_Call_twice in E3.
  eexists _, _. split; [exact E1|]. split; [exact E2|]. split; [exact E3|].
  by apply (at_frame_with_Call c p k).
Qed.

(** RETURNDATACOPY checks the window [dataOffset, dataOffset + length)
    against the return-data buffer.  A window inside the buffer is copied to
    memory; a window that ends past the buffer is the error
    ReturnDataOutOfBounds, with the three operands popped and the memory
    untouched -- as long as [dataOffset + length] stays below [2^256].  When
    the sum wraps around [2^256] the check is passed with the wrapped end,
    and the slice expression panics. *)
Theorem RETURNDATACOPY_bounds (c : Context.t) (p : nat) (k : Call.t)
    (rest : list Z) (memOffset dataOffset length_ : Z) :
  at_frame c p k -> Call.Stack_ k = rest ++ [length_; dataOffset; memOffset] ->
  uint256.valid dataOffset -> uint256.valid length_ ->
  Z.of_nat (length (Call.InnerReturnVal k)) < 2 ^ 63 ->
  (dataOffset + length_ <= Z.of_nat (length (Call.InnerReturnVal k)) ->
   forall m',
     Memory.Set_ (uint256.Uint64 memOffset) length_
       (take (Z.to_nat length_) (drop (Z.to_nat dataOffset) (Call.InnerReturnVal k)))
       (Call.Memory_ k) = Some m' ->
     opReturnDataCopy c
     = Ok None (with_Call p (Call.set_Memory m' (Call.set_Stack rest k)) c)) /\
  (Z.of_nat (length (Call.InnerReturnVal k)) < dataOffset + length_ < 2 ^ 256 ->
   opReturnDataCopy c
   = Ok (Some ErrReturnDataOutOfBounds) (with_Call p (Call.set_Stack rest k) c)) /\
  (2 ^ 256 <= dataOffset + length_ -> dataOffset < 2 ^ 64 ->
   dataOffset + length_ - 2 ^ 256 <= Z.of_nat (length (Call.InnerReturnVal k)) ->
   opReturnDataCopy c = Panic).
Proof.
  intros Hf Hst Hd Hl Hlen. unfold uint256.valid, uint256.modulus in *.
  destruct (three_pops_run c p k rest length_ dataOffset memOffset Hf Hst)
    as (c1 & c2 & E1 & E2 & E3 & Hf3).
  set (k3 := Call.set_Stack rest k) in *. set (c3 := with_Call p k3 c) in *.
  assert (Hhead :
            opReturnDataCopy c =
            (let '(offset64, overflow) := uint256.Uint64WithOverflow dataOffset in
             if overflow then mret (Some ErrReturnDataOutOfBounds)
             else
               let end_ := uint256.Add dataOffset length_ in
               let '(end64, overflow) := uint256.Uint64WithOverflow end_ in
               call ← ctx_Call;
               if overflow
                  || (u64 (Z.of_nat (length (Call.InnerReturnVal call))) <? end64)
               then mret (Some ErrReturnDataOutOfBounds)
               else
                 data ← must (Memory.slice (Call.InnerReturnVal call) offset64 end64);
                 memory_Set (uint256.Uint64 memOffset) (uint256.Uint64 length_) data;;
                 mret None) c3).
  { unfold opReturnDataCopy. munfold. by rewrite E1, E2, E3. }
  rewrite Hhead. clear Hhead.
  unfold uint256.Uint64WithOverflow, uint256.Add, uint256.wrap, uint256.modulus.
  split; [|split].
  - intros Hin m' Hset.
    destruct (Z.leb_spec (2 ^ 64) dataOffset); [lia|].
    rewrite (Z.mod_small (dataOffset + length_) (2 ^ 256)) by lia.
    destruct (Z.leb_spec (2 ^ 64) (dataOffset + length_)); [lia|].
    munfold. rewrite (ctx_Call_run c3 p k3 Hf3). simpl.
    rewrite u64_small by lia. rewrite !Z.mod_small by lia.
    destruct (Z.ltb_spec (Z.of_nat (length (Call.InnerReturnVal k))) (dataOffset + length_));
      [lia|].
    unfold Memory.slice, Memory.Len.
    destruct (Z.leb_spec 0 dataOffset); [|lia].
    destruct (Z.leb_spec dataOffset (dataOffset + length_)); [|lia].
    destruct (Z.leb_spec (dataOffset + length_) (Z.of_nat (length (Call.InnerReturnVal k))));
      [|lia].
    simpl. replace (dataOffset + length_ - dataOffset) with length_ by lia.
    replace (uint256.Uint64 length_) with length_
      by (unfold uint256.Uint64; rewrite Z.mod_small; lia).
    rewrite (memory_Set_run c3 p k3 _ _ _ m' Hf3 Hset). unfold c3.
    by rewrite with_Call_twice.
  - intros Hout.
    destruct (Z.leb_spec (2 ^ 64) dataOffset); [done|].
    rewrite (Z.mod_small (dataOffset + length_) (2 ^ 256)) by lia.
    munfold. rewrite (ctx_Call_run c3 p k3 Hf3). simpl.
    destruct (Z.leb_spec (2 ^ 64) (dataOffset + length_)); [done|]. simpl.
    rewrite u64_small by lia. rewrite Z.mod_small by lia.
    destruct (Z.ltb_spec (Z.of_nat (length (Call.InnerReturnVal k))) (dataOffset + length_));
      [done|lia].
  - intros Hwrap Hfit Hpass.
    destruct (Z.leb_spec (2 ^ 64) dataOffset); [lia|].
    assert (Hend : (dataOffset + length_) mod 2 ^ 256 = dataOffset + length_ - 2 ^ 256).
    { symmetry. apply (Z.mod_unique_pos _ _ 1); lia. }
    rewrite Hend.
    munfold. rewrite (ctx_Call_run c3 p k3 Hf3). simpl.
    destruct (Z.leb_spec (2 ^ 64) (dataOffset + length_ - 2 ^ 256)); [lia|]. simpl.
    rewrite u64_small by lia. rewrite !Z.mod_small by lia.
    destruct (Z.ltb_spec (Z.of_nat (length (Call.InnerReturnVal k)))
                (dataOffset + length_ - 2 ^ 256)); [lia|].
    unfold Memory.slice.
    destruct (Z.leb_spec 0 dataOffset); [|lia].
    destruct (Z.leb_spec dataOffset (dataOffset + length_ - 2 ^ 256)); [lia|]. done.
Qed.

(** One byte asked from an empty return-data buffer. *)
Lemma RETURNDATACOPY_bounds_witness :
  (0 + 1 <= Z.of_nat (length (Call.InnerReturnVal (Samples.call_of [1; 0; 0] 0))) ->
   forall m',
     Memory.Set_ (uint256.Uint64 0) 1
       (take (Z.to_nat 1)
          (drop (Z.to_nat 0) (Call.InnerReturnVal (Samples.call_of [1; 0; 0] 0))))
       (Call.Memory_ (Samples.call_of [1; 0; 0] 0)) = Some m' ->
     opReturnDataCopy (Samples.context_of Samples.push_add_stop [1; 0; 0] 0 100)
     = Ok None (with_Call 0 (Call.set_Memory m'
                               (Call.set_Stack [] (Samples.call_of [1; 0; 0] 0)))
                  (Samples.context_of Samples.push_add_stop [1; 0; 0] 0 100))) /\
  (Z.of_nat (length (Call.InnerReturnVal (Samples.call_of [1; 0; 0] 0))) < 0 + 1 < 2 ^ 256 ->
   opReturnDataCopy (Samples.context_of Samples.push_add_stop [1; 0; 0] 0 100)
   = Ok (Some ErrReturnDataOutOfBounds)
       (with_Call 0 (Call.set_Stack [] (Samples.call_of [1; 0; 0] 0))
          (Samples.context_of Samples.push_add_stop [1; 0; 0] 0 100))) /\
  (2 ^ 256 <= 0 + 1 -> 0 < 2 ^ 64 ->
   0 + 1 - 2 ^ 256 <= Z.of_nat (length (Call.InnerReturnVal (Samples.call_of [1; 0; 0] 0))) ->
   opReturnDataCopy (Samples.context_of Samples.push_add_stop [1; 0; 0] 0 100) = Panic).
Proof.
  apply (RETURNDATACOPY_bounds (Samples.context_of Samples.push_add_stop [1; 0; 0] 0 100)
           0%nat (Samples.call_of [1; 0; 0] 0) [] 0 0 1).
  - split; reflexivity.
  - reflexivity.
  - unfold uint256.valid, uint256.modulus. lia.
  - unfold uint256.valid, uint256.modulus. lia.
  - simpl. lia.
Defined.

(** ** The shape of the call stack *)

Lemma CallStack_ok_Peek (c : Context.t) :
  CallStack_ok c -> exists p k, at_frame c p k.
Proof.
  intros (Hne & _ & Hv).
  destruct (Context.CallStack c) as [|p cs] eqn:E using rev_ind; [done|].
  destruct (Hv p) as [k Hk]; [set_solver|].
  exists p, k. split; [rewrite E; apply Stack_Peek_snoc|done].
Qed.

Lemma frame_rel_ok d p c c' :
  frame_rel d p c c' -> CallStack_ok c -> CallStack_ok c'.
Proof.
  intros (Hs & Hd & Ho) (Hne & Hnd & Hv). rewrite <- Hs in Hne, Hnd.
  split; [done|]. split; [done|]. intros q Hq. rewrite Hs in Hq.
  destruct (decide (q = p)) as [->|Hqp].
  - destruct (Hv p Hq) as [k Hk]. destruct (Hd k Hk) as (k' & Hk' & _). eauto.
  - rewrite (Ho q Hqp). by apply Hv.
Qed.

Lemma shifts_keeps {A} d (m : M A) : shifts d m -> keeps m.
Proof.
  intros Hm c a c' Hok Hrun. destruct (CallStack_ok_Peek c Hok) as (p & k & Hp & _).
  eapply frame_rel_ok; [|exact Hok]. by eapply Hm.
Qed.

Lemma keeps_bind {A B} (m : M A) (k : A -> M B) :
  keeps m -> (forall a, keeps (k a)) -> keeps (m ≫= k).
Proof.
  intros Hm Hk c b c' Hok Hrun. apply bind_inv in Hrun as (a & c1 & E & Hrun).
  eapply Hk; [|exact Hrun]. by eapply Hm.
Qed.

Lemma keeps_ret {A} (a : A) : keeps (mret a).
Proof. by intros c a' c' Hok [= _ <-]. Qed.

(** Pushing a call: the new object gets a pointer that no frame has. *)
Lemma keeps_callstack_Push (newCall : Call.t) : keeps (callstack_Push newCall).
Proof.
  intros c [] c' (Hne & Hnd & Hv) [= <-]. unfold Stack.Push. simpl. split; [|split].
  - by destruct (Context.CallStack c).
  - apply NoDup_app. split; [done|]. split; [|apply NoDup_singleton].
    intros q Hq Hq'. apply list_elem_of_singleton in Hq'. subst q.
    destruct (Hv _ Hq) as [k Hk]. apply lookup_lt_Some in Hk. lia.
  - intros q Hq. apply elem_of_app in Hq as [Hq|Hq].
    + destruct (Hv q Hq) as [k Hk]. exists k. by apply lookup_app_l_Some.
    + apply list_elem_of_singleton in Hq. subst q. simpl.
      rewrite lookup_app_r, Nat.sub_diag by done. by eexists.
Qed.

(** Popping a call is guarded by [CallStack.Len() > 1]. *)
Lemma keeps_guarded_Pop {B} (k : nat -> M B) (k' : M B) :
  (forall a, keeps (k a)) -> keeps k' ->
  keeps (c ← get; if 1 <? Stack.Len (Context.CallStack c)
                  then callstack_Pop ≫= k else k').
Proof.
  intros Hk Hk' c b c' Hok Hrun. unfold get in Hrun. munfold.
  destruct (Z.ltb_spec 1 (Stack.Len (Context.CallStack c))) as [Hlen|_].
  - destruct (callstack_Pop c) as [q c1|] eqn:E; [|done].
    eapply Hk; [|exact Hrun]. clear Hrun.
    unfold callstack_Pop in E. munfold.
    destruct (Stack.Pop (Context.CallStack c)) as [[q' st']|] eqn:Hpop; [|done].
    simpl in E. injection E as -> <-. apply Stack_Pop_inv in Hpop.
    destruct Hok as (Hne & Hnd & Hv). rewrite Hpop in Hnd, Hv, Hlen.
    unfold CallStack_ok. simpl. split; [|split].
    + intros ->. unfold Stack.Len in Hlen. simpl in Hlen. lia.
    + by apply NoDup_app in Hnd as (? & _).
    + intros p Hp. apply Hv. set_solver.
  - by eapply Hk'.
Qed.

Lemma keeps_modify_IsDone b : keeps (modify (Context.set_IsDone b)).
Proof. by intros c [] c' Hok [= <-]. Qed.

Ltac keep_step :=
  lazymatch goal with
  | |- forall _, _ => intros
  | |- keeps (mbind (fun c => if 1 <? Stack.Len (Context.CallStack c) then _ else _) get) =>
      apply keeps_guarded_Pop
  | |- keeps (mbind _ _) => apply keeps_bind
  | |- keeps (mret _) => apply keeps_ret
  | |- keeps (callstack_Push _) => apply keeps_callstack_Push
  | |- keeps (modify (Context.set_IsDone _)) => apply keeps_modify_IsDone
  | |- keeps (match ?x with _ => _ end) => destruct x
  | |- keeps (let '(_, _) := ?x in _) => destruct x
  | |- keeps _ => eapply shifts_keeps; solve [shift]
  end.
Ltac keep := repeat keep_step.

Section CallStackInvariant.
Variable Sha3 : list byte -> list byte.
Variable PrecompiledContractsBerlin : Address -> option (list byte -> error + list byte).

Lemma keeps_Exec_of (f : fn.t) : keeps (Exec_of Sha3 PrecompiledContractsBerlin f).
Proof.
  destruct f; simpl;
    match goal with |- keeps ?m => let h := head_of m in unfold h end;
    try unfold uint256.Uint64WithOverflow; try unfold do_opcall;
    try solve [keep].
Qed.

Lemma bump_Pc_ok (call : nat) (c : Context.t) : CallStack_ok c -> CallStack_ok (bump_Pc call c).
Proof.
  intros (Hne & Hnd & Hv). unfold bump_Pc.
  destruct (Context.calls c !! call) as [k|] eqn:Hk; [|done].
  split; [done|]. split; [done|]. intros q Hq. simpl.
  destruct (decide (q = call)) as [->|Hne'].
  - rewrite list_lookup_insert_eq by (by eapply lookup_lt_Some). by eexists.
  - rewrite list_lookup_insert_ne by done. by apply Hv.
Qed.

Context {HS : Type}.

Lemma Run_loop_ok (fuel : nat) (hks : Hooks.t (Context.t * nat) Line HS) fs steps c s e c' s' :
  CallStack_ok c ->
  Run_loop Sha3 PrecompiledContractsBerlin fuel hks fs steps c s = Run_returned e c' s' ->
  CallStack_ok c'.
Proof.
  revert fs steps c s. induction fuel as [|fuel IH]; intros fs steps c s Hok; cbn [Run_loop].
  - destruct (_ && _); [done|]. by intros [= _ <- _].
  - destruct (negb (steps =? 0) && negb (Context.IsDone c)); [|by intros [= _ <- _]].
    destruct (Call_ptr c) as [call ?|]; [|done].
    destruct (ctx_Line c) as [[e0|line] ?|]; [by intros [= _ <- _]| |done].
    destruct (OpTable _) as [op|]; [|done].
    destruct (Hooks.PreRunAll _ _ _ _) as [s1 e1].
    destruct (bool_decide (e1 ≠ None) && negb fs); [by intros [= _ <- _]|].
    destruct (Exec_of _ _ _ _) as [[e2|] cx|] eqn:Hex; [| |done].
    + intros [= _ <- _]. by eapply keeps_Exec_of.
    + pose proof (keeps_Exec_of _ _ _ _ Hok Hex) as Hokx.
      set (c2 := if negb (_ =? vm.JUMP) && _ then _ else cx).
      assert (Hok2 : CallStack_ok c2).
      { unfold c2. destruct (_ && _); [by apply bump_Pc_ok|done]. }
      destruct (Hooks.PostRunAll _ _ _ _) as [s2 [e3|]]; [by intros [= _ <- _]|].
      by apply IH.
Qed.

(** The call stack keeps its shape: from a context whose call stack is not
    empty and holds distinct pointers to call objects, every opcode function
    that returns (with nil or with an error) and every [Run] that returns
    leaves a context of that kind; in particular the stack is never emptied
    (STOP and RETURN pop only above the outer call) and [ctx.Call()] finds a
    call afterwards. *)
Theorem Run_keeps_the_call_stack_in_shape (c : Context.t) :
  CallStack_ok c ->
  (forall f a c1, Exec_of Sha3 PrecompiledContractsBerlin f c = Ok a c1 ->
     CallStack_ok c1 /\ exists k, ctx_Call c1 = Ok k c1) /\
  (forall fuel (hks : Hooks.t (Context.t * nat) Line HS) steps s e c' s',
     Run Sha3 PrecompiledContractsBerlin fuel hks steps c s = Run_returned e c' s' ->
     CallStack_ok c' /\ exists k, ctx_Call c' = Ok k c').
Proof.
  intros Hok.
  assert (Hcall : forall c0, CallStack_ok c0 -> exists k, ctx_Call c0 = Ok k c0).
  { intros c0 H0. destruct (CallStack_ok_Peek c0 H0) as (p & k & Hf).
    exists k. by apply (ctx_Call_run c0 p). }
  split.
  - intros f a c1 Hrun. pose proof (keeps_Exec_of f _ _ _ Hok Hrun). auto.
  - intros fuel hks steps s e c' s' Hrun.
    pose proof (Run_loop_ok _ _ _ _ _ _ _ _ _ Hok Hrun). auto.
Qed.

End CallStackInvariant.

(** The sample context: one call, one pointer. *)
Lemma Run_keeps_the_call_stack_in_shape_witness :
  (forall f a c1,
     Exec_of Samples.Sha3 Samples.precompiles f
       (Samples.context_of Samples.push_add_stop [] 0 100) = Ok a c1 ->
     CallStack_ok c1 /\ exists k, ctx_Call c1 = Ok k c1) /\
  (forall fuel (hks : Hooks.t (Context.t * nat) Line unit) steps s e c' s',
     Run Samples.Sha3 Samples.precompiles fuel hks steps
       (Samples.context_of Samples.push_add_stop [] 0 100) s = Run_returned e c' s' ->
     CallStack_ok c' /\ exists k, ctx_Call c' = Ok k c').
Proof.
  apply Run_keeps_the_call_stack_in_shape.
  split; [done|]. split; [apply NoDup_singleton|].
  intros p Hp. apply list_elem_of_singleton in Hp. subst p. by eexists.
Defined.

(** ** The program counter between the lines *)

Lemma still_ret {A} (a : A) : pcs_still (mret a).
Proof. intros c a' c' [= _ <-] q k Hk. eauto. Qed.

Lemma still_bind {A B} (m : M A) (k : A -> M B) :
  pcs_still m -> (forall a, pcs_still (k a)) -> pcs_still (m ≫= k).
Proof.
  intros Hm Hk c b c' Hrun q kq Hq. apply bind_inv in Hrun as (a & c1 & E & Hrun).
  destruct (Hm _ _ _ E q kq Hq) as (k1 & Hk1 & Hpc1).
  destruct (Hk a _ _ _ Hrun q k1 Hk1) as (k2 & Hk2 & Hpc2).
  exists k2. split; [done|congruence].
Qed.

Lemma still_get : pcs_still get.
Proof. intros c a c' [= _ <-] q k Hk. eauto. Qed.

Lemma still_must {A} (o : option A) : pcs_still (must o).
Proof. destruct o; [apply still_ret|]. by intros c a c' H. Qed.

Lemma still_modify f :
  (forall c, Context.calls (f c) = Context.calls c) -> pcs_still (modify f).
Proof. intros Hf c a c' [= _ <-] q k Hk. rewrite Hf. eauto. Qed.

Lemma still_Call_ptr : pcs_still Call_ptr.
Proof. unfold Call_ptr. apply still_bind; [apply still_get|intros; apply still_must]. Qed.

Lemma still_ctx_Call : pcs_still ctx_Call.
Proof.
  unfold ctx_Call. apply still_bind; [apply still_Call_ptr|intros].
  apply still_bind; [apply still_get|intros; apply still_must].
Qed.

Lemma still_update_Call f :
  (forall k, Call.Pc (f k) = Call.Pc k) -> pcs_still (update_Call f).
Proof.
  intros Hf c a c' H q kq Hq. unfold update_Call in H.
  apply bind_inv in H as (p & c1 & E1 & H).
  apply bind_inv in H as (k & c2 & E2 & H).
  unfold Call_ptr in E1. munfold.
  destruct (Stack.Peek (Context.CallStack c)) as [p'|] eqn:Hp; [|done].
  injection E1 as -> <-.
  apply (ctx_Call_inv _ _ _ p) in E2 as [-> [_ Hk]]; [|done].
  injection H as _ <-. simpl.
  destruct (decide (q = p)) as [->|Hne].
  - rewrite list_lookup_insert_eq by (by eapply lookup_lt_Some).
    exists (f k). split; [done|]. rewrite Hf. congruence.
  - rewrite list_lookup_insert_ne by done. eauto.
Qed.

Lemma still_callstack_Push newCall : pcs_still (callstack_Push newCall).
Proof.
  intros c a c' [= _ <-] q k Hk. simpl. exists k. split; [|done].
  by apply lookup_app_l_Some.
Qed.

Lemma still_callstack_Pop : pcs_still callstack_Pop.
Proof.
  unfold callstack_Pop. apply still_bind; [apply still_get|intros c0].
  apply still_bind; [apply still_must|intros [p st']].
  apply still_bind; [by apply still_modify|intros; apply still_ret].
Qed.

Create HintDb still discriminated.
#[local] Hint Resolve still_get still_must still_Call_ptr still_ctx_Call
  still_callstack_Push still_callstack_Pop : still.

Ltac still_step :=
  lazymatch goal with
  | |- forall _, _ => intros
  | |- _ = _ => reflexivity
  | |- pcs_still (mbind _ _) => apply still_bind
  | |- pcs_still (mret _) => apply still_ret
  | |- pcs_still (update_Call _) => apply still_update_Call
  | |- pcs_still (modify _) => apply still_modify
  | |- pcs_still (match ?x with _ => _ end) => destruct x
  | |- pcs_still _ => solve [eauto with still]
  end.
Ltac still := repeat still_step.

Lemma still_ctx_This : pcs_still ctx_This.
Proof. unfold ctx_This. still. Qed.
Lemma still_ctx_Msg : pcs_still ctx_Msg.
Proof. unfold ctx_Msg. still. Qed.
Lemma still_ctx_Stack : pcs_still ctx_Stack.
Proof. unfold ctx_Stack. still. Qed.
Lemma still_ctx_Memory : pcs_still ctx_Memory.
Proof. unfold ctx_Memory. still. Qed.
Lemma still_ctx_Pc : pcs_still ctx_Pc.
Proof. unfold ctx_Pc. still. Qed.
Lemma still_contract_at addr : pcs_still (contract_at addr).
Proof. unfold contract_at. still. Qed.
Lemma still_store_contract addr k : pcs_still (store_contract addr k).
Proof. unfold store_contract. still. Qed.
#[local] Hint Resolve still_ctx_This still_ctx_Msg still_ctx_Stack still_ctx_Memory
  still_ctx_Pc still_contract_at still_store_contract : still.

Lemma still_ctx_Code : pcs_still ctx_Code.
Proof. unfold ctx_Code. still. Qed.
Lemma still_ctx_Contract : pcs_still ctx_Contract.
Proof. unfold ctx_Contract. still. Qed.
Lemma still_stack_Push d : pcs_still (stack_Push d).
Proof. unfold stack_Push. still. Qed.
Lemma still_stack_Pop : pcs_still stack_Pop.
Proof. unfold stack_Pop. still. Qed.
Lemma still_stack_Peek : pcs_still stack_Peek.
Proof. unfold stack_Peek. still. Qed.
Lemma still_stack_Poke d : pcs_still (stack_Poke d).
Proof. unfold stack_Poke. still. Qed.
Lemma still_stack_Dup n : pcs_still (stack_Dup n).
Proof. unfold stack_Dup. still. Qed.
Lemma still_stack_Swap n : pcs_still (stack_Swap n).
Proof. unfold stack_Swap. still. Qed.
Lemma still_memory_GetPtr offset size : pcs_still (memory_GetPtr offset size).
Proof. unfold memory_GetPtr. still. Qed.
Lemma still_memory_Set offset size value : pcs_still (memory_Set offset size value).
Proof. unfold memory_Set. still. Qed.
Lemma still_memory_Set32 offset val : pcs_still (memory_Set32 offset val).
Proof. unfold memory_Set32. still. Qed.
Lemma still_ensure_contract_at addr : pcs_still (ensure_contract_at addr).
Proof. unfold ensure_contract_at. still. Qed.
#[local] Hint Resolve still_ctx_Code still_ctx_Contract still_stack_Push still_stack_Pop
  still_stack_Peek still_stack_Poke still_stack_Dup still_stack_Swap
  still_memory_GetPtr still_memory_Set still_memory_Set32
  still_ensure_contract_at : still.

Lemma still_ensure_balance address : pcs_still (ensure_balance address).
Proof. unfold ensure_balance. still. Qed.
Lemma still_ensure_code address : pcs_still (ensure_code address).
Proof. unfold ensure_code. still. Qed.
Lemma still_ensure_storage address slot : pcs_still (ensure_storage address slot).
Proof. unfold ensure_storage. still. Qed.
Lemma still_ensure_block_hash blockNum : pcs_still (ensure_block_hash blockNum).
Proof. unfold ensure_block_hash. still. Qed.
Lemma still_pop_times (n : nat) : pcs_still (pop_times n).
Proof. induction n as [|n IH]; cbn [pop_times]; still. Qed.
#[local] Hint Resolve still_ensure_balance still_ensure_code still_ensure_storage
  still_ensure_block_hash still_pop_times : still.

Section PcInvariant.
Variable Sha3 : list byte -> list byte.
Variable PrecompiledContractsBerlin : Address -> option (list byte -> error + list byte).

(** Of the functions of the table only the jumps and the pushes write a
    program counter. *)
Lemma still_Exec_of (f : fn.t) :
  match f with
  | fn.opJump | fn.opJumpi | fn.makePush _ => True
  | _ => pcs_still (Exec_of Sha3 PrecompiledContractsBerlin f)
  end.
Proof.
  destruct f; simpl; try exact I;
    match goal with |- pcs_still ?m => let h := head_of m in unfold h end;
    try unfold uint256.Uint64WithOverflow; try unfold do_opcall;
    try solve [still].
Qed.

Lemma ctx_Line_listed (c : Context.t) (p : nat) (k : Call.t) (contract : Contract.t)
    (bin : list byte) (l : Line) :
  Z.of_nat (length bin) < 2 ^ 63 ->
  at_frame c p k ->
  Context.Contracts c !! Call.CodeAddress k = Some contract ->
  Code.Set_ bin (Contract.Code_ NewContract) = Some (None, Contract.Code_ contract) ->
  ctx_Line c = Ok (inr l) c ->
  OpTable (OpCode (Line.Op l)) = Some (Line.Op l) /\ In (Line.Op l) OpTable_rows /\
  Line.Pc l = Call.Pc k /\ 0 <= Call.Pc k /\ 0 <= OpSize (Line.Op l) /\
  line_end l < 2 ^ 63.
Proof.
  intros Hlen Hf Hc Hset Hline.
  unfold Code.Set_, Code.Disasm in Hset. simpl in Hset.
  destruct (Asm.Disasm bin) as [[e|] a w| |] eqn:Hdis; try done. simpl in Hset.
  injection Hset as Hcode.
  pose proof (ctx_Code_run c p k contract Hf Hc) as Hcode_run.
  unfold ctx_Line in Hline. munfold. rewrite Hcode_run in Hline.
  rewrite <- Hcode in Hline. simpl in Hline.
  unfold ctx_Pc in Hline. munfold. rewrite (ctx_Call_run c p k Hf) in Hline.
  injection Hline as Hat.
  destruct (Disasm_listing bin None a w Hlen Hdis) as (code' & Hs & _ & Hrows & Hmap & _).
  destruct (Hmap _ _ Hat) as [Hpc Hrow].
  unfold Asm.AtRow in Hrow. destruct (0 <=? Line.LineNum l); [|done].
  destruct (Hrows _ _ Hrow) as (_ & _ & _ & (b & Hb & Hop) & _ & _ & Hpc0 & Hend).
  pose proof (OpTable_In _ _ Hop) as [Hin Hcodeb].
  pose proof (OpTable_OpSize _ _ Hop) as Hsz.
  pose proof (strip_metadata_length _ _ Hs) as Hl'.
  rewrite Hcodeb. repeat split; try done; try lia.
Qed.

Lemma OpTable_rows_pc (op : Operation) :
  In op OpTable_rows ->
  match Exec op with
  | fn.opJump => OpCode op = vm.JUMP
  | fn.opJumpi => OpCode op = vm.JUMPI
  | fn.makePush n => OpSize op = n
  | _ => OpSize op = 0
  end.
Proof.
  intros Hin.
  assert (Hall : forallb (fun op => match Exec op with
                                    | fn.opJump => OpCode op =? vm.JUMP
                                    | fn.opJumpi => OpCode op =? vm.JUMPI
                                    | fn.makePush n => OpSize op =? n
                                    | _ => OpSize op =? 0
                                    end) OpTable_rows = true) by (vm_compute; reflexivity).
  rewrite forallb_forall in Hall. specialize (Hall op Hin).
  destruct (Exec op); by apply Z.eqb_eq.
Qed.

Lemma Exec_ends_the_line (c c1 : Context.t) (p : nat) (k : Call.t) (contract : Contract.t)
    (bin : list byte) (l : Line) :
  Z.of_nat (length bin) < 2 ^ 63 ->
  at_frame c p k ->
  Context.Contracts c !! Call.CodeAddress k = Some contract ->
  Code.Set_ bin (Contract.Code_ NewContract) = Some (None, Contract.Code_ contract) ->
  ctx_Line c = Ok (inr l) c ->
  OpCode (Line.Op l) <> vm.JUMP -> OpCode (Line.Op l) <> vm.JUMPI ->
  Exec_of Sha3 PrecompiledContractsBerlin (Exec (Line.Op l)) c = Ok None c1 ->
  OpTable (OpCode (Line.Op l)) = Some (Line.Op l) /\
  exists k1, Context.calls c1 !! p = Some k1 /\ u64 (Call.Pc k1 + 1) = line_end l.
Proof.
  intros Hlen Hf Hc Hset Hline Hj Hji Hrun.
  destruct (ctx_Line_listed c p k contract bin l Hlen Hf Hc Hset Hline)
    as (Hop & Hin & Hpc & Hpc0 & Hsz & Hend).
  split; [done|].
  pose proof (OpTable_rows_pc _ Hin) as Hrow.
  pose proof (still_Exec_of (Exec (Line.Op l))) as Hstill.
  unfold line_end in *.
  destruct (Exec (Line.Op l)) eqn:Hex; try done;
    try (destruct (Hstill _ _ _ Hrun p k (proj2 Hf)) as (k1 & Hk1 & Hpc1);
         exists k1; split; [done|]; rewrite Hpc1, Hrow, Hpc in *;
         rewrite u64_small by lia; lia).
  destruct (makePush_listed c p k contract bin l n Hlen Hf Hc Hset Hline Hex)
    as (_ & _ & _ & _ & _ & Hn & Hpush).
  simpl in Hrun. rewrite Hpush in Hrun. injection Hrun as <-.
  eexists. split.
  - simpl. apply list_lookup_insert_eq. destruct Hf. by eapply lookup_lt_Some.
  - simpl. rewrite Hrow, Hpc in *. rewrite (u64_small (Call.Pc k + n)) by lia.
    rewrite u64_small by lia. lia.
Qed.

(** Every step but a jump ends its line: when the code of the running
    contract was loaded with [Code.Set] and the line at the program counter
    is not a JUMP or JUMPI, a step that executes without error leaves the
    program counter of the call that made the step at the end of the line --
    where the next line of the listing starts -- also when the step entered
    or left an inner call. *)
Theorem every_step_but_a_jump_ends_the_line {HS : Type} (fuel : nat) (s : HS)
    (c c1 : Context.t) (p : nat) (k : Call.t) (contract : Contract.t)
    (bin : list byte) (l : Line) :
  Z.of_nat (length bin) < 2 ^ 63 ->
  Context.IsDone c = false ->
  at_frame c p k ->
  Context.Contracts c !! Call.CodeAddress k = Some contract ->
  Code.Set_ bin (Contract.Code_ NewContract) = Some (None, Contract.Code_ contract) ->
  ctx_Line c = Ok (inr l) c ->
  OpCode (Line.Op l) <> vm.JUMP -> OpCode (Line.Op l) <> vm.JUMPI ->
  Exec_of Sha3 PrecompiledContractsBerlin (Exec (Line.Op l)) c = Ok None c1 ->
  exists c2 k2,
    Run Sha3 PrecompiledContractsBerlin (S fuel) [] 1 c s = Run_returned None c2 s /\
    Context.calls c2 !! p = Some k2 /\ Call.Pc k2 = line_end l.
Proof.
  intros Hlen Hdone Hf Hc Hset Hline Hj Hji Hrun.
  destruct (Exec_ends_the_line c c1 p k contract bin l Hlen Hf Hc Hset Hline Hj Hji Hrun)
    as (Hop & k1 & Hk1 & Hpc).
  exists (bump_Pc p c1), (Call.set_Pc (u64 (Call.Pc k1 + 1)) k1). split; [|split].
  - unfold Run. cbn [Run_loop]. rewrite Hdone. simpl.
    rewrite (Call_ptr_run c p (proj1 Hf)), Hline, Hop. simpl. rewrite Hrun.
    destruct (Z.eqb_spec (OpCode (Line.Op l)) vm.JUMP); [done|].
    destruct (Z.eqb_spec (OpCode (Line.Op l)) vm.JUMPI); [done|].
    simpl. destruct fuel; reflexivity.
  - unfold bump_Pc. rewrite Hk1. simpl.
    apply list_lookup_insert_eq. by eapply lookup_lt_Some.
  - done.
Qed.

End PcInvariant.

(** The sample program, loaded with [Code.Set], at ADD on the stack [3; 4]. *)
Lemma every_step_but_a_jump_ends_the_line_witness :
  exists c2 k2,
    Run Samples.Sha3 Samples.precompiles 1 [] 1
      (Samples.context_loaded Samples.push_add_stop_meta [3; 4] 4 100) tt
    = Run_returned None c2 tt /\
    Context.calls c2 !! 0%nat = Some k2 /\ Call.Pc k2 = line_end Samples.line4.
Proof.
  eapply (every_step_but_a_jump_ends_the_line Samples.Sha3 Samples.precompiles 0 tt
            (Samples.context_loaded Samples.push_add_stop_meta [3; 4] 4 100) _ 0%nat
            (Samples.call_of [3; 4] 4) (Samples.loaded Samples.push_add_stop_meta)
            Samples.push_add_stop_meta Samples.line4).
  - vm_compute; reflexivity.
  - reflexivity.
  - split; reflexivity.
  - reflexivity.
  - vm_compute; reflexivity.
  - vm_compute; reflexivity.
  - vm_compute; discriminate.
  - vm_compute; discriminate.
  - vm_compute; reflexivity.
Defined.
